(** * Donation / campaign reconciliation of the nonprofit CRM

    A shallow embedding of the donation and campaign handlers
    ([server/src/handlers/donations.ts], [server/src/handlers/campaigns.ts])
    over the tables of [server/src/db/schema.ts].

    Modelling choices.
    - A table is the list of its rows, in insertion order.  A [serial]
      primary key is drawn from a sequence kept in the database state.
    - A [numeric(12,2)] column holds an exact decimal with two fraction
      digits; it is represented by the integer number of hundredths, and
      the SQL expression [current_amount_raised + x] is integer addition of
      hundredths.  The amounts handed to the handlers are taken to be such
      values, which [toString] writes out exactly.  A row that a handler
      returns is kept as the stored row; the JavaScript number it carries
      as its amount is [parseFloat] of the stored decimal, an IEEE 754
      binary64 number ([returnedAmount]).
    - A tenant id is the text of its uuid.  Dates are instants on an integer
      time line; [jsonb] custom fields are kept as their JSON text.
    - Every [await db. ... .execute()] is one statement sent to the store.
      The handlers open no transaction, so each statement takes effect on
      its own.  A statement may be refused by the store (lost connection,
      numeric overflow, ...): the fault schedule tells, statement by
      statement, which ones are refused; the empty schedule refuses none.
      A refused statement throws and leaves the tables as they were; a
      refused INSERT may by then have drawn its [serial] id, which the
      sequence does not give back. *)

From Stdlib Require Import ZArith List String Bool Lia Permutation Sorted.
From Stdlib Require Import SpecFloat.
Import ListNotations.
Local Open Scope Z_scope.

(** ** Enumerations of [schema.ts] *)

Inductive DonationStatus := Pledged | Received | Cancelled | Refunded.
Inductive CampaignStatus := Active | Completed | CampaignCancelled | Planned.
Inductive PaymentMethod :=
  Cash | Check | CreditCard | BankTransfer | Online | Other.

(** [status === 'Received'] *)
Definition isReceived (s : DonationStatus) : bool :=
  match s with Received => true | _ => false end.

(** ** Rows *)

Module Donor.
Record t := mk {
  id : Z;
  tenantId : string;
  name : string
}.
End Donor.

Module Campaign.
Record t := mk {
  id : Z;
  tenantId : string;
  name : string;
  description : option string;
  startDate : option Z;
  endDate : option Z;
  goalAmount : Z;
  currentAmountRaised : Z;
  status : CampaignStatus;
  customFields : option string;
  createdAt : Z;
  updatedAt : Z
}.
End Campaign.

Module Donation.
Record t := mk {
  id : Z;
  tenantId : string;
  donorId : Z;
  campaignId : option Z;
  amount : Z;
  date : Z;
  status : DonationStatus;
  paymentMethod : option PaymentMethod;
  notes : option string;
  customFields : option string;
  createdAt : Z;
  updatedAt : Z
}.
End Donation.

(** ** Handler inputs ([schema.ts], zod).  An [.optional()] field is an
    [option] ([None] is [undefined]); a [.nullable()] one is an [option]
    whose [None] is [null]. *)

Module CreateDonationInput.
Record t := mk {
  tenantId : string;
  donorId : Z;
  campaignId : option Z;
  amount : Z;
  date : Z;
  status : DonationStatus;
  paymentMethod : option PaymentMethod;
  notes : option string;
  customFields : option string
}.
End CreateDonationInput.

Module UpdateDonationInput.
Record t := mk {
  id : Z;
  donorId : option Z;
  campaignId : option (option Z);
  amount : option Z;
  date : option Z;
  status : option DonationStatus;
  paymentMethod : option (option PaymentMethod);
  notes : option (option string);
  customFields : option (option string)
}.
End UpdateDonationInput.

Module CreateCampaignInput.
Record t := mk {
  tenantId : string;
  name : string;
  description : option string;
  startDate : option Z;
  endDate : option Z;
  goalAmount : Z;
  status : CampaignStatus;
  customFields : option string
}.
End CreateCampaignInput.

Module UpdateCampaignInput.
Record t := mk {
  id : Z;
  name : option string;
  description : option (option string);
  startDate : option (option Z);
  endDate : option (option Z);
  goalAmount : option Z;
  currentAmountRaised : option Z;
  status : option CampaignStatus;
  customFields : option (option string)
}.
End UpdateCampaignInput.

(** ** The database *)

Record Db := mkDb {
  donorsTable : list Donor.t;
  campaignsTable : list Campaign.t;
  donationsTable : list Donation.t;
  campaigns_id_seq : Z;
  donations_id_seq : Z
}.

(** ** Errors and the handler monad *)

Inductive Entity := DonorE | CampaignE | DonationE.

(** [NotFound e] is [new Error('<e> not found or access denied')];
    [StorageError] is whatever a refused statement throws; [TypeError] is
    the JavaScript error of reading a field of [undefined]. *)
Inductive Error := NotFound (e : Entity) | StorageError | TypeError.

(** The store's answer to one statement: it runs it, or it refuses it.  A
    refused statement changes no row.  An INSERT that the server refuses (a
    numeric overflow, say) has by then drawn its [serial] id, and a sequence
    never gives a number back; one that does not reach the server (a lost
    connection) has drawn nothing.  [Refuses drawn] tells which. *)
Inductive Answer := Runs | Refuses (drawn : bool).

(** A connection: the tables and what is left of the fault schedule. *)
Definition Conn : Type := Db * list Answer.

Definition M (A : Type) : Type := Conn -> (Error + A) * Conn.

Definition ret {A} (a : A) : M A := fun c => (inr a, c).

Definition throw {A} (e : Error) : M A := fun c => (inl e, c).

Definition bind {A B} (m : M A) (k : A -> M B) : M B :=
  fun c =>
    match m c with
    | (inl e, c') => (inl e, c')
    | (inr a, c') => k a c'
    end.

Notation "x <- m ;; k" := (bind m (fun x => k))
  (at level 61, m at next level, right associativity).
Notation "m ;;; k" := (bind m (fun _ => k))
  (at level 61, right associativity).

(** One statement sent to the store.  [spent] is what a refusal leaves of
    the database when the statement had drawn its [serial] id. *)
Definition executeInsert {A} (spent : Db -> Db) (stmt : Db -> A * Db) : M A :=
  fun c =>
    match snd c with
    | Refuses drawn :: rest =>
        (inl StorageError, ((if drawn then spent (fst c) else fst c), rest))
    | Runs :: rest => let (a, db') := stmt (fst c) in (inr a, (db', rest))
    | [] => let (a, db') := stmt (fst c) in (inr a, (db', []))
    end.

(** A statement that draws from no sequence: refused, it leaves the
    database as it was. *)
Definition execute {A} (stmt : Db -> A * Db) : M A :=
  executeInsert (fun db => db) stmt.

(** A handler call on database [db] under fault schedule [faults]: what the
    caller gets (a value, or the error thrown) and the database left. *)
Definition run {A} (m : M A) (faults : list Answer) (db : Db)
  : (Error + A) * Db :=
  let (r, c) := m (db, faults) in (r, fst c).

(** JavaScript truthiness of a [number | null | undefined]. *)
Definition truthy (x : option Z) : bool :=
  match x with
  | Some n => negb (n =? 0)
  | None => false
  end.

(** ** Statements *)

(** [db.select().from(donorsTable).where(and(eq(id, i), eq(tenantId, t)))] *)
Definition selectDonors (i : Z) (t : string) (db : Db) : list Donor.t * Db :=
  (filter (fun r => (Donor.id r =? i) && String.eqb (Donor.tenantId r) t)
          (donorsTable db), db).

Definition selectCampaigns (i : Z) (t : string) (db : Db)
  : list Campaign.t * Db :=
  (filter (fun r => (Campaign.id r =? i) && String.eqb (Campaign.tenantId r) t)
          (campaignsTable db), db).

Definition selectDonations (i : Z) (t : string) (db : Db)
  : list Donation.t * Db :=
  (filter (fun r => (Donation.id r =? i) && String.eqb (Donation.tenantId r) t)
          (donationsTable db), db).

(** [db.insert(donationsTable).values({...}).returning()] *)
Definition insertDonation (now : Z) (input : CreateDonationInput.t) (db : Db)
  : list Donation.t * Db :=
  let row :=
    Donation.mk (donations_id_seq db)
      (CreateDonationInput.tenantId input)
      (CreateDonationInput.donorId input)
      (CreateDonationInput.campaignId input)
      (CreateDonationInput.amount input)
      (CreateDonationInput.date input)
      (CreateDonationInput.status input)
      (CreateDonationInput.paymentMethod input)
      (CreateDonationInput.notes input)
      (CreateDonationInput.customFields input)
      now now in
  ([row],
   mkDb (donorsTable db) (campaignsTable db) (donationsTable db ++ [row])
        (campaigns_id_seq db) (donations_id_seq db + 1)).

(** [nextval('donations_id_seq')] alone. *)
Definition drawDonationId (db : Db) : Db :=
  mkDb (donorsTable db) (campaignsTable db) (donationsTable db)
       (campaigns_id_seq db) (donations_id_seq db + 1).

(** [SET current_amount_raised = current_amount_raised + delta,
        updated_at = now  WHERE id = k] *)
Definition bumpCampaign (now : Z) (k delta : Z) (c : Campaign.t) : Campaign.t :=
  if Campaign.id c =? k then
    Campaign.mk (Campaign.id c) (Campaign.tenantId c) (Campaign.name c)
      (Campaign.description c) (Campaign.startDate c) (Campaign.endDate c)
      (Campaign.goalAmount c) (Campaign.currentAmountRaised c + delta)
      (Campaign.status c) (Campaign.customFields c) (Campaign.createdAt c) now
  else c.

Definition adjustCampaign (now : Z) (k delta : Z) (db : Db) : unit * Db :=
  (tt,
   mkDb (donorsTable db) (map (bumpCampaign now k delta) (campaignsTable db))
        (donationsTable db) (campaigns_id_seq db) (donations_id_seq db)).

(** [x !== undefined ? x : old] *)
Definition orElse {A} (x : option A) (old : A) : A :=
  match x with Some v => v | None => old end.

(** The [updateValues] of [updateDonation] applied to one row. *)
Definition patchDonation (now : Z) (input : UpdateDonationInput.t)
    (d : Donation.t) : Donation.t :=
  Donation.mk (Donation.id d) (Donation.tenantId d)
    (orElse (UpdateDonationInput.donorId input) (Donation.donorId d))
    (orElse (UpdateDonationInput.campaignId input) (Donation.campaignId d))
    (orElse (UpdateDonationInput.amount input) (Donation.amount d))
    (orElse (UpdateDonationInput.date input) (Donation.date d))
    (orElse (UpdateDonationInput.status input) (Donation.status d))
    (orElse (UpdateDonationInput.paymentMethod input) (Donation.paymentMethod d))
    (orElse (UpdateDonationInput.notes input) (Donation.notes d))
    (orElse (UpdateDonationInput.customFields input) (Donation.customFields d))
    (Donation.createdAt d) now.

(** [db.update(donationsTable).set(updateValues).where(eq(id, input.id))
      .returning()] *)
Definition updateDonationRows (now : Z) (input : UpdateDonationInput.t)
    (db : Db) : list Donation.t * Db :=
  let hit d := Donation.id d =? UpdateDonationInput.id input in
  let rows :=
    map (fun d => if hit d then patchDonation now input d else d)
        (donationsTable db) in
  (filter hit rows,
   mkDb (donorsTable db) (campaignsTable db) rows
        (campaigns_id_seq db) (donations_id_seq db)).

(** [db.delete(donationsTable).where(eq(id, i))] *)
Definition deleteDonationRows (i : Z) (db : Db) : unit * Db :=
  (tt,
   mkDb (donorsTable db) (campaignsTable db)
        (filter (fun d => negb (Donation.id d =? i)) (donationsTable db))
        (campaigns_id_seq db) (donations_id_seq db)).

(** [db.insert(campaignsTable).values({...}).returning()]; the column
    default makes [current_amount_raised] zero. *)
Definition insertCampaign (now : Z) (input : CreateCampaignInput.t) (db : Db)
  : list Campaign.t * Db :=
  let row :=
    Campaign.mk (campaigns_id_seq db)
      (CreateCampaignInput.tenantId input)
      (CreateCampaignInput.name input)
      (CreateCampaignInput.description input)
      (CreateCampaignInput.startDate input)
      (CreateCampaignInput.endDate input)
      (CreateCampaignInput.goalAmount input)
      0
      (CreateCampaignInput.status input)
      (CreateCampaignInput.customFields input)
      now now in
  ([row],
   mkDb (donorsTable db) (campaignsTable db ++ [row]) (donationsTable db)
        (campaigns_id_seq db + 1) (donations_id_seq db)).

(** [nextval('campaigns_id_seq')] alone. *)
Definition drawCampaignId (db : Db) : Db :=
  mkDb (donorsTable db) (campaignsTable db) (donationsTable db)
       (campaigns_id_seq db + 1) (donations_id_seq db).

(** The [updateData] of [updateCampaign] applied to one row. *)
Definition patchCampaign (now : Z) (input : UpdateCampaignInput.t)
    (c : Campaign.t) : Campaign.t :=
  Campaign.mk (Campaign.id c) (Campaign.tenantId c)
    (orElse (UpdateCampaignInput.name input) (Campaign.name c))
    (orElse (UpdateCampaignInput.description input) (Campaign.description c))
    (orElse (UpdateCampaignInput.startDate input) (Campaign.startDate c))
    (orElse (UpdateCampaignInput.endDate input) (Campaign.endDate c))
    (orElse (UpdateCampaignInput.goalAmount input) (Campaign.goalAmount c))
    (orElse (UpdateCampaignInput.currentAmountRaised input)
            (Campaign.currentAmountRaised c))
    (orElse (UpdateCampaignInput.status input) (Campaign.status c))
    (orElse (UpdateCampaignInput.customFields input) (Campaign.customFields c))
    (Campaign.createdAt c) now.

(** The [where] clause shared by [updateCampaign] and [deleteCampaign]. *)
Definition campaignHit (i : Z) (t : string) (c : Campaign.t) : bool :=
  (Campaign.id c =? i) && String.eqb (Campaign.tenantId c) t.

Definition updateCampaignRows (now : Z) (input : UpdateCampaignInput.t)
    (t : string) (db : Db) : list Campaign.t * Db :=
  let hit := campaignHit (UpdateCampaignInput.id input) t in
  let rows :=
    map (fun c => if hit c then patchCampaign now input c else c)
        (campaignsTable db) in
  (filter hit rows,
   mkDb (donorsTable db) rows (donationsTable db)
        (campaigns_id_seq db) (donations_id_seq db)).

(** [db.delete(campaignsTable).where(...)]; the value is [rowCount]. *)
Definition deleteCampaignRows (i : Z) (t : string) (db : Db) : nat * Db :=
  (List.length (filter (campaignHit i t) (campaignsTable db)),
   mkDb (donorsTable db)
        (filter (fun c => negb (campaignHit i t c)) (campaignsTable db))
        (donationsTable db) (campaigns_id_seq db) (donations_id_seq db)).

(** ** Handlers *)

(** [if (x) { k }] on a [number | null | undefined]; [k] gets the number. *)
Definition whenTruthy (x : option Z) (k : Z -> M unit) : M unit :=
  match x with
  | Some n => if n =? 0 then ret tt else k n
  | None => ret tt
  end.

(** [if (rows.length === 0) throw new Error('<e> not found ...')] *)
Definition orNotFound {A} (e : Entity) (rows : list A) : M unit :=
  match rows with
  | [] => throw (NotFound e)
  | _ :: _ => ret tt
  end.

(** [rows[0]], whose fields the handler reads when it builds its result. *)
Definition first {A} (rows : list A) : M A :=
  match rows with
  | r :: _ => ret r
  | [] => throw TypeError
  end.

Definition createDonation (now : Z) (input : CreateDonationInput.t)
  : M Donation.t :=
  donor <- execute (selectDonors (CreateDonationInput.donorId input)
                                 (CreateDonationInput.tenantId input)) ;;
  orNotFound DonorE donor ;;;
  whenTruthy (CreateDonationInput.campaignId input) (fun k =>
    campaign <- execute (selectCampaigns k
                           (CreateDonationInput.tenantId input)) ;;
    orNotFound CampaignE campaign) ;;;
  result <- executeInsert drawDonationId (insertDonation now input) ;;
  whenTruthy (CreateDonationInput.campaignId input) (fun k =>
    if isReceived (CreateDonationInput.status input)
    then execute (adjustCampaign now k (CreateDonationInput.amount input))
    else ret tt) ;;;
  first result.

Definition updateDonation (now : Z) (input : UpdateDonationInput.t)
    (tenantId : string) : M Donation.t :=
  currentDonation <-
    execute (selectDonations (UpdateDonationInput.id input) tenantId) ;;
  match currentDonation with
  | [] => throw (NotFound DonationE)
  | current :: _ =>
    let oldAmount := Donation.amount current in
    let oldCampaignId := Donation.campaignId current in
    let oldStatus := Donation.status current in
    whenTruthy (UpdateDonationInput.donorId input) (fun i =>
      donor <- execute (selectDonors i tenantId) ;;
      orNotFound DonorE donor) ;;;
    match UpdateDonationInput.campaignId input with
    | Some c =>
        whenTruthy c (fun k =>
          campaign <- execute (selectCampaigns k tenantId) ;;
          orNotFound CampaignE campaign)
    | None => ret tt
    end ;;;
    result <- execute (updateDonationRows now input) ;;
    let newAmount := orElse (UpdateDonationInput.amount input) oldAmount in
    let newCampaignId :=
      orElse (UpdateDonationInput.campaignId input) oldCampaignId in
    let newStatus := orElse (UpdateDonationInput.status input) oldStatus in
    whenTruthy oldCampaignId (fun k =>
      if isReceived oldStatus
      then execute (adjustCampaign now k (- oldAmount))
      else ret tt) ;;;
    whenTruthy newCampaignId (fun k =>
      if isReceived newStatus
      then execute (adjustCampaign now k newAmount)
      else ret tt) ;;;
    first result
  end.

Definition deleteDonation (now : Z) (id : Z) (tenantId : string) : M unit :=
  donations <- execute (selectDonations id tenantId) ;;
  match donations with
  | [] => throw (NotFound DonationE)
  | donation :: _ =>
    execute (deleteDonationRows id) ;;;
    whenTruthy (Donation.campaignId donation) (fun k =>
      if isReceived (Donation.status donation)
      then execute (adjustCampaign now k (- Donation.amount donation))
      else ret tt)
  end.

Definition createCampaign (now : Z) (input : CreateCampaignInput.t)
  : M Campaign.t :=
  result <- executeInsert drawCampaignId (insertCampaign now input) ;;
  first result.

Definition updateCampaign (now : Z) (input : UpdateCampaignInput.t)
    (tenantId : string) : M Campaign.t :=
  result <- execute (updateCampaignRows now input tenantId) ;;
  orNotFound CampaignE result ;;;
  first result.

Definition deleteCampaign (id : Z) (tenantId : string) : M unit :=
  rowCount <- execute (deleteCampaignRows id tenantId) ;;
  if Nat.eqb rowCount 0 then throw (NotFound CampaignE) else ret tt.

(** The three mutations of the [donations] router. *)
Inductive DonationMutation :=
| Create (input : CreateDonationInput.t)
| Update (input : UpdateDonationInput.t) (tenantId : string)
| Delete (id : Z) (tenantId : string).

Definition mutate (now : Z) (op : DonationMutation) : M (option Donation.t) :=
  match op with
  | Create input => d <- createDonation now input ;; ret (Some d)
  | Update input t => d <- updateDonation now input t ;; ret (Some d)
  | Delete i t => deleteDonation now i t ;;; ret None
  end.

(** ** Observations used by the properties *)

(** The stored [currentAmountRaised] of campaign [k], as
    [select ... from campaigns where id = k] reads it. *)
Definition raised (db : Db) (k : Z) : option Z :=
  option_map Campaign.currentAmountRaised
    (find (fun c => Campaign.id c =? k) (campaignsTable db)).

(** The donation row with id [i]. *)
Definition donationById (db : Db) (i : Z) : option Donation.t :=
  find (fun d => Donation.id d =? i) (donationsTable db).

(** What a donation in state (campaign link, status, amount) contributes to
    the total of campaign [k]. *)
Definition contribution (link : option Z) (s : DonationStatus) (a : Z) (k : Z)
  : Z :=
  match link with
  | Some c => if (c =? k) && isReceived s then a else 0
  | None => 0
  end.

(** Sum of [amount] over the donations with [campaignId = k] and
    [status = 'Received']. *)
Fixpoint receivedTotal (ds : list Donation.t) (k : Z) : Z :=
  match ds with
  | [] => 0
  | d :: rest =>
      contribution (Donation.campaignId d) (Donation.status d)
                   (Donation.amount d) k
      + receivedTotal rest k
  end.

(** The same sum restricted to the donations of tenant [t]. *)
Definition receivedTotalOf (t : string) (ds : list Donation.t) (k : Z) : Z :=
  receivedTotal (filter (fun d => String.eqb (Donation.tenantId d) t) ds) k.

(** The reconciliation invariant. *)
Definition reconciled (db : Db) : Prop :=
  forall c, In c (campaignsTable db) ->
    Campaign.currentAmountRaised c
    = receivedTotal (donationsTable db) (Campaign.id c).

(** The invariant with the sum taken inside the campaign's tenant. *)
Definition reconciledPerTenant (db : Db) : Prop :=
  forall c, In c (campaignsTable db) ->
    Campaign.currentAmountRaised c
    = receivedTotalOf (Campaign.tenantId c) (donationsTable db)
                      (Campaign.id c).

(** What the schema guarantees of the stored rows: primary keys are unique
    and were drawn from the [serial] sequences, which start at 1. *)
Record schemaOk (db : Db) : Prop := {
  campaign_ids_nodup : NoDup (map Campaign.id (campaignsTable db));
  campaign_ids_serial :
    forall c, In c (campaignsTable db) ->
      1 <= Campaign.id c < campaigns_id_seq db;
  donation_ids_nodup : NoDup (map Donation.id (donationsTable db));
  donation_ids_serial :
    forall d, In d (donationsTable db) ->
      1 <= Donation.id d < donations_id_seq db;
  donations_id_seq_start : 1 <= donations_id_seq db
}.

(** A donation linked to a stored campaign belongs to that campaign's
    tenant. *)
Definition linksWithinTenant (db : Db) : Prop :=
  forall d c, In d (donationsTable db) -> In c (campaignsTable db) ->
    Donation.campaignId d = Some (Campaign.id c) ->
    Donation.tenantId d = Campaign.tenantId c.

(** No statement of the schedule is refused. *)
Definition faultFree (faults : list Answer) : Prop :=
  Forall (fun a => a = Runs) faults.

(** States reached by mutations that completed successfully. *)
Inductive reachable (db0 : Db) : Db -> Prop :=
| reach_here : reachable db0 db0
| reach_step : forall db now op faults r db',
    reachable db0 db ->
    run (mutate now op) faults db = (inr r, db') ->
    reachable db0 db'.

(** ** Notions used by the properties *)

(** Whether the next statement is refused. *)
Definition refused (faults : list Answer) : bool :=
  match faults with
  | Refuses _ :: _ => true
  | _ => false
  end.

(** Whether a reconciliation step
    [if (link && status === 'Received') { update campaigns ... }]
    sends its statement. *)
Definition settles (link : option Z) (s : DonationStatus) : bool :=
  truthy link && isReceived s.

(** The database after that step went through. *)
Definition settle (now : Z) (link : option Z) (s : DonationStatus) (delta : Z)
    (db : Db) : Db :=
  if settles link s
  then snd (adjustCampaign now (orElse link 0) delta db)
  else db.

(** One campaign row through a reconciliation step. *)
Definition settleRow (now : Z) (link : option Z) (s : DonationStatus)
    (delta : Z) (c : Campaign.t) : Campaign.t :=
  if settles link s then bumpCampaign now (orElse link 0) delta c else c.

(** The campaign write of a reconciliation step, if it sends one. *)
Definition settleWrites (now : Z) (link : option Z) (s : DonationStatus)
    (delta : Z) : list (Db -> Db) :=
  if settles link s
  then [fun db => snd (adjustCampaign now (orElse link 0) delta db)]
  else [].

(** A statement that leaves the database as it was. *)
Definition readOnly {A} (stmt : Db -> A * Db) : Prop :=
  forall db, snd (stmt db) = db.

(** No stored campaign has id 0. *)
Definition noCampaignZero (db : Db) : Prop :=
  forall c, In c (campaignsTable db) -> Campaign.id c <> 0.

(** Row [i] is stored under tenant [t]. *)
Definition hasDonor (db : Db) (i : Z) (t : string) : Prop :=
  exists r, In r (donorsTable db) /\ Donor.id r = i /\ Donor.tenantId r = t.

Definition hasCampaign (db : Db) (i : Z) (t : string) : Prop :=
  exists r, In r (campaignsTable db)
            /\ Campaign.id r = i /\ Campaign.tenantId r = t.

Definition hasDonation (db : Db) (i : Z) (t : string) : Prop :=
  exists r, In r (donationsTable db)
            /\ Donation.id r = i /\ Donation.tenantId r = t.

(** The row that [createDonation] stores for [input]. *)
Definition newDonation (now : Z) (input : CreateDonationInput.t) (db : Db)
  : Donation.t :=
  Donation.mk (donations_id_seq db)
    (CreateDonationInput.tenantId input)
    (CreateDonationInput.donorId input)
    (CreateDonationInput.campaignId input)
    (CreateDonationInput.amount input)
    (CreateDonationInput.date input)
    (CreateDonationInput.status input)
    (CreateDonationInput.paymentMethod input)
    (CreateDonationInput.notes input)
    (CreateDonationInput.customFields input)
    now now.

(** What [update donations set ... where id = input.id] does to one row. *)
Definition updateRow (now : Z) (input : UpdateDonationInput.t)
    (d : Donation.t) : Donation.t :=
  if Donation.id d =? UpdateDonationInput.id input
  then patchDonation now input d else d.

(** The effective new state of a donation under a patch: the patch's field
    where it is given, the old row's otherwise. *)
Definition newAmountOf (input : UpdateDonationInput.t) (old : Donation.t) : Z :=
  orElse (UpdateDonationInput.amount input) (Donation.amount old).

Definition newCampaignIdOf (input : UpdateDonationInput.t) (old : Donation.t)
  : option Z :=
  orElse (UpdateDonationInput.campaignId input) (Donation.campaignId old).

Definition newStatusOf (input : UpdateDonationInput.t) (old : Donation.t)
  : DonationStatus :=
  orElse (UpdateDonationInput.status input) (Donation.status old).

(** The database after all the writes of a successful [updateDonation] on
    the row [current]. *)
Definition updateDonationWrites (now : Z) (input : UpdateDonationInput.t)
    (current : Donation.t) (db : Db) : Db :=
  settle now
    (orElse (UpdateDonationInput.campaignId input) (Donation.campaignId current))
    (orElse (UpdateDonationInput.status input) (Donation.status current))
    (orElse (UpdateDonationInput.amount input) (Donation.amount current))
    (settle now (Donation.campaignId current) (Donation.status current)
       (- Donation.amount current)
       (snd (updateDonationRows now input db))).

(** The database after all the writes of a successful [deleteDonation] of
    the row [donation]. *)
Definition deleteDonationWrites (now : Z) (donation : Donation.t) (db : Db)
  : Db :=
  settle now (Donation.campaignId donation) (Donation.status donation)
    (- Donation.amount donation)
    (snd (deleteDonationRows (Donation.id donation) db)).

(** What the row [d] contributes to campaign [k]. *)
Definition contributionOf (d : Donation.t) (k : Z) : Z :=
  contribution (Donation.campaignId d) (Donation.status d) (Donation.amount d) k.

(** The writes a donation mutation sends once its validation passed, in
    the order of the handler: the donation row first, then the campaign
    totals. *)
Definition writes (now : Z) (op : DonationMutation) (db : Db)
  : list (Db -> Db) :=
  match op with
  | Create input =>
      (fun s => snd (insertDonation now input s))
      :: settleWrites now (CreateDonationInput.campaignId input)
           (CreateDonationInput.status input)
           (CreateDonationInput.amount input)
  | Update input t =>
      match fst (selectDonations (UpdateDonationInput.id input) t db) with
      | [] => []
      | current :: _ =>
          (fun s => snd (updateDonationRows now input s))
          :: settleWrites now (Donation.campaignId current)
               (Donation.status current) (- Donation.amount current)
          ++ settleWrites now
               (orElse (UpdateDonationInput.campaignId input)
                       (Donation.campaignId current))
               (orElse (UpdateDonationInput.status input)
                       (Donation.status current))
               (orElse (UpdateDonationInput.amount input)
                       (Donation.amount current))
      end
  | Delete i t =>
      match fst (selectDonations i t db) with
      | [] => []
      | donation :: _ =>
          (fun s => snd (deleteDonationRows i s))
          :: settleWrites now (Donation.campaignId donation)
               (Donation.status donation) (- Donation.amount donation)
      end
  end.

(** The writes [ws] applied in order. *)
Definition applyWrites (ws : list (Db -> Db)) (db : Db) : Db :=
  fold_left (fun s w => w s) ws db.

(** The database after the first [n] writes of [op]. *)
Definition afterWrites (n : nat) (now : Z) (op : DonationMutation) (db : Db)
  : Db :=
  applyWrites (firstn n (writes now op db)) db.

(** The position in a schedule of the first statement that is refused,
    counted from 0, and whether that statement had drawn its id. *)
Fixpoint firstRefusal (faults : list Answer) : option (nat * bool) :=
  match faults with
  | [] => None
  | Runs :: rest =>
      match firstRefusal rest with
      | Some (p, drawn) => Some (S p, drawn)
      | None => None
      end
  | Refuses drawn :: _ => Some (0%nat, drawn)
  end.

(** A position [k] statements further on. *)
Definition later (k : nat) (o : option (nat * bool)) : option (nat * bool) :=
  match o with
  | Some (p, drawn) => Some ((k + p)%nat, drawn)
  | None => None
  end.

(** The number of lookups a donation mutation sends before its first write:
    the donation, or the donor, and each donor or campaign that the input
    names by a truthy id. *)
Definition lookups (op : DonationMutation) : nat :=
  match op with
  | Create input =>
      1 + (if truthy (CreateDonationInput.campaignId input) then 1 else 0)
  | Update input _ =>
      1 + (if truthy (UpdateDonationInput.donorId input) then 1 else 0)
        + match UpdateDonationInput.campaignId input with
          | Some c => if truthy c then 1 else 0
          | None => 0
          end
  | Delete _ _ => 1
  end.

(** The number of statements a donation mutation sends when nothing stops
    it: its lookups, then its writes. *)
Definition statements (now : Z) (op : DonationMutation) (db : Db) : nat :=
  lookups op + List.length (writes now op db).

(** What the refusal of statement [p] leaves behind by itself: the donation
    id, when that statement is the INSERT of a create and had drawn it. *)
Definition leftByRefused (op : DonationMutation) (p : nat) (drawn : bool)
    (db : Db) : Db :=
  match op with
  | Create _ =>
      if drawn && Nat.eqb p (lookups op) then drawDonationId db else db
  | _ => db
  end.

(** ** Amounts as the API has them *)









(** What [update campaigns set ... where id = input.id and tenant_id = t]
    does to one row. *)
Definition updateCampaignRow (now : Z) (input : UpdateCampaignInput.t)
    (t : string) (c : Campaign.t) : Campaign.t :=
  if campaignHit (UpdateCampaignInput.id input) t c
  then patchCampaign now input c else c.

(** ** The scenarios of the test suite *)

Definition testTenantId : string := "f47ac10b-58cc-4372-a567-0e02b2c3d479".

Definition otherTenantId : string := "f47ac10b-58cc-4372-a567-0e02b2c3d480".

Definition testCampaign (i : Z) (t : string) : Campaign.t :=
  Campaign.mk i t "Test Campaign" (Some "A test campaign"%string)
    (Some 0) (Some 365) 1000000 0 Active None 0 0.

(** The database after the suite's [beforeEach]: one donor, one campaign. *)
Definition testDb : Db :=
  mkDb [Donor.mk 1 testTenantId "John Donor"]
       [testCampaign 1 testTenantId] [] 2 1.

Definition testDonationInput (c : option Z) (a : Z) (s : DonationStatus)
  : CreateDonationInput.t :=
  CreateDonationInput.mk testTenantId 1 c a 14 s (Some CreditCard)
    (Some "Test donation"%string) None.

(** The suite's donation input for another donor or campaign. *)
Definition testInputFor (donor : Z) (c : option Z) : CreateDonationInput.t :=
  CreateDonationInput.mk testTenantId donor c 10050 14 Received
    (Some CreditCard) (Some "Test donation"%string) None.

Definition noPatch (i : Z) : UpdateDonationInput.t :=
  UpdateDonationInput.mk i None None None None None None None None.

(** The suite's [{ id, status: 'Cancelled' }] and [{ id, campaignId }]
    patches. *)
Definition statusPatch (i : Z) (s : DonationStatus) : UpdateDonationInput.t :=
  UpdateDonationInput.mk i None None None None (Some s) None None None.

Definition campaignPatch (i : Z) (c : option Z) : UpdateDonationInput.t :=
  UpdateDonationInput.mk i None (Some c) None None None None None None.

(** The suite's 'should update currentAmountRaised' input, on the database
    whose campaign 1 holds one [Received] donation of 100.50. *)
Definition raisedPatch (i : Z) (v : Z) : UpdateCampaignInput.t :=
  UpdateCampaignInput.mk i None None None None None (Some v) None None.

(** The suite's [Received] donation of 100.50 to the test campaign, the row
    stored for it and the database after its creation. *)
Definition testReceivedInput : CreateDonationInput.t :=
  testDonationInput (Some 1) 10050 Received.

Definition testDonation : Donation.t :=
  newDonation 5 testReceivedInput testDb.

Definition testDbReceived : Db :=
  snd (run (createDonation 5 testReceivedInput) [] testDb).

(** The database with a second campaign, as in the suite's
    'should handle campaign changes correctly'. *)
Definition testDbTwoCampaigns : Db :=
  snd (run (createCampaign 5
              (CreateCampaignInput.mk testTenantId "New Campaign"
                 (Some "A test campaign"%string) (Some 0) (Some 365)
                 500000 Active None))
           [] testDbReceived).

(** The suite's stored donation set to [Cancelled], and the database
    after that update. *)
Definition testDonationCancelled : Donation.t :=
  patchDonation 6 (statusPatch 1 Cancelled) testDonation.

Definition testDbCancelled : Db :=
  snd (run (updateDonation 6 (statusPatch 1 Cancelled) testTenantId) []
           testDbReceived).

(** A campaign and a donor of another tenant next to the suite's rows. *)
Definition testDbOtherTenant : Db :=
  mkDb (donorsTable testDbReceived ++ [Donor.mk 2 otherTenantId "Jane Donor"])
       (campaignsTable testDbReceived ++ [testCampaign 2 otherTenantId])
       (donationsTable testDbReceived) 3 2.

(** The suite's database left by a [createDonation] whose fourth statement,
    the campaign adjustment, the store refused. *)
Definition testDbUnsettled : Db :=
  snd (run (mutate 5 (Create testReceivedInput))
           [Runs; Runs; Runs; Refuses false] testDb).

(** The suite's database with its donation deleted and the campaign
    adjustment that follows still missing. *)
Definition testDbRowDeleted : Db :=
  afterWrites 1 7 (Delete 1 testTenantId) testDbReceived.

(** The campaign row of [testDbReceived] with that patch applied, and the
    database after the update. *)
Definition testCampaignOverwritten : Campaign.t :=
  patchCampaign 8 (raisedPatch 1 2500000)
    (Campaign.mk 1 testTenantId "Test Campaign"
       (Some "A test campaign"%string) (Some 0) (Some 365) 1000000 10050
       Active None 0 5).

Definition testDbOverwritten : Db :=
  snd (run (updateCampaign 8 (raisedPatch 1 2500000) testTenantId) []
           testDbReceived).








(** The suite's database with the campaign of the stored donation
    deleted. *)
Definition testDbCampaignDeleted : Db :=
  snd (run (deleteCampaign 1 testTenantId) [] testDbReceived).

(** ** Read handlers of the donation and campaign routers *)

(** [rows[0]] of a query that may find nothing: the handler answers [null]
    on an empty result. *)
Definition firstOrNull {A B} (f : A -> B) (rows : list A) : M (option B) :=
  match rows with
  | [] => ret None
  | r :: _ => ret (Some (f r))
  end.

(** [ORDER BY]: the rows in the order [le], by insertion.  SQL leaves the
    order of rows that compare equal open; here they keep the order they are
    read in. *)
Fixpoint insertBy {A} (le : A -> A -> bool) (x : A) (l : list A) : list A :=
  match l with
  | [] => [x]
  | y :: rest => if le x y then x :: l else y :: insertBy le x rest
  end.

Definition orderBy {A} (le : A -> A -> bool) (l : list A) : list A :=
  fold_right (insertBy le) [] l.

(** [desc(donationsTable.date)] *)
Definition dateDesc (x y : Donation.t) : bool :=
  Donation.date y <=? Donation.date x.

(** A row of [donations INNER JOIN donors LEFT JOIN campaigns]. *)
Definition Joined : Type := Donation.t * Donor.t * option Campaign.t.

Definition joinedDonation (r : Joined) : Donation.t := fst (fst r).

(** [.leftJoin(campaignsTable, eq(donations.campaignId, campaigns.id))] for
    one donation-donor pair; a null [campaignId] matches no campaign. *)
Definition leftJoinCampaign (db : Db) (d : Donation.t) (donor : Donor.t)
  : list Joined :=
  match filter (fun c => match Donation.campaignId d with
                         | Some k => Campaign.id c =? k
                         | None => false
                         end) (campaignsTable db) with
  | [] => [(d, donor, None)]
  | cs => map (fun c => (d, donor, Some c)) cs
  end.

(** [.from(donationsTable)
      .innerJoin(donorsTable, eq(donations.donorId, donors.id))
      .leftJoin(campaignsTable, eq(donations.campaignId, campaigns.id))] *)
Definition donationsJoined (db : Db) : list Joined :=
  flat_map (fun d =>
    flat_map (leftJoinCampaign db d)
      (filter (fun r => Donation.donorId d =? Donor.id r) (donorsTable db)))
    (donationsTable db).

Definition selectJoinedById (i : Z) (t : string) (db : Db)
  : list Joined * Db :=
  (filter (fun r => (Donation.id (joinedDonation r) =? i)
                    && String.eqb (Donation.tenantId (joinedDonation r)) t)
          (donationsJoined db), db).

Definition getDonationById (id : Z) (tenantId : string)
  : M (option Donation.t) :=
  results <- execute (selectJoinedById id tenantId) ;;
  firstOrNull joinedDonation results.

(** [where(and(eq(donorId, i), eq(tenantId, t))).orderBy(desc(date))] *)
Definition selectDonationsByDonor (i : Z) (t : string) (db : Db)
  : list Donation.t * Db :=
  (orderBy dateDesc
     (filter (fun d => (Donation.donorId d =? i)
                       && String.eqb (Donation.tenantId d) t)
             (donationsTable db)), db).

(** [eq(donationsTable.campaignId, k)]: a null column equals nothing. *)
Definition campaignIdIs (k : Z) (d : Donation.t) : bool :=
  match Donation.campaignId d with
  | Some c => c =? k
  | None => false
  end.

Definition selectDonationsByCampaign (k : Z) (t : string) (db : Db)
  : list Donation.t * Db :=
  (orderBy dateDesc
     (filter (fun d => campaignIdIs k d && String.eqb (Donation.tenantId d) t)
             (donationsTable db)), db).

Definition getDonationsByDonor (donorId : Z) (tenantId : string)
  : M (list Donation.t) :=
  donor <- execute (selectDonors donorId tenantId) ;;
  orNotFound DonorE donor ;;;
  execute (selectDonationsByDonor donorId tenantId).

Definition getDonationsByCampaign (campaignId : Z) (tenantId : string)
  : M (list Donation.t) :=
  campaign <- execute (selectCampaigns campaignId tenantId) ;;
  orNotFound CampaignE campaign ;;;
  execute (selectDonationsByCampaign campaignId tenantId).

Definition getCampaignById (id : Z) (tenantId : string)
  : M (option Campaign.t) :=
  campaigns <- execute (selectCampaigns id tenantId) ;;
  firstOrNull (fun c => c) campaigns.

(** ** The mutations of the [campaigns] router, and both routers together *)

Inductive CampaignMutation :=
| CreateCampaign (input : CreateCampaignInput.t)
| UpdateCampaign (input : UpdateCampaignInput.t) (tenantId : string)
| DeleteCampaign (id : Z) (tenantId : string).

Definition mutateCampaign (now : Z) (op : CampaignMutation)
  : M (option Campaign.t) :=
  match op with
  | CreateCampaign input => c <- createCampaign now input ;; ret (Some c)
  | UpdateCampaign input t => c <- updateCampaign now input t ;; ret (Some c)
  | DeleteCampaign i t => deleteCampaign i t ;;; ret None
  end.

Inductive Mutation :=
| OnDonation (op : DonationMutation)
| OnCampaign (op : CampaignMutation).

(** A mutation as a change of the database, its result dropped. *)
Definition apply (now : Z) (op : Mutation) (faults : list Answer) (db : Db)
  : (Error + unit) * Db :=
  match op with
  | OnDonation o => run (mutate now o ;;; ret tt) faults db
  | OnCampaign o => run (mutateCampaign now o ;;; ret tt) faults db
  end.

(** Every mutation but an [updateCampaign] that carries
    [currentAmountRaised]. *)
Definition leavesTotalsToDonations (op : Mutation) : Prop :=
  match op with
  | OnCampaign (UpdateCampaign input _) =>
      UpdateCampaignInput.currentAmountRaised input = None
  | _ => True
  end.

(** States reached by successful mutations of either router, none of them
    an [updateCampaign] carrying [currentAmountRaised]. *)
Inductive reachableByRouters (db0 : Db) : Db -> Prop :=
| routers_here : reachableByRouters db0 db0
| routers_step : forall db now op faults db',
    reachableByRouters db0 db ->
    leavesTotalsToDonations op ->
    apply now op faults db = (inr tt, db') ->
    reachableByRouters db0 db'.

(** Campaign ids that donations name were handed out by the sequence. *)
Record campaignsKnown (db : Db) : Prop := {
  campaigns_id_seq_start : 1 <= campaigns_id_seq db;
  named_campaigns_serial :
    forall d k, In d (donationsTable db) -> Donation.campaignId d = Some k ->
      k < campaigns_id_seq db
}.

(** The tenant a donation mutation is called for. *)
Definition tenantOf (op : DonationMutation) : string :=
  match op with
  | Create input => CreateDonationInput.tenantId input
  | Update _ t => t
  | Delete _ t => t
  end.

(** The rows of the other tenants. *)
Definition donationsOfOthers (t : string) (db : Db) : list Donation.t :=
  filter (fun d => negb (String.eqb (Donation.tenantId d) t))
         (donationsTable db).

Definition campaignsOfOthers (t : string) (db : Db) : list Campaign.t :=
  filter (fun c => negb (String.eqb (Campaign.tenantId c) t))
         (campaignsTable db).

(** Every stored donation has its donor, in its own tenant. *)
Definition donorsKnown (db : Db) : Prop :=
  forall d, In d (donationsTable db) ->
    hasDonor db (Donation.donorId d) (Donation.tenantId d).

(** A donor row with the id the donation names, whatever its tenant. *)
Definition donorRowOf (db : Db) (d : Donation.t) : Prop :=
  exists donor, In donor (donorsTable db)
                /\ Donor.id donor = Donation.donorId d.

(** ** Further scenarios *)

(** A patch that carries nothing but the donor id 0, and the suite's
    database after it. *)
Definition testDonorZeroPatch : UpdateDonationInput.t :=
  UpdateDonationInput.mk 1 (Some 0) None None None None None None None.

Definition testDbDonorZero : Db :=
  snd (run (updateDonation 6 testDonorZeroPatch testTenantId) []
           testDbReceived).

(** The second campaign of [testDbTwoCampaigns]. *)
Definition testNewCampaignInput : CreateCampaignInput.t :=
  CreateCampaignInput.mk testTenantId "New Campaign"
    (Some "A test campaign"%string) (Some 0) (Some 365) 500000 Active None.


(** The donors and the rows of every tenant but [t] are the same in [db']
    as in [db]. *)
Definition sameForOthers (t : string) (db db' : Db) : Prop :=
  donorsTable db' = donorsTable db
  /\ donationsOfOthers t db' = donationsOfOthers t db
  /\ campaignsOfOthers t db' = campaignsOfOthers t db.


(** ** Listings: search, sorting and pages *)

(** What the store decides about text: whether a value matches an [ILIKE]
    pattern, and the collation order [ORDER BY] puts text in. *)
Record Engine := {
  ilike : string -> string -> bool;
  textLe : string -> string -> bool
}.

Inductive SortOrder := Asc | Desc.

Module FilterInput.
Record t := mk {
  tenantId : string;
  search : option string;
  sortBy : option string;
  sortOrder : SortOrder;
  page : Z;
  limit : Z
}.
End FilterInput.

(** JavaScript truthiness of a [string | undefined]: the empty string
    counts as absent. *)
Definition truthyString (s : option string) : option string :=
  match s with
  | Some EmptyString => None
  | other => other
  end.

(** [if (filter.search) conditions.push(ilike(column, `%${filter.search}%`))]
    on a row whose column holds [value]. *)
Definition searchMatches (E : Engine) (search : option string)
  (value : string) : bool :=
  match truthyString search with
  | Some s => ilike E value ("%" ++ s ++ "%")
  | None => true
  end.

(** [sortOrder === 'asc' ? asc(column) : desc(column)] for a column ordered
    by [le]. *)
Definition direction {A} (o : SortOrder) (le : A -> A -> bool)
  : A -> A -> bool :=
  match o with
  | Asc => le
  | Desc => fun x y => le y x
  end.

Definition onKey {A K} (key : A -> K) (le : K -> K -> bool)
  : A -> A -> bool :=
  fun x y => le (key x) (key y).

(** Order of a nullable column: nulls come last ascending and first
    descending. *)
Definition nullableLe {K} (le : K -> K -> bool) (x y : option K) : bool :=
  match x, y with
  | _, None => true
  | None, Some _ => false
  | Some a, Some b => le a b
  end.

(** [.limit(limit).offset(offset)] on a query; the store rejects a negative
    limit or offset. *)
Definition paged {A} (limit offset : Z) (query : Db -> list A * Db)
  : M (list A) :=
  if (limit <? 0) || (offset <? 0) then throw StorageError
  else execute (fun db =>
         (firstn (Z.to_nat limit)
                 (skipn (Z.to_nat offset) (fst (query db))),
          snd (query db))).

Definition joinedDonor (r : Joined) : Donor.t := snd (fst r).

Definition joinedCampaign (r : Joined) : option Campaign.t := snd r.

(** The [conditions] of [getDonations]. *)
Definition donationsWhere (E : Engine) (f : FilterInput.t)
  (d : Donation.t) (donor : Donor.t) : bool :=
  String.eqb (Donation.tenantId d) (FilterInput.tenantId f)
  && searchMatches E (FilterInput.search f) (Donor.name donor).

(** The [orderBy] of [getDonations]: an unrecognised [sortBy] sorts by date,
    in the direction asked for. *)
Definition donationsOrder (E : Engine) (f : FilterInput.t)
  : Joined -> Joined -> bool :=
  match truthyString (FilterInput.sortBy f) with
  | Some sortBy =>
      direction (FilterInput.sortOrder f)
        (if String.eqb sortBy "donorName"
         then onKey (fun r => Donor.name (joinedDonor r)) (textLe E)
         else if String.eqb sortBy "campaignName"
         then onKey (fun r => option_map Campaign.name (joinedCampaign r))
                    (nullableLe (textLe E))
         else if String.eqb sortBy "amount"
         then onKey (fun r => Donation.amount (joinedDonation r)) Z.leb
         else onKey (fun r => Donation.date (joinedDonation r)) Z.leb)
  | None =>
      direction Desc (onKey (fun r => Donation.date (joinedDonation r)) Z.leb)
  end.

Definition selectDonationsListing (E : Engine) (f : FilterInput.t) (db : Db)
  : list Joined * Db :=
  (orderBy (donationsOrder E f)
     (filter (fun r => donationsWhere E f (joinedDonation r) (joinedDonor r))
             (donationsJoined db)), db).

(** [.from(donationsTable)
      .innerJoin(donorsTable, eq(donations.donorId, donors.id))]: the count
    query leaves the campaigns out. *)
Definition donationsWithDonors (db : Db) : list (Donation.t * Donor.t) :=
  flat_map (fun d =>
    map (pair d)
        (filter (fun r => Donation.donorId d =? Donor.id r) (donorsTable db)))
    (donationsTable db).

Definition countDonations (E : Engine) (f : FilterInput.t) (db : Db)
  : Z * Db :=
  (Z.of_nat (List.length
     (filter (fun p => donationsWhere E f (fst p) (snd p))
             (donationsWithDonors db))), db).

Definition getDonations (E : Engine) (filter : FilterInput.t)
  : M (list Donation.t * Z) :=
  let offset := (FilterInput.page filter - 1) * FilterInput.limit filter in
  results <- paged (FilterInput.limit filter) offset
               (selectDonationsListing E filter) ;;
  total <- execute (countDonations E filter) ;;
  ret (map joinedDonation results, total).

(** The [whereClause] of [getCampaigns]. *)
Definition campaignsWhere (E : Engine) (f : FilterInput.t) (c : Campaign.t)
  : bool :=
  String.eqb (Campaign.tenantId c) (FilterInput.tenantId f)
  && searchMatches E (FilterInput.search f) (Campaign.name c).

(** Order of the [campaign_status] enumeration: that of its declaration. *)
Definition statusRank (s : CampaignStatus) : Z :=
  match s with
  | Active => 0
  | Completed => 1
  | CampaignCancelled => 2
  | Planned => 3
  end.

Definition createdAtDesc : Campaign.t -> Campaign.t -> bool :=
  direction Desc (onKey Campaign.createdAt Z.leb).

(** The [switch (filter.sortBy)] of [getCampaigns]: an unrecognised [sortBy]
    sorts by [createdAt], newest first. *)
Definition campaignsOrder (E : Engine) (f : FilterInput.t)
  : Campaign.t -> Campaign.t -> bool :=
  match truthyString (FilterInput.sortBy f) with
  | Some sortBy =>
      if String.eqb sortBy "id"
      then direction (FilterInput.sortOrder f) (onKey Campaign.id Z.leb)
      else if String.eqb sortBy "name"
      then direction (FilterInput.sortOrder f)
                     (onKey Campaign.name (textLe E))
      else if String.eqb sortBy "goalAmount"
      then direction (FilterInput.sortOrder f)
                     (onKey Campaign.goalAmount Z.leb)
      else if String.eqb sortBy "status"
      then direction (FilterInput.sortOrder f)
                     (onKey (fun c => statusRank (Campaign.status c)) Z.leb)
      else if String.eqb sortBy "createdAt"
      then direction (FilterInput.sortOrder f)
                     (onKey Campaign.createdAt Z.leb)
      else if String.eqb sortBy "updatedAt"
      then direction (FilterInput.sortOrder f)
                     (onKey Campaign.updatedAt Z.leb)
      else createdAtDesc
  | None => createdAtDesc
  end.

Definition selectCampaignsListing (E : Engine) (f : FilterInput.t) (db : Db)
  : list Campaign.t * Db :=
  (orderBy (campaignsOrder E f)
           (filter (campaignsWhere E f) (campaignsTable db)), db).

Definition countCampaigns (E : Engine) (f : FilterInput.t) (db : Db)
  : Z * Db :=
  (Z.of_nat (List.length (filter (campaignsWhere E f) (campaignsTable db))),
   db).

Definition getCampaigns (E : Engine) (filter : FilterInput.t)
  : M (list Campaign.t * Z) :=
  let offset := (FilterInput.page filter - 1) * FilterInput.limit filter in
  campaigns <- paged (FilterInput.limit filter) offset
                 (selectCampaignsListing E filter) ;;
  total <- execute (countCampaigns E filter) ;;
  ret (campaigns, total).

(** The rows a tenant owns. *)
Definition donationsOf (t : string) (db : Db) : list Donation.t :=
  filter (fun d => String.eqb (Donation.tenantId d) t) (donationsTable db).

Definition campaignsOf (t : string) (db : Db) : list Campaign.t :=
  filter (fun c => String.eqb (Campaign.tenantId c) t) (campaignsTable db).

(** The number of rows on page [page] of a listing of [total] rows. *)
Definition pageLength (page limit total : Z) : Z :=
  Z.min limit (Z.max 0 (total - (page - 1) * limit)).

(** [sortBy] is none of the columns [getCampaigns] knows. *)
Definition unknownCampaignColumn (f : FilterInput.t) : Prop :=
  forall s, truthyString (FilterInput.sortBy f) = Some s ->
    ~ In s ["id"; "name"; "goalAmount"; "status"; "createdAt"; "updatedAt"]%string.

(** Donor ids are a primary key. *)
Definition donorIdsUnique (db : Db) : Prop :=
  NoDup (map Donor.id (donorsTable db)).

(** [sortBy] is none of the columns [getDonations] knows besides the date. *)
Definition sortsByDate (f : FilterInput.t) : Prop :=
  forall s, truthyString (FilterInput.sortBy f) = Some s ->
    ~ In s ["donorName"; "campaignName"; "amount"]%string.

(** The direction [getDonations] sorts dates in: the one asked for when
    [sortBy] is given, newest first when it is not. *)
Definition dateDirection (f : FilterInput.t) : SortOrder :=
  match truthyString (FilterInput.sortBy f) with
  | Some _ => FilterInput.sortOrder f
  | None => Desc
  end.

Definition inDirection (o : SortOrder) (x y : Z) : Prop :=
  match o with
  | Asc => x <= y
  | Desc => y <= x
  end.

(** An engine for the scenarios: text in byte order, and every value
    matching every pattern. *)
Definition testEngine : Engine :=
  {| ilike := fun _ _ => true;
     textLe := fun a b => negb (String.ltb b a) |}.

(** The first page of ten of a tenant, nothing searched or sorted for. *)
Definition testFilter (t : string) : FilterInput.t :=
  FilterInput.mk t None None Desc 1 10.

(** The same page, sorted by a column neither listing knows, ascending. *)
Definition testFilterUnknownColumn (t : string) : FilterInput.t :=
  FilterInput.mk t None (Some "donor"%string) Asc 1 10.

(** A second donation of the suite's donor, pledged at a later date and to
    no campaign; the row stored for it and the database with both
    donations. *)
Definition testPledgeInput : CreateDonationInput.t :=
  CreateDonationInput.mk testTenantId 1 None 2500 20 Pledged None None None.

Definition testPledge : Donation.t :=
  newDonation 7 testPledgeInput testDbReceived.

Definition testDbTwoDonations : Db :=
  snd (run (createDonation 7 testPledgeInput) [] testDbReceived).
(** * Properties *)

(** ** Reasoning about handler runs *)

Lemma executeInsert_eq {A} (spent : Db -> Db) (stmt : Db -> A * Db)
    (c : Conn) :
  executeInsert spent stmt c =
  match snd c with
  | Refuses drawn :: rest =>
      (inl StorageError, ((if drawn then spent (fst c) else fst c), rest))
  | _ => (inr (fst (stmt (fst c))), (snd (stmt (fst c)), tl (snd c)))
  end.
Proof.
  unfold executeInsert. destruct c as [db fs]; simpl.
  destruct fs as [|[|drawn] rest]; simpl; try reflexivity;
    destruct (stmt db); reflexivity.
Qed.

Lemma execute_eq {A} (stmt : Db -> A * Db) (c : Conn) :
  execute stmt c =
  if refused (snd c) then (inl StorageError, (fst c, tl (snd c)))
  else (inr (fst (stmt (fst c))), (snd (stmt (fst c)), tl (snd c))).
Proof.
  unfold execute. rewrite executeInsert_eq. destruct c as [db fs]; simpl.
  destruct fs as [|[|[]] rest]; reflexivity.
Qed.

(** *** Positions in the schedule *)

Lemma firstRefusal_runs fs :
  refused fs = false -> firstRefusal fs = later 1 (firstRefusal (tl fs)).
Proof.
  destruct fs as [|[|drawn] rest]; simpl; intros H;
    [reflexivity | | discriminate H].
  destruct (firstRefusal rest) as [[p d]|]; reflexivity.
Qed.

Lemma firstRefusal_refused fs :
  refused fs = true -> exists drawn, firstRefusal fs = Some (0%nat, drawn).
Proof.
  destruct fs as [|[|drawn] rest]; simpl; intros H; try discriminate H.
  eauto.
Qed.

Lemma later_later a b o : later a (later b o) = later (a + b) o.
Proof.
  destruct o as [[p d]|]; simpl; [|reflexivity].
  rewrite Nat.add_assoc. reflexivity.
Qed.

Lemma later_0 o : later 0 o = o.
Proof. destruct o as [[p d]|]; reflexivity. Qed.

Lemma later_some k o p drawn :
  later k o = Some (p, drawn) -> (k <= p)%nat.
Proof.
  destruct o as [[q d]|]; simpl; intros H; inversion H. apply Nat.le_add_r.
Qed.

Lemma faultFree_firstRefusal faults :
  faultFree faults -> firstRefusal faults = None.
Proof.
  induction 1 as [|a rest Ha _ IH]; [reflexivity|].
  subst a. simpl. rewrite IH. reflexivity.
Qed.

Lemma executeInsert_inr {A} (spent : Db -> Db) (stmt : Db -> A * Db) c a c' :
  executeInsert spent stmt c = (inr a, c') ->
  refused (snd c) = false /\ a = fst (stmt (fst c))
  /\ c' = (snd (stmt (fst c)), tl (snd c)).
Proof.
  rewrite executeInsert_eq. destruct c as [db fs]. simpl.
  destruct fs as [|[|drawn] rest]; simpl; intros H; inversion H; auto.
Qed.

Lemma executeInsert_inl {A} (spent : Db -> Db) (stmt : Db -> A * Db) c e c' :
  executeInsert spent stmt c = (inl e, c') ->
  e = StorageError
  /\ exists drawn,
       firstRefusal (snd c) = Some (0%nat, drawn)
       /\ fst c' = if drawn then spent (fst c) else fst c.
Proof.
  rewrite executeInsert_eq. destruct c as [db fs]. simpl.
  destruct fs as [|[|drawn] rest]; simpl; intros H; inversion H.
  split; [reflexivity|]. exists drawn. auto.
Qed.

Lemma execute_inr {A} (stmt : Db -> A * Db) c a c' :
  execute stmt c = (inr a, c') ->
  refused (snd c) = false /\ a = fst (stmt (fst c))
  /\ c' = (snd (stmt (fst c)), tl (snd c)).
Proof.
  rewrite execute_eq. destruct (refused (snd c)); intros H; inversion H; auto.
Qed.

Lemma execute_inl {A} (stmt : Db -> A * Db) c e c' :
  execute stmt c = (inl e, c') ->
  refused (snd c) = true /\ e = StorageError /\ c' = (fst c, tl (snd c)).
Proof.
  rewrite execute_eq. destruct (refused (snd c)); intros H; inversion H; auto.
Qed.

Lemma bind_inr {A B} (m : M A) (k : A -> M B) c b c' :
  bind m k c = (inr b, c') ->
  exists a c1, m c = (inr a, c1) /\ k a c1 = (inr b, c').
Proof.
  unfold bind. destruct (m c) as [[e|a] c1]; intros H.
  - discriminate.
  - eauto.
Qed.

Lemma bind_inl {A B} (m : M A) (k : A -> M B) c e c' :
  bind m k c = (inl e, c') ->
  m c = (inl e, c') \/ exists a c1, m c = (inr a, c1) /\ k a c1 = (inl e, c').
Proof.
  unfold bind. destruct (m c) as [[e0|a] c1]; intros H.
  - left. inversion H. reflexivity.
  - right. eauto.
Qed.

Lemma faultFree_refused faults : faultFree faults -> refused faults = false.
Proof. destruct 1 as [|b rest Hb _]; [reflexivity | subst b; reflexivity]. Qed.

Lemma execute_inr_at {A} (stmt : Db -> A * Db) c a c' :
  execute stmt c = (inr a, c') ->
  firstRefusal (snd c) = later 1 (firstRefusal (snd c')).
Proof.
  intros H. apply execute_inr in H. destruct H as (R & _ & ->).
  apply firstRefusal_runs. exact R.
Qed.

Lemma execute_inl_at {A} (stmt : Db -> A * Db) c e c' :
  execute stmt c = (inl e, c') ->
  exists drawn, firstRefusal (snd c) = Some (0%nat, drawn).
Proof.
  intros H. apply execute_inl in H. destruct H as (R & _).
  apply firstRefusal_refused. exact R.
Qed.

Lemma executeInsert_inr_at {A} (spent : Db -> Db) (stmt : Db -> A * Db)
    c a c' :
  executeInsert spent stmt c = (inr a, c') ->
  firstRefusal (snd c) = later 1 (firstRefusal (snd c')).
Proof.
  intros H. apply executeInsert_inr in H. destruct H as (R & _ & ->).
  apply firstRefusal_runs. exact R.
Qed.

Lemma executeInsert_faultFree {A} (spent : Db -> Db) (stmt : Db -> A * Db)
    db faults :
  faultFree faults ->
  executeInsert spent stmt (db, faults)
  = (inr (fst (stmt db)), (snd (stmt db), tl faults)).
Proof.
  intros F. rewrite executeInsert_eq. simpl.
  destruct F as [|a rest Ha _]; [reflexivity | subst a; reflexivity].
Qed.

Lemma faultFree_tl faults : faultFree faults -> faultFree (tl faults).
Proof. destruct 1; simpl; [constructor | assumption]. Qed.

Lemma execute_faultFree {A} (stmt : Db -> A * Db) db faults :
  faultFree faults ->
  execute stmt (db, faults) = (inr (fst (stmt db)), (snd (stmt db), tl faults)).
Proof.
  intros F. rewrite execute_eq. simpl. rewrite (faultFree_refused _ F).
  reflexivity.
Qed.

Ltac inv H := inversion H; subst; clear H.

Lemma settle_inr now link s delta c u c' :
  whenTruthy link (fun k =>
    if isReceived s then execute (adjustCampaign now k delta) else ret tt) c
  = (inr u, c') ->
  fst c' = settle now link s delta (fst c)
  /\ (faultFree (snd c) -> faultFree (snd c')).
Proof.
  intros H. unfold settle, settles, truthy, whenTruthy in *.
  destruct link as [k|]; [|inv H; auto].
  destruct (k =? 0); [inv H; auto|].
  destruct (isReceived s); [|inv H; auto].
  apply execute_inr in H. destruct H as (_ & _ & ->).
  simpl. auto using faultFree_tl.
Qed.

Lemma settle_inl now link s delta c e c' :
  whenTruthy link (fun k =>
    if isReceived s then execute (adjustCampaign now k delta) else ret tt) c
  = (inl e, c') ->
  e = StorageError /\ fst c' = fst c /\ settles link s = true.
Proof.
  intros H. unfold settles, truthy, whenTruthy in *.
  destruct link as [k|]; [|inv H].
  destruct (k =? 0); [inv H|].
  destruct (isReceived s); [|inv H].
  apply execute_inl in H. destruct H as (_ & -> & ->). auto.
Qed.

Lemma settle_faultFree now link s delta db faults :
  faultFree faults ->
  exists faults',
    whenTruthy link (fun k =>
      if isReceived s then execute (adjustCampaign now k delta) else ret tt)
      (db, faults)
    = (inr tt, (settle now link s delta db, faults'))
    /\ faultFree faults'.
Proof.
  intros F. unfold whenTruthy, settle, settles, truthy.
  destruct link as [k|]; [|exists faults; auto].
  destruct (k =? 0); simpl; [exists faults; auto|].
  destruct (isReceived s); simpl; [|exists faults; auto].
  rewrite execute_faultFree by assumption. simpl.
  exists (tl faults). auto using faultFree_tl.
Qed.

Arguments selectDonors : simpl never.
Arguments selectCampaigns : simpl never.
Arguments selectDonations : simpl never.
Arguments insertDonation : simpl never.
Arguments adjustCampaign : simpl never.
Arguments updateDonationRows : simpl never.
Arguments deleteDonationRows : simpl never.

Lemma run_inv {A} (m : M A) faults db r db' :
  run m faults db = (r, db') ->
  exists faults', m (db, faults) = (r, (db', faults')).
Proof.
  unfold run. destruct (m (db, faults)) as [r0 [db0 fs0]]; simpl.
  intros H; inv H. eauto.
Qed.

Lemma run_intro {A} (m : M A) faults db r db' faults' :
  m (db, faults) = (r, (db', faults')) -> run m faults db = (r, db').
Proof. unfold run. intros ->. reflexivity. Qed.

Lemma lookup_inr {A} (e : Entity) (stmt : Db -> list A * Db) c u c' :
  readOnly stmt ->
  (rows <- execute stmt ;; orNotFound e rows) c = (inr u, c') ->
  fst (stmt (fst c)) <> [] /\ c' = (fst c, tl (snd c)).
Proof.
  intros RO H. apply bind_inr in H. destruct H as (rows & c1 & R1 & R2).
  apply execute_inr in R1. destruct R1 as (_ & -> & ->).
  rewrite RO in R2. unfold orNotFound in R2.
  destruct (fst (stmt (fst c))); inv R2. split; [discriminate | reflexivity].
Qed.

Lemma lookup_inl {A} (e : Entity) (stmt : Db -> list A * Db) c err c' :
  readOnly stmt ->
  (rows <- execute stmt ;; orNotFound e rows) c = (inl err, c') ->
  fst c' = fst c
  /\ (err = StorageError \/ err = NotFound e /\ fst (stmt (fst c)) = []).
Proof.
  intros RO H. apply bind_inl in H. destruct H as [H | (rows & c1 & R1 & R2)].
  - apply execute_inl in H. destruct H as (_ & -> & ->). auto.
  - apply execute_inr in R1. destruct R1 as (_ & -> & ->).
    rewrite RO in R2. unfold orNotFound in R2.
    destruct (fst (stmt (fst c))); inv R2. auto.
Qed.

Lemma lookup_faultFree {A} (e : Entity) (stmt : Db -> list A * Db) db faults :
  readOnly stmt -> faultFree faults -> fst (stmt db) <> [] ->
  (rows <- execute stmt ;; orNotFound e rows) (db, faults)
  = (inr tt, (db, tl faults)).
Proof.
  intros RO F NE. unfold bind. rewrite execute_faultFree by assumption.
  rewrite RO. unfold orNotFound. destruct (fst (stmt db)); [congruence|].
  reflexivity.
Qed.

Lemma selectDonors_readOnly i t : readOnly (selectDonors i t).
Proof. intro db. reflexivity. Qed.

Lemma selectCampaigns_readOnly i t : readOnly (selectCampaigns i t).
Proof. intro db. reflexivity. Qed.

Lemma selectDonations_readOnly i t : readOnly (selectDonations i t).
Proof. intro db. reflexivity. Qed.

(** The guarded lookup [if (x) { rows = select ...; if (!rows.length) throw }]. *)
Lemma guarded_inr {A} (e : Entity) (stmt : Z -> Db -> list A * Db) x c u c' :
  (forall k, readOnly (stmt k)) ->
  whenTruthy x (fun k => rows <- execute (stmt k) ;; orNotFound e rows) c
  = (inr u, c') ->
  fst c' = fst c
  /\ (forall k, x = Some k -> k <> 0 -> fst (stmt k (fst c)) <> [])
  /\ (faultFree (snd c) -> faultFree (snd c')).
Proof.
  intros RO H. unfold whenTruthy in H.
  destruct x as [n|].
  - destruct (n =? 0) eqn:E.
    + inv H. repeat split; auto.  intros k [= <-] Hk.
      apply Z.eqb_eq in E.  contradiction. 
    + apply lookup_inr in H; [|apply RO]. destruct H as (NE & ->).
      split; [reflexivity|]. split; [|apply faultFree_tl].
      intros k [= <-] _. exact NE.
  - inv H. repeat split; auto. discriminate.
Qed.

Lemma guarded_inl {A} (e : Entity) (stmt : Z -> Db -> list A * Db) x c err c' :
  (forall k, readOnly (stmt k)) ->
  whenTruthy x (fun k => rows <- execute (stmt k) ;; orNotFound e rows) c
  = (inl err, c') ->
  fst c' = fst c
  /\ (err = StorageError
      \/ err = NotFound e
         /\ exists k, x = Some k /\ k <> 0 /\ fst (stmt k (fst c)) = []).
Proof.
  intros RO H. unfold whenTruthy in H.
  destruct x as [n|]; [|inv H].
  destruct (n =? 0) eqn:E; [inv H|].
  apply lookup_inl in H; [|apply RO]. destruct H as (S & [->|(-> & NF)]).
  - auto.
  - split; [exact S|]. right. split; [reflexivity|].
    exists n. apply Z.eqb_neq in E. auto.
Qed.

Lemma guarded_faultFree {A} (e : Entity) (stmt : Z -> Db -> list A * Db)
    x db faults :
  (forall k, readOnly (stmt k)) -> faultFree faults ->
  (forall k, x = Some k -> k <> 0 -> fst (stmt k db) <> []) ->
  exists faults',
    whenTruthy x (fun k => rows <- execute (stmt k) ;; orNotFound e rows)
      (db, faults) = (inr tt, (db, faults'))
    /\ faultFree faults'.
Proof.
  intros RO F NE. unfold whenTruthy.
  destruct x as [n|]; [|exists faults; auto].
  destruct (n =? 0) eqn:E; [exists faults; auto|].
  exists (tl faults). split; [|auto using faultFree_tl].
  apply lookup_faultFree; auto. apply NE; [reflexivity|].
  apply Z.eqb_neq. exact E.
Qed.

(** *** How far in the schedule each step of a handler gets *)

Lemma orNotFound_inr {A} (e : Entity) (rows : list A) c u c' :
  orNotFound e rows c = (inr u, c') -> c' = c.
Proof. unfold orNotFound. destruct rows; intros H; inv H. reflexivity. Qed.

Lemma orNotFound_inl {A} (e : Entity) (rows : list A) c err c' :
  orNotFound e rows c = (inl err, c') -> err = NotFound e.
Proof. unfold orNotFound. destruct rows; intros H; inv H. reflexivity. Qed.

Lemma lookup_inr_at {A} (e : Entity) (stmt : Db -> list A * Db) c u c' :
  (rows <- execute stmt ;; orNotFound e rows) c = (inr u, c') ->
  firstRefusal (snd c) = later 1 (firstRefusal (snd c')).
Proof.
  intros H. apply bind_inr in H. destruct H as (rows & c1 & R1 & R2).
  apply orNotFound_inr in R2. subst c'. eapply execute_inr_at. exact R1.
Qed.

Lemma lookup_inl_at {A} (e : Entity) (stmt : Db -> list A * Db) c c' :
  (rows <- execute stmt ;; orNotFound e rows) c = (inl StorageError, c') ->
  exists drawn, firstRefusal (snd c) = Some (0%nat, drawn).
Proof.
  intros H. apply bind_inl in H. destruct H as [H | (rows & c1 & _ & R2)].
  - eapply execute_inl_at. exact H.
  - apply orNotFound_inl in R2. discriminate R2.
Qed.

Lemma guarded_inr_at {A} (e : Entity) (stmt : Z -> Db -> list A * Db)
    x c u c' :
  whenTruthy x (fun k => rows <- execute (stmt k) ;; orNotFound e rows) c
  = (inr u, c') ->
  firstRefusal (snd c)
  = later (if truthy x then 1 else 0) (firstRefusal (snd c')).
Proof.
  unfold whenTruthy, truthy. intros H.
  destruct x as [n|]; [|inv H; symmetry; apply later_0].
  destruct (n =? 0); [inv H; symmetry; apply later_0|].
  eapply lookup_inr_at. exact H.
Qed.

Lemma guarded_inl_at {A} (e : Entity) (stmt : Z -> Db -> list A * Db)
    x c c' :
  whenTruthy x (fun k => rows <- execute (stmt k) ;; orNotFound e rows) c
  = (inl StorageError, c') ->
  truthy x = true /\ exists drawn, firstRefusal (snd c) = Some (0%nat, drawn).
Proof.
  unfold whenTruthy, truthy. intros H.
  destruct x as [n|]; [|inv H].
  destruct (n =? 0); [inv H|].
  split; [reflexivity|]. eapply lookup_inl_at. exact H.
Qed.

Lemma settle_inr_at now link s delta c u c' :
  whenTruthy link (fun k =>
    if isReceived s then execute (adjustCampaign now k delta) else ret tt) c
  = (inr u, c') ->
  firstRefusal (snd c)
  = later (if settles link s then 1 else 0) (firstRefusal (snd c')).
Proof.
  unfold whenTruthy, settles, truthy. intros H.
  destruct link as [k|]; [|inv H; symmetry; apply later_0].
  destruct (k =? 0); [inv H; symmetry; apply later_0|].
  destruct (isReceived s); [|inv H; symmetry; apply later_0].
  eapply execute_inr_at. exact H.
Qed.

Lemma settle_inl_at now link s delta c e c' :
  whenTruthy link (fun k =>
    if isReceived s then execute (adjustCampaign now k delta) else ret tt) c
  = (inl e, c') ->
  exists drawn, firstRefusal (snd c) = Some (0%nat, drawn).
Proof.
  unfold whenTruthy. intros H.
  destruct link as [k|]; [|inv H].
  destruct (k =? 0); [inv H|].
  destruct (isReceived s); [|inv H].
  eapply execute_inl_at. exact H.
Qed.

Lemma afterWrites_0 now op db : afterWrites 0 now op db = db.
Proof. reflexivity. Qed.

Lemma settleWrites_length now link s delta :
  List.length (settleWrites now link s delta)
  = if settles link s then 1%nat else 0%nat.
Proof. unfold settleWrites. destruct (settles link s); reflexivity. Qed.

(** ** What each donation handler does when it returns *)

Lemma createDonation_inr now input faults db d db' :
  run (createDonation now input) faults db = (inr d, db') ->
  fst (selectDonors (CreateDonationInput.donorId input)
                    (CreateDonationInput.tenantId input) db) <> []
  /\ (forall k, CreateDonationInput.campaignId input = Some k -> k <> 0 ->
        fst (selectCampaigns k (CreateDonationInput.tenantId input) db) <> [])
  /\ fst (insertDonation now input db) = [d]
  /\ db' = settle now (CreateDonationInput.campaignId input)
                  (CreateDonationInput.status input)
                  (CreateDonationInput.amount input)
                  (snd (insertDonation now input db)).
Proof.
  intros H. apply run_inv in H. destruct H as (fs' & H).
  unfold createDonation in H.
  apply bind_inr in H. destruct H as (donor & [db1 fs1] & R1 & H).
  apply bind_inr in H. destruct H as (u1 & [db2 fs2] & R2 & H).
  apply bind_inr in H. destruct H as (u2 & [db3 fs3] & R3 & H).
  apply bind_inr in H. destruct H as (result & [db4 fs4] & R4 & H).
  apply bind_inr in H. destruct H as (u3 & [db5 fs5] & R5 & H).
  apply execute_inr in R1. cbn [fst snd] in R1. destruct R1 as (_ & -> & R1).
  inv R1.
  assert (NE : fst (selectDonors (CreateDonationInput.donorId input)
                      (CreateDonationInput.tenantId input) db) <> []).
  { unfold orNotFound in R2. intros E. rewrite E in R2. discriminate R2. }
  assert (db2 = db).
  { unfold orNotFound in R2.
    destruct (fst (selectDonors _ _ db)); inv R2. reflexivity. }
  subst db2.
  apply guarded_inr in R3; [|intro; apply selectCampaigns_readOnly].
  cbn [fst snd] in R3. destruct R3 as (-> & NC & _).
  apply executeInsert_inr in R4. cbn [fst snd] in R4.
  destruct R4 as (_ & -> & R4). inv R4.
  apply settle_inr in R5. cbn [fst snd] in R5. destruct R5 as (-> & _).
  unfold first in H. unfold insertDonation in H |- *. cbn [fst snd] in H |- *.
  inv H. auto.
Qed.

Lemma createDonation_faultFree now input faults db :
  faultFree faults ->
  fst (selectDonors (CreateDonationInput.donorId input)
                    (CreateDonationInput.tenantId input) db) <> [] ->
  (forall k, CreateDonationInput.campaignId input = Some k -> k <> 0 ->
     fst (selectCampaigns k (CreateDonationInput.tenantId input) db) <> []) ->
  exists d,
    fst (insertDonation now input db) = [d]
    /\ run (createDonation now input) faults db
       = (inr d,
          settle now (CreateDonationInput.campaignId input)
            (CreateDonationInput.status input)
            (CreateDonationInput.amount input)
            (snd (insertDonation now input db))).
Proof.
  intros F ND NC.
  destruct (guarded_faultFree CampaignE
              (fun k => selectCampaigns k (CreateDonationInput.tenantId input))
              (CreateDonationInput.campaignId input) db (tl faults))
    as (fs2 & G & F2);
    [intro; apply selectCampaigns_readOnly | auto using faultFree_tl | exact NC |].
  destruct (settle_faultFree now (CreateDonationInput.campaignId input)
              (CreateDonationInput.status input)
              (CreateDonationInput.amount input)
              (snd (insertDonation now input db)) (tl fs2))
    as (fs3 & S & F3); [auto using faultFree_tl|].
  eexists. split; [reflexivity|].
  eapply run_intro. unfold createDonation.
  unfold bind at 1. rewrite execute_faultFree by assumption.
  rewrite selectDonors_readOnly. unfold bind at 1. unfold orNotFound at 1.
  destruct (fst (selectDonors _ _ db)) eqn:E; [congruence|].
  unfold ret at 1. unfold bind at 1. rewrite G.
  unfold bind at 1. rewrite executeInsert_faultFree by assumption.
  unfold bind at 1. rewrite S. reflexivity.
Qed.

Lemma first_inr {A} (rows : list A) c r c' :
  first rows c = (inr r, c') -> c' = c /\ exists rest, rows = r :: rest.
Proof. unfold first. destruct rows; intros H; inv H. eauto. Qed.

Lemma first_inl {A} (rows : list A) c e c' :
  first rows c = (inl e, c') -> c' = c /\ rows = [].
Proof. unfold first. destruct rows; intros H; inv H. eauto. Qed.

Lemma refused_in_lookups now op p drawn db :
  (p < lookups op)%nat ->
  leftByRefused op p drawn (afterWrites (p - lookups op) now op db) = db.
Proof.
  intros L. replace (p - lookups op)%nat with 0%nat by lia.
  rewrite afterWrites_0. unfold leftByRefused.
  destruct op as [input|input t|i t]; try reflexivity.
  replace (Nat.eqb p (lookups (Create input))) with false
    by (symmetry; apply Nat.eqb_neq; lia).
  rewrite andb_false_r. reflexivity.
Qed.

Lemma refused_after_first_write now op n drawn db :
  leftByRefused op (lookups op + S n) drawn
    (afterWrites (lookups op + S n - lookups op) now op db)
  = afterWrites (S n) now op db.
Proof.
  replace (lookups op + S n - lookups op)%nat with (S n) by lia.
  unfold leftByRefused. destruct op as [input|input t|i t]; try reflexivity.
  replace (Nat.eqb (lookups (Create input) + S n) (lookups (Create input)))
    with false by (symmetry; apply Nat.eqb_neq; lia).
  rewrite andb_false_r. reflexivity.
Qed.

Lemma createDonation_inr_at now input faults db d db' :
  run (createDonation now input) faults db = (inr d, db') ->
  exists rest,
    firstRefusal faults = later (statements now (Create input) db) rest.
Proof.
  intros H. apply run_inv in H. destruct H as (fs' & H).
  unfold createDonation in H.
  apply bind_inr in H. destruct H as (donor & [db1 fs1] & R1 & H).
  apply bind_inr in H. destruct H as (u1 & [db2 fs2] & R2 & H).
  apply bind_inr in H. destruct H as (u2 & [db3 fs3] & R3 & H).
  apply bind_inr in H. destruct H as (result & [db4 fs4] & R4 & H).
  apply bind_inr in H. destruct H as (u3 & [db5 fs5] & R5 & H).
  apply execute_inr_at in R1. apply orNotFound_inr in R2. inv R2.
  apply guarded_inr_at in R3. apply executeInsert_inr_at in R4.
  apply settle_inr_at in R5. cbn [fst snd] in *.
  exists (firstRefusal fs5).
  rewrite R1, R3, R4, R5, !later_later.
  f_equal. unfold statements, lookups, writes. cbn [List.length].
  rewrite settleWrites_length.
  destruct (truthy _), (settles _ _); reflexivity.
Qed.

Lemma createDonation_inl now input faults db e db' :
  run (createDonation now input) faults db = (inl e, db') ->
  db' = db
  /\ (e = NotFound DonorE
         /\ fst (selectDonors (CreateDonationInput.donorId input)
                   (CreateDonationInput.tenantId input) db) = []
      \/ e = NotFound CampaignE
         /\ fst (selectDonors (CreateDonationInput.donorId input)
                   (CreateDonationInput.tenantId input) db) <> []
         /\ exists k, CreateDonationInput.campaignId input = Some k /\ k <> 0
              /\ fst (selectCampaigns k (CreateDonationInput.tenantId input) db)
                 = [])
  \/ e = StorageError
     /\ exists p drawn,
          firstRefusal faults = Some (p, drawn)
          /\ (p < statements now (Create input) db)%nat
          /\ db' = leftByRefused (Create input) p drawn
                     (afterWrites (p - lookups (Create input)) now
                        (Create input) db).
Proof.
  intros H. apply run_inv in H. destruct H as (fs' & H).
  unfold createDonation in H.
  apply bind_inl in H. destruct H as [H | (donor & [db1 fs1] & R1 & H)].
  { destruct (execute_inl_at _ _ _ _ H) as (drawn & P). cbn [fst snd] in P.
    apply execute_inl in H. destruct H as (_ & -> & H). inv H.
    right. split; [reflexivity|]. exists 0%nat, drawn.
    split; [exact P|]. split; [unfold statements, lookups; lia|].
    symmetry. apply refused_in_lookups. unfold lookups. lia. }
  pose proof (execute_inr_at _ _ _ _ R1) as P1. cbn [fst snd] in P1.
  apply execute_inr in R1. cbn [fst snd] in R1. destruct R1 as (_ & -> & R1).
  inv R1.
  apply bind_inl in H. destruct H as [H | (u1 & [db2 fs2] & R2 & H)].
  { unfold orNotFound in H.
    destruct (fst (selectDonors _ _ db)) eqn:E; inv H. auto 10. }
  assert (NE : fst (selectDonors (CreateDonationInput.donorId input)
                      (CreateDonationInput.tenantId input) db) <> []).
  { unfold orNotFound in R2. intros E. rewrite E in R2. discriminate R2. }
  assert (Q : (db2, fs2) = (db, tl faults))
    by (apply orNotFound_inr in R2; exact R2).
  inv Q.
  apply bind_inl in H. destruct H as [H | (u2 & [db3 fs3] & R3 & H)].
  { pose proof H as H0.
    apply guarded_inl in H; [|intro; apply selectCampaigns_readOnly].
    cbn [fst snd] in H. destruct H as (-> & [->|(-> & k & Hk)]).
    - apply guarded_inl_at in H0. cbn [fst snd] in H0.
      destruct H0 as (T & drawn & P).
      right. split; [reflexivity|]. exists 1%nat, drawn. split.
      + rewrite P1, P. reflexivity.
      + split; [unfold statements, lookups; rewrite T; lia|].
        symmetry. apply refused_in_lookups. unfold lookups. rewrite T. lia.
    - left. split; [reflexivity|]. right. eauto 10. }
  pose proof (guarded_inr_at _ _ _ _ _ _ R3) as P3. cbn [fst snd] in P3.
  apply guarded_inr in R3; [|intro; apply selectCampaigns_readOnly].
  cbn [fst snd] in R3. destruct R3 as (-> & _ & _).
  assert (PL : firstRefusal faults
               = later (lookups (Create input)) (firstRefusal fs3)).
  { rewrite P1, P3, later_later. unfold lookups.
    destruct (truthy _); reflexivity. }
  apply bind_inl in H. destruct H as [H | (result & [db4 fs4] & R4 & H)].
  { apply executeInsert_inl in H. cbn [fst snd] in H.
    destruct H as (-> & drawn & P & ->).
    right. split; [reflexivity|]. exists (lookups (Create input)), drawn.
    split; [rewrite PL, P; simpl; rewrite Nat.add_0_r; reflexivity|].
    split; [unfold statements, writes; cbn [List.length]; lia|].
    rewrite Nat.sub_diag, afterWrites_0. unfold leftByRefused.
    rewrite Nat.eqb_refl, andb_true_r. reflexivity. }
  pose proof (executeInsert_inr_at _ _ _ _ _ R4) as P4. cbn [fst snd] in P4.
  apply executeInsert_inr in R4. cbn [fst snd] in R4.
  destruct R4 as (_ & -> & R4). inv R4.
  apply bind_inl in H. destruct H as [H | (u3 & [db5 fs5] & R5 & H)].
  { destruct (settle_inl_at _ _ _ _ _ _ _ H) as (drawn & P).
    cbn [fst snd] in P.
    apply settle_inl in H. cbn [fst snd] in H. destruct H as (-> & -> & S).
    right. split; [reflexivity|].
    exists (lookups (Create input) + 1)%nat, drawn.
    split; [rewrite PL, P4, P, later_later; simpl; rewrite Nat.add_0_r;
            reflexivity|].
    split.
    - unfold statements, writes. cbn [List.length].
      rewrite settleWrites_length, S. lia.
    - rewrite refused_after_first_write. reflexivity. }
  apply first_inl in H. destruct H as (_ & H). discriminate H.
Qed.

Lemma createDonation_inl_db now input faults db e db' :
  run (createDonation now input) faults db = (inl e, db') ->
  db' = db \/ db' = drawDonationId db
  \/ db' = snd (insertDonation now input db).
Proof.
  intros H. apply createDonation_inl in H.
  destruct H as [(-> & _)|(_ & p & drawn & _ & L & ->)]; [auto|].
  unfold statements, writes in L. cbn [List.length] in L.
  rewrite settleWrites_length in L.
  assert (C : (p < lookups (Create input))%nat
              \/ p = lookups (Create input)
              \/ p = (lookups (Create input) + 1)%nat)
    by (destruct (settles _ _); lia).
  destruct C as [C|[->| ->]].
  - left. apply refused_in_lookups. exact C.
  - rewrite Nat.sub_diag, afterWrites_0. unfold leftByRefused.
    destruct (drawn && _); auto.
  - right. right. rewrite refused_after_first_write. reflexivity.
Qed.

(** The [update ... where id = input.id] of [updateDonation] reaches the
    row that its [select ... where id = input.id and tenant_id = t] found. *)
Lemma updateDonationRows_hit now input t db :
  fst (selectDonations (UpdateDonationInput.id input) t db) <> [] ->
  fst (updateDonationRows now input db) <> [].
Proof.
  unfold selectDonations, updateDonationRows. cbn [fst].
  induction (donationsTable db) as [|d ds IH]; simpl; [congruence|].
  destruct (Donation.id d =? UpdateDonationInput.id input) eqn:E; simpl.
  - intros _. rewrite E. discriminate.
  - rewrite E. exact IH.
Qed.

Lemma updateDonation_inr now input t faults db d db' :
  run (updateDonation now input t) faults db = (inr d, db') ->
  exists current rest,
    fst (selectDonations (UpdateDonationInput.id input) t db) = current :: rest
    /\ (forall i, UpdateDonationInput.donorId input = Some i -> i <> 0 ->
          fst (selectDonors i t db) <> [])
    /\ (forall k, UpdateDonationInput.campaignId input = Some (Some k) ->
          k <> 0 -> fst (selectCampaigns k t db) <> [])
    /\ (exists rest', fst (updateDonationRows now input db) = d :: rest')
    /\ db' = updateDonationWrites now input current db.
Proof.
  intros H. apply run_inv in H. destruct H as (fs' & H).
  unfold updateDonation in H.
  apply bind_inr in H. destruct H as (cur & [db1 fs1] & R1 & H).
  apply execute_inr in R1. cbn [fst snd] in R1. destruct R1 as (_ & -> & R1).
  inv R1.
  destruct (fst (selectDonations _ t db)) as [|current rest] eqn:Sel;
    [discriminate H|].
  exists current, rest. split; [reflexivity|].
  apply bind_inr in H. destruct H as (u1 & [db2 fs2] & R2 & H).
  apply guarded_inr in R2; [|intro; apply selectDonors_readOnly].
  cbn [fst snd] in R2. destruct R2 as (-> & ND & _).
  apply bind_inr in H. destruct H as (u2 & [db3 fs3] & R3 & H).
  assert (G : db3 = db
              /\ forall k, UpdateDonationInput.campaignId input = Some (Some k)
                   -> k <> 0 -> fst (selectCampaigns k t db) <> []).
  { destruct (UpdateDonationInput.campaignId input) as [c|].
    - apply guarded_inr in R3; [|intro; apply selectCampaigns_readOnly].
      cbn [fst snd] in R3. destruct R3 as (-> & NC & _).
      split; [reflexivity|]. intros k [= ->]. auto.
    - inv R3. split; [reflexivity | discriminate]. }
  destruct G as (-> & NC). clear R3.
  apply bind_inr in H. destruct H as (result & [db4 fs4] & R4 & H).
  apply execute_inr in R4. cbn [fst snd] in R4. destruct R4 as (_ & -> & R4).
  inv R4.
  apply bind_inr in H. destruct H as (u3 & [db5 fs5] & R5 & H).
  apply settle_inr in R5. cbn [fst snd] in R5. destruct R5 as (-> & _).
  apply bind_inr in H. destruct H as (u4 & [db6 fs6] & R6 & H).
  apply settle_inr in R6. cbn [fst snd] in R6. destruct R6 as (-> & _).
  apply first_inr in H. destruct H as (H & rest' & Hd). inv H.
  repeat split; eauto.
Qed.

Lemma updateDonation_inl now input t faults db e db' :
  run (updateDonation now input t) faults db = (inl e, db') ->
  db' = db
  /\ (e = StorageError
      \/ e = NotFound DonationE
         /\ fst (selectDonations (UpdateDonationInput.id input) t db) = []
      \/ e = NotFound DonorE
         /\ (exists i, UpdateDonationInput.donorId input = Some i /\ i <> 0
               /\ fst (selectDonors i t db) = [])
      \/ e = NotFound CampaignE
         /\ (exists k, UpdateDonationInput.campaignId input = Some (Some k)
               /\ k <> 0 /\ fst (selectCampaigns k t db) = []))
  \/ exists current rest,
       fst (selectDonations (UpdateDonationInput.id input) t db)
       = current :: rest
       /\ e = StorageError
       /\ let db1 := snd (updateDonationRows now input db) in
          let db2 := settle now (Donation.campaignId current)
                       (Donation.status current) (- Donation.amount current)
                       db1 in
          (db' = db1
           /\ settles (Donation.campaignId current) (Donation.status current)
              = true)
          \/ (db' = db2
              /\ settles
                   (orElse (UpdateDonationInput.campaignId input)
                           (Donation.campaignId current))
                   (orElse (UpdateDonationInput.status input)
                           (Donation.status current)) = true).
Proof.
  intros H. apply run_inv in H. destruct H as (fs' & H).
  unfold updateDonation in H.
  apply bind_inl in H. destruct H as [H | (cur & [db1 fs1] & R1 & H)].
  { apply execute_inl in H. destruct H as (_ & -> & H). inv H. auto. }
  apply execute_inr in R1. cbn [fst snd] in R1. destruct R1 as (_ & -> & R1).
  inv R1.
  destruct (fst (selectDonations _ t db)) as [|current rest] eqn:Sel.
  { inv H. auto 10. }
  apply bind_inl in H. destruct H as [H | (u1 & [db2 fs2] & R2 & H)].
  { apply guarded_inl in H; [|intro; apply selectDonors_readOnly].
    cbn [fst snd] in H. destruct H as (-> & [->|(-> & k & Hk)]); auto.
    left. split; [reflexivity|]. right. right. left. eauto 10. }
  apply guarded_inr in R2; [|intro; apply selectDonors_readOnly].
  cbn [fst snd] in R2. destruct R2 as (-> & _ & _).
  apply bind_inl in H. destruct H as [H | (u2 & [db3 fs3] & R3 & H)].
  { destruct (UpdateDonationInput.campaignId input) as [c|]; [|inv H].
    apply guarded_inl in H; [|intro; apply selectCampaigns_readOnly].
    cbn [fst snd] in H. destruct H as (-> & [->|(-> & k & -> & Hk)]); auto.
    left. split; [reflexivity|]. right. right. right. eauto 10. }
  assert (db3 = db).
  { destruct (UpdateDonationInput.campaignId input) as [c|].
    - apply guarded_inr in R3; [|intro; apply selectCampaigns_readOnly].
      cbn [fst snd] in R3. destruct R3 as (-> & _). reflexivity.
    - inv R3. reflexivity. }
  subst db3. clear R3.
  apply bind_inl in H. destruct H as [H | (result & [db4 fs4] & R4 & H)].
  { apply execute_inl in H. destruct H as (_ & -> & H). inv H. auto. }
  apply execute_inr in R4. cbn [fst snd] in R4. destruct R4 as (_ & -> & R4).
  inv R4.
  right. exists current, rest. split; [reflexivity|].
  apply bind_inl in H. destruct H as [H | (u3 & [db5 fs5] & R5 & H)].
  { apply settle_inl in H. cbn [fst snd] in H. destruct H as (-> & -> & S).
    cbv zeta. auto. }
  apply settle_inr in R5. cbn [fst snd] in R5. destruct R5 as (-> & _).
  apply bind_inl in H. destruct H as [H | (u4 & [db6 fs6] & R6 & H)].
  { apply settle_inl in H. cbn [fst snd] in H. destruct H as (-> & -> & S).
    cbv zeta. auto. }
  apply first_inl in H. destruct H as (_ & H).
  exfalso. refine (updateDonationRows_hit now input t db _ H).
  rewrite Sel. discriminate.
Qed.

Lemma selectDonations_id i t db d :
  In d (fst (selectDonations i t db)) ->
  In d (donationsTable db) /\ Donation.id d = i /\ Donation.tenantId d = t.
Proof.
  unfold selectDonations. cbn [fst]. rewrite filter_In.
  intros (I & H). apply andb_prop in H. destruct H as (H1 & H2).
  apply Z.eqb_eq in H1. apply String.eqb_eq in H2. auto.
Qed.

Lemma deleteDonation_inr now i t faults db u db' :
  run (deleteDonation now i t) faults db = (inr u, db') ->
  exists donation rest,
    fst (selectDonations i t db) = donation :: rest
    /\ db' = deleteDonationWrites now donation db.
Proof.
  intros H. apply run_inv in H. destruct H as (fs' & H).
  unfold deleteDonation in H.
  apply bind_inr in H. destruct H as (cur & [db1 fs1] & R1 & H).
  apply execute_inr in R1. cbn [fst snd] in R1. destruct R1 as (_ & -> & R1).
  inv R1.
  destruct (fst (selectDonations i t db)) as [|donation rest] eqn:Sel;
    [discriminate H|].
  exists donation, rest. split; [reflexivity|].
  apply bind_inr in H. destruct H as (u1 & [db2 fs2] & R2 & H).
  apply execute_inr in R2. cbn [fst snd] in R2. destruct R2 as (_ & -> & R2).
  inv R2.
  apply settle_inr in H. cbn [fst snd] in H. destruct H as (-> & _).
  unfold deleteDonationWrites.
  assert (Hi : Donation.id donation = i).
  { apply (selectDonations_id i t db). rewrite Sel. left. reflexivity. }
  rewrite Hi. reflexivity.
Qed.

Lemma deleteDonation_inl now i t faults db e db' :
  run (deleteDonation now i t) faults db = (inl e, db') ->
  db' = db
  /\ (e = StorageError
      \/ e = NotFound DonationE /\ fst (selectDonations i t db) = [])
  \/ exists donation rest,
       fst (selectDonations i t db) = donation :: rest
       /\ e = StorageError
       /\ db' = snd (deleteDonationRows i db)
       /\ settles (Donation.campaignId donation) (Donation.status donation)
          = true.
Proof.
  intros H. apply run_inv in H. destruct H as (fs' & H).
  unfold deleteDonation in H.
  apply bind_inl in H. destruct H as [H | (cur & [db1 fs1] & R1 & H)].
  { apply execute_inl in H. destruct H as (_ & -> & H). inv H. auto. }
  apply execute_inr in R1. cbn [fst snd] in R1. destruct R1 as (_ & -> & R1).
  inv R1.
  destruct (fst (selectDonations i t db)) as [|donation rest] eqn:Sel.
  { inv H. auto. }
  apply bind_inl in H. destruct H as [H | (u1 & [db2 fs2] & R2 & H)].
  { apply execute_inl in H. destruct H as (_ & -> & H). inv H. auto. }
  apply execute_inr in R2. cbn [fst snd] in R2. destruct R2 as (_ & -> & R2).
  inv R2.
  apply settle_inl in H. cbn [fst snd] in H. destruct H as (-> & -> & S).
  right. exists donation, rest. auto.
Qed.

(** *** Where a refusal finds the update and the delete *)

Lemma updateDonation_lookups_at input t (c1 c2 c3 : Conn) u2 u3 :
  whenTruthy (UpdateDonationInput.donorId input) (fun i =>
    donor <- execute (selectDonors i t) ;; orNotFound DonorE donor) c1
  = (inr u2, c2) ->
  match UpdateDonationInput.campaignId input with
  | Some c =>
      whenTruthy c (fun k =>
        campaign <- execute (selectCampaigns k t) ;;
        orNotFound CampaignE campaign)
  | None => ret tt
  end c2 = (inr u3, c3) ->
  later 1 (firstRefusal (snd c1))
  = later (lookups (Update input t)) (firstRefusal (snd c3))
  /\ fst c3 = fst c1.
Proof.
  intros R2 R3.
  pose proof (guarded_inr_at _ _ _ _ _ _ R2) as P2.
  apply guarded_inr in R2; [|intro; apply selectDonors_readOnly].
  destruct R2 as (D2 & _ & _).
  assert (G : firstRefusal (snd c2)
              = later match UpdateDonationInput.campaignId input with
                      | Some c => if truthy c then 1 else 0
                      | None => 0
                      end (firstRefusal (snd c3))
              /\ fst c3 = fst c2).
  { destruct (UpdateDonationInput.campaignId input) as [c|].
    - pose proof (guarded_inr_at _ _ _ _ _ _ R3) as P3.
      apply guarded_inr in R3; [|intro; apply selectCampaigns_readOnly].
      destruct R3 as (D3 & _ & _). auto.
    - inv R3. split; [symmetry; apply later_0 | reflexivity]. }
  destruct G as (P3 & D3).
  split; [|congruence].
  rewrite P2, P3, !later_later. reflexivity.
Qed.

Lemma updateDonation_inr_at now input t faults db d db' :
  run (updateDonation now input t) faults db = (inr d, db') ->
  exists rest,
    firstRefusal faults = later (statements now (Update input t) db) rest.
Proof.
  intros H. apply run_inv in H. destruct H as (fs' & H).
  unfold updateDonation in H.
  apply bind_inr in H. destruct H as (cur & [db1 fs1] & R1 & H).
  pose proof (execute_inr_at _ _ _ _ R1) as P1. cbn [fst snd] in P1.
  apply execute_inr in R1. cbn [fst snd] in R1. destruct R1 as (_ & -> & R1).
  inv R1.
  destruct (fst (selectDonations _ t db)) as [|current rest] eqn:Sel;
    [discriminate H|].
  apply bind_inr in H. destruct H as (u2 & c2 & R2 & H).
  apply bind_inr in H. destruct H as (u3 & [db3 fs3] & R3 & H).
  destruct (updateDonation_lookups_at input t _ _ _ _ _ R2 R3) as (PL & _).
  cbn [fst snd] in PL. rewrite PL in P1. clear R2 R3 PL.
  apply bind_inr in H. destruct H as (result & [db4 fs4] & R4 & H).
  apply execute_inr_at in R4.
  apply bind_inr in H. destruct H as (u5 & [db5 fs5] & R5 & H).
  apply settle_inr_at in R5.
  apply bind_inr in H. destruct H as (u6 & [db6 fs6] & R6 & H).
  apply settle_inr_at in R6. cbn [fst snd] in *.
  exists (firstRefusal fs6).
  rewrite P1, R4, R5, R6, !later_later. f_equal.
  unfold statements, writes. rewrite Sel. cbn [List.length].
  rewrite length_app, !settleWrites_length. lia.
Qed.

Lemma afterWrites_update_1 now input t db current rest :
  fst (selectDonations (UpdateDonationInput.id input) t db) = current :: rest ->
  afterWrites 1 now (Update input t) db = snd (updateDonationRows now input db).
Proof. intros Sel. unfold afterWrites, writes. rewrite Sel. reflexivity. Qed.

Lemma afterWrites_update_2 now input t db current rest :
  fst (selectDonations (UpdateDonationInput.id input) t db) = current :: rest ->
  afterWrites
    (1 + (if settles (Donation.campaignId current) (Donation.status current)
          then 1 else 0)) now (Update input t) db
  = settle now (Donation.campaignId current) (Donation.status current)
      (- Donation.amount current) (snd (updateDonationRows now input db)).
Proof.
  intros Sel. unfold afterWrites, writes, settle, settleWrites. rewrite Sel.
  destruct (settles (Donation.campaignId current) (Donation.status current));
    reflexivity.
Qed.

Lemma updateDonation_refused now input t faults db db' :
  run (updateDonation now input t) faults db = (inl StorageError, db') ->
  exists p drawn,
    firstRefusal faults = Some (p, drawn)
    /\ (p < statements now (Update input t) db)%nat
    /\ db' = afterWrites (p - lookups (Update input t)) now (Update input t) db.
Proof.
  intros H. apply run_inv in H. destruct H as (fs' & H).
  unfold updateDonation in H.
  assert (L1 : (1 <= lookups (Update input t))%nat) by (unfold lookups; lia).
  apply bind_inl in H. destruct H as [H | (cur & [db1 fs1] & R1 & H)].
  { destruct (execute_inl_at _ _ _ _ H) as (drawn & P). cbn [fst snd] in P.
    apply execute_inl in H. destruct H as (_ & _ & H). inv H.
    exists 0%nat, drawn. split; [exact P|].
    split; [unfold statements; lia|].
    replace (0 - lookups (Update input t))%nat with 0%nat by lia.
    reflexivity. }
  pose proof (execute_inr_at _ _ _ _ R1) as P1. cbn [fst snd] in P1.
  apply execute_inr in R1. cbn [fst snd] in R1. destruct R1 as (_ & -> & R1).
  inv R1.
  destruct (fst (selectDonations _ t db)) as [|current rest] eqn:Sel;
    [discriminate H|].
  apply bind_inl in H. destruct H as [H | (u2 & [db2 fs2] & R2 & H)].
  { pose proof H as H0.
    apply guarded_inl in H; [|intro; apply selectDonors_readOnly].
    cbn [fst snd] in H. destruct H as (-> & _).
    apply guarded_inl_at in H0. cbn [fst snd] in H0.
    destruct H0 as (T & drawn & P).
    exists 1%nat, drawn. split; [rewrite P1, P; reflexivity|].
    assert (1 < lookups (Update input t))%nat
      by (unfold lookups; rewrite T; lia).
    split; [unfold statements; lia|].
    replace (1 - lookups (Update input t))%nat with 0%nat by lia.
    reflexivity. }
  pose proof (guarded_inr_at _ _ _ _ _ _ R2) as P2. cbn [fst snd] in P2.
  apply bind_inl in H. destruct H as [H | (u3 & [db3 fs3] & R3 & H)].
  { apply guarded_inr in R2; [|intro; apply selectDonors_readOnly].
    cbn [fst snd] in R2. destruct R2 as (-> & _ & _).
    destruct (UpdateDonationInput.campaignId input) as [c|] eqn:C;
      [|inv H].
    pose proof H as H0.
    apply guarded_inl in H; [|intro; apply selectCampaigns_readOnly].
    cbn [fst snd] in H. destruct H as (-> & _).
    apply guarded_inl_at in H0. cbn [fst snd] in H0.
    destruct H0 as (T & drawn & P).
    exists (1 + (if truthy (UpdateDonationInput.donorId input)
                 then 1 else 0))%nat, drawn.
    split; [rewrite P1, P2, P, later_later; simpl; rewrite Nat.add_0_r;
            reflexivity|].
    assert (1 + (if truthy (UpdateDonationInput.donorId input)
                 then 1 else 0) < lookups (Update input t))%nat
      by (unfold lookups; rewrite C, T; lia).
    split; [unfold statements; lia|].
    match goal with |- _ = afterWrites ?n _ _ _ =>
      replace n with 0%nat by lia end.
    reflexivity. }
  destruct (updateDonation_lookups_at input t _ _ _ _ _ R2 R3) as (PL & D3).
  cbn [fst snd] in PL, D3. subst db3. rewrite PL in P1. clear R2 R3 PL P2.
  assert (W : (List.length (writes now (Update input t) db)
               = 1 + (if settles (Donation.campaignId current)
                                 (Donation.status current) then 1 else 0)
                   + (if settles
                           (orElse (UpdateDonationInput.campaignId input)
                                   (Donation.campaignId current))
                           (orElse (UpdateDonationInput.status input)
                                   (Donation.status current))
                      then 1 else 0))%nat).
  { unfold writes. rewrite Sel. cbn [List.length].
    rewrite length_app, !settleWrites_length. lia. }
  apply bind_inl in H. destruct H as [H | (result & [db4 fs4] & R4 & H)].
  { destruct (execute_inl_at _ _ _ _ H) as (drawn & P). cbn [fst snd] in P.
    apply execute_inl in H. destruct H as (_ & _ & H). inv H.
    exists (lookups (Update input t)), drawn.
    split; [rewrite P1, P; simpl; rewrite Nat.add_0_r; reflexivity|].
    split; [unfold statements; lia|].
    rewrite Nat.sub_diag. reflexivity. }
  pose proof (execute_inr_at _ _ _ _ R4) as P4. cbn [fst snd] in P4.
  apply execute_inr in R4. cbn [fst snd] in R4. destruct R4 as (_ & -> & R4).
  inv R4.
  apply bind_inl in H. destruct H as [H | (u5 & [db5 fs5] & R5 & H)].
  { destruct (settle_inl_at _ _ _ _ _ _ _ H) as (drawn & P).
    cbn [fst snd] in P.
    apply settle_inl in H. cbn [fst snd] in H. destruct H as (_ & -> & S).
    exists (lookups (Update input t) + 1)%nat, drawn.
    split; [rewrite P1, P4, P, later_later; simpl; rewrite Nat.add_0_r;
            reflexivity|].
    split; [unfold statements; rewrite W, S; lia|].
    replace (lookups (Update input t) + 1 - lookups (Update input t))%nat
      with 1%nat by lia.
    symmetry. eapply afterWrites_update_1. exact Sel. }
  pose proof (settle_inr_at _ _ _ _ _ _ _ R5) as P5. cbn [fst snd] in P5.
  apply settle_inr in R5. cbn [fst snd] in R5. destruct R5 as (-> & _).
  apply bind_inl in H. destruct H as [H | (u6 & [db6 fs6] & R6 & H)].
  { destruct (settle_inl_at _ _ _ _ _ _ _ H) as (drawn & P).
    cbn [fst snd] in P.
    apply settle_inl in H. cbn [fst snd] in H. destruct H as (_ & -> & S).
    exists (lookups (Update input t)
            + (1 + (if settles (Donation.campaignId current)
                               (Donation.status current)
                    then 1 else 0)))%nat, drawn.
    split; [rewrite P1, P4, P5, P, !later_later; simpl;
            rewrite Nat.add_0_r; f_equal; f_equal; lia|].
    split; [unfold statements; rewrite W, S; lia|].
    match goal with |- _ = afterWrites ?n _ _ _ =>
      replace n
        with (1 + (if settles (Donation.campaignId current)
                              (Donation.status current)
                   then 1 else 0))%nat by lia end.
    symmetry. eapply afterWrites_update_2. exact Sel. }
  apply first_inl in H. destruct H as (_ & H).
  exfalso. refine (updateDonationRows_hit now input t db _ H).
  rewrite Sel. discriminate.
Qed.

Lemma deleteDonation_inr_at now i t faults db u db' :
  run (deleteDonation now i t) faults db = (inr u, db') ->
  exists rest,
    firstRefusal faults = later (statements now (Delete i t) db) rest.
Proof.
  intros H. apply run_inv in H. destruct H as (fs' & H).
  unfold deleteDonation in H.
  apply bind_inr in H. destruct H as (cur & [db1 fs1] & R1 & H).
  pose proof (execute_inr_at _ _ _ _ R1) as P1. cbn [fst snd] in P1.
  apply execute_inr in R1. cbn [fst snd] in R1. destruct R1 as (_ & -> & R1).
  inv R1.
  destruct (fst (selectDonations i t db)) as [|donation rest] eqn:Sel;
    [discriminate H|].
  apply bind_inr in H. destruct H as (u1 & [db2 fs2] & R2 & H).
  apply execute_inr_at in R2. apply settle_inr_at in H. cbn [fst snd] in *.
  exists (firstRefusal fs').
  rewrite P1, R2, H, !later_later. f_equal.
  unfold statements, lookups, writes. rewrite Sel. cbn [List.length].
  rewrite settleWrites_length. lia.
Qed.

Lemma deleteDonation_refused now i t faults db db' :
  run (deleteDonation now i t) faults db = (inl StorageError, db') ->
  exists p drawn,
    firstRefusal faults = Some (p, drawn)
    /\ (p < statements now (Delete i t) db)%nat
    /\ db' = afterWrites (p - lookups (Delete i t)) now (Delete i t) db.
Proof.
  intros H. apply run_inv in H. destruct H as (fs' & H).
  unfold deleteDonation in H.
  apply bind_inl in H. destruct H as [H | (cur & [db1 fs1] & R1 & H)].
  { destruct (execute_inl_at _ _ _ _ H) as (drawn & P). cbn [fst snd] in P.
    apply execute_inl in H. destruct H as (_ & _ & H). inv H.
    exists 0%nat, drawn. split; [exact P|].
    split; [unfold statements, lookups; lia | reflexivity]. }
  pose proof (execute_inr_at _ _ _ _ R1) as P1. cbn [fst snd] in P1.
  apply execute_inr in R1. cbn [fst snd] in R1. destruct R1 as (_ & -> & R1).
  inv R1.
  destruct (fst (selectDonations i t db)) as [|donation rest] eqn:Sel;
    [discriminate H|].
  apply bind_inl in H. destruct H as [H | (u1 & [db2 fs2] & R2 & H)].
  { destruct (execute_inl_at _ _ _ _ H) as (drawn & P). cbn [fst snd] in P.
    apply execute_inl in H. destruct H as (_ & _ & H). inv H.
    exists 1%nat, drawn. split; [rewrite P1, P; reflexivity|].
    split; [|reflexivity].
    unfold statements, lookups, writes. rewrite Sel. cbn [List.length]. lia. }
  pose proof (execute_inr_at _ _ _ _ R2) as P2. cbn [fst snd] in P2.
  apply execute_inr in R2. cbn [fst snd] in R2. destruct R2 as (_ & -> & R2).
  inv R2.
  destruct (settle_inl_at _ _ _ _ _ _ _ H) as (drawn & P).
  cbn [fst snd] in P.
  apply settle_inl in H. cbn [fst snd] in H. destruct H as (_ & -> & S).
  exists 2%nat, drawn. split; [rewrite P1, P2, P; reflexivity|].
  split.
  - unfold statements, lookups, writes. rewrite Sel. cbn [List.length].
    rewrite settleWrites_length, S. lia.
  - unfold afterWrites, writes, lookups. rewrite Sel. reflexivity.
Qed.

Lemma deleteDonation_faultFree now i t faults db donation rest :
  faultFree faults ->
  fst (selectDonations i t db) = donation :: rest ->
  run (deleteDonation now i t) faults db
  = (inr tt, deleteDonationWrites now donation db).
Proof.
  intros F Sel.
  assert (Hi : Donation.id donation = i).
  { apply (selectDonations_id i t db). rewrite Sel. left. reflexivity. }
  destruct (settle_faultFree now (Donation.campaignId donation)
              (Donation.status donation) (- Donation.amount donation)
              (snd (deleteDonationRows i db)) (tl (tl faults)))
    as (fs3 & S & F3); [auto using faultFree_tl|].
  eapply run_intro. unfold deleteDonation.
  unfold bind at 1. rewrite execute_faultFree by assumption.
  rewrite selectDonations_readOnly, Sel.
  unfold bind at 1. rewrite execute_faultFree by auto using faultFree_tl.
  rewrite S. unfold deleteDonationWrites. rewrite Hi. reflexivity.
Qed.

(** With its references resolving and no statement refused, [updateDonation]
    returns. *)
Lemma updateDonation_faultFree now input t faults db current rest :
  faultFree faults ->
  fst (selectDonations (UpdateDonationInput.id input) t db) = current :: rest ->
  (forall i, UpdateDonationInput.donorId input = Some i -> i <> 0 ->
     fst (selectDonors i t db) <> []) ->
  (forall k, UpdateDonationInput.campaignId input = Some (Some k) ->
     k <> 0 -> fst (selectCampaigns k t db) <> []) ->
  exists d,
    run (updateDonation now input t) faults db
    = (inr d, updateDonationWrites now input current db).
Proof.
  intros F Sel ND NC.
  destruct (guarded_faultFree DonorE (fun i => selectDonors i t)
              (UpdateDonationInput.donorId input) db (tl faults))
    as (fs2 & G2 & F2);
    [intro; apply selectDonors_readOnly | auto using faultFree_tl | exact ND |].
  assert (G3 : exists fs3,
             match UpdateDonationInput.campaignId input with
             | Some c =>
                 whenTruthy c (fun k =>
                   campaign <- execute (selectCampaigns k t) ;;
                   orNotFound CampaignE campaign)
             | None => ret tt
             end (db, fs2) = (inr tt, (db, fs3)) /\ faultFree fs3).
  { destruct (UpdateDonationInput.campaignId input) as [c|].
    - apply guarded_faultFree; auto.
      + intro; apply selectCampaigns_readOnly.
      + intros k -> Hk. apply NC; auto.
    - exists fs2. auto. }
  destruct G3 as (fs3 & G3 & F3).
  destruct (settle_faultFree now (Donation.campaignId current)
              (Donation.status current) (- Donation.amount current)
              (snd (updateDonationRows now input db)) (tl fs3))
    as (fs4 & S4 & F4); [auto using faultFree_tl|].
  destruct (settle_faultFree now
              (orElse (UpdateDonationInput.campaignId input)
                      (Donation.campaignId current))
              (orElse (UpdateDonationInput.status input)
                      (Donation.status current))
              (orElse (UpdateDonationInput.amount input)
                      (Donation.amount current))
              (settle now (Donation.campaignId current)
                 (Donation.status current) (- Donation.amount current)
                 (snd (updateDonationRows now input db))) fs4)
    as (fs5 & S5 & F5); [assumption|].
  destruct (fst (updateDonationRows now input db)) as [|d rest'] eqn:U.
  { exfalso. refine (updateDonationRows_hit now input t db _ U).
    rewrite Sel. discriminate. }
  exists d. eapply run_intro. unfold updateDonation.
  unfold bind at 1. rewrite execute_faultFree by assumption.
  rewrite selectDonations_readOnly, Sel.
  unfold bind at 1. rewrite G2.
  unfold bind at 1. rewrite G3.
  unfold bind at 1. rewrite execute_faultFree by assumption.
  unfold bind at 1. rewrite S4.
  unfold bind at 1. rewrite S5.
  rewrite U. reflexivity.
Qed.

(** ** What the statements do to the tables *)

Lemma settle_campaigns now link s delta db :
  campaignsTable (settle now link s delta db)
  = map (settleRow now link s delta) (campaignsTable db).
Proof.
  unfold settle, settleRow. destruct (settles link s).
  - reflexivity.
  - symmetry. apply map_id.
Qed.

Lemma settle_donations now link s delta db :
  donationsTable (settle now link s delta db) = donationsTable db.
Proof. unfold settle. destruct (settles link s); reflexivity. Qed.

Lemma settle_donors now link s delta db :
  donorsTable (settle now link s delta db) = donorsTable db.
Proof. unfold settle. destruct (settles link s); reflexivity. Qed.

Lemma settle_campaigns_seq now link s delta db :
  campaigns_id_seq (settle now link s delta db) = campaigns_id_seq db.
Proof. unfold settle. destruct (settles link s); reflexivity. Qed.

Lemma settle_donations_seq now link s delta db :
  donations_id_seq (settle now link s delta db) = donations_id_seq db.
Proof. unfold settle. destruct (settles link s); reflexivity. Qed.

Lemma settle_idle now link s delta db :
  settles link s = false -> settle now link s delta db = db.
Proof. unfold settle. intros ->. reflexivity. Qed.

Lemma settleRow_id now link s delta c :
  Campaign.id (settleRow now link s delta c) = Campaign.id c.
Proof.
  unfold settleRow, bumpCampaign.
  destruct (settles link s); [|reflexivity].
  destruct (Campaign.id c =? orElse link 0); reflexivity.
Qed.

Lemma settleRow_tenantId now link s delta c :
  Campaign.tenantId (settleRow now link s delta c) = Campaign.tenantId c.
Proof.
  unfold settleRow, bumpCampaign.
  destruct (settles link s); [|reflexivity].
  destruct (Campaign.id c =? orElse link 0); reflexivity.
Qed.

(** A campaign whose id is not 0 moves by the contribution of the state
    (link, status, amount) that the step settles. *)
Lemma settleRow_raised now link s delta c :
  Campaign.id c <> 0 ->
  Campaign.currentAmountRaised (settleRow now link s delta c)
  = Campaign.currentAmountRaised c + contribution link s delta (Campaign.id c).
Proof.
  intros NZ. unfold settleRow, settles, truthy, contribution, bumpCampaign.
  destruct link as [k|]; simpl; [|lia].
  rewrite (Z.eqb_sym k (Campaign.id c)).
  destruct (k =? 0) eqn:K0; simpl.
  - apply Z.eqb_eq in K0. subst k.
    apply Z.eqb_neq in NZ. rewrite NZ. simpl. lia.
  - destruct (isReceived s); simpl.
    + destruct (Campaign.id c =? k); simpl; lia.
    + rewrite andb_false_r. lia.
Qed.

Lemma map_id_settleRow now link s delta cs :
  map Campaign.id (map (settleRow now link s delta) cs) = map Campaign.id cs.
Proof.
  rewrite map_map. apply map_ext. intro c. apply settleRow_id.
Qed.

Lemma find_map_settleRow now link s delta k cs :
  find (fun c => Campaign.id c =? k) (map (settleRow now link s delta) cs)
  = option_map (settleRow now link s delta)
      (find (fun c => Campaign.id c =? k) cs).
Proof.
  induction cs as [|c cs IH]; simpl; [reflexivity|].
  rewrite settleRow_id. destruct (Campaign.id c =? k); [reflexivity | exact IH].
Qed.

Lemma find_id {A} (key : A -> Z) k l r :
  find (fun x => key x =? k) l = Some r -> In r l /\ key r = k.
Proof.
  intros H. apply find_some in H. destruct H as (I & E).
  apply Z.eqb_eq in E. auto.
Qed.

Lemma schemaOk_noCampaignZero db : schemaOk db -> noCampaignZero db.
Proof.
  intros [_ S _ _ _] c I. specialize (S c I). lia.
Qed.

Lemma raised_settle now link s delta db k :
  noCampaignZero db ->
  raised (settle now link s delta db) k
  = option_map (fun v => v + contribution link s delta k) (raised db k).
Proof.
  intros NZ. unfold raised. rewrite settle_campaigns, find_map_settleRow.
  destruct (find _ (campaignsTable db)) as [c|] eqn:F; simpl; [|reflexivity].
  apply find_id in F. destruct F as (I & <-).
  rewrite settleRow_raised by auto. reflexivity.
Qed.

Lemma settle_noCampaignZero now link s delta db :
  noCampaignZero db -> noCampaignZero (settle now link s delta db).
Proof.
  intros NZ c. rewrite settle_campaigns, in_map_iff.
  intros (c0 & <- & I). rewrite settleRow_id. auto.
Qed.

(** ** Resolving references inside a tenant *)

Lemma filter_nonempty {A} (f : A -> bool) l :
  filter f l <> [] <-> exists x, In x l /\ f x = true.
Proof.
  split.
  - destruct (filter f l) as [|x rest] eqn:E; [congruence|].
    intros _. exists x. apply filter_In. rewrite E. left. reflexivity.
  - intros (x & I) E. apply filter_In in I. rewrite E in I. destruct I.
Qed.

Lemma key_match (a i : Z) (s t : string) :
  (a =? i) && String.eqb s t = true <-> a = i /\ s = t.
Proof.
  rewrite andb_true_iff, Z.eqb_eq, String.eqb_eq. reflexivity.
Qed.

Lemma selectDonors_hasDonor db i t :
  fst (selectDonors i t db) <> [] <-> hasDonor db i t.
Proof.
  unfold selectDonors, hasDonor. cbn [fst]. rewrite filter_nonempty.
  split; intros (r & I & H); exists r; (split; [exact I|]);
    apply key_match; exact H.
Qed.

Lemma selectCampaigns_hasCampaign db i t :
  fst (selectCampaigns i t db) <> [] <-> hasCampaign db i t.
Proof.
  unfold selectCampaigns, hasCampaign. cbn [fst]. rewrite filter_nonempty.
  split; intros (r & I & H); exists r; (split; [exact I|]);
    apply key_match; exact H.
Qed.

Lemma selectDonations_hasDonation db i t :
  fst (selectDonations i t db) <> [] <-> hasDonation db i t.
Proof.
  unfold selectDonations, hasDonation. cbn [fst]. rewrite filter_nonempty.
  split; intros (r & I & H); exists r; (split; [exact I|]);
    apply key_match; exact H.
Qed.

Lemma testDb_schemaOk : schemaOk testDb.
Proof.
  split; simpl.
  - repeat constructor. intros [].
  - intros c [<-|[]]. simpl. lia.
  - constructor.
  - intros d [].
  - lia.
Qed.

Lemma find_fresh {A} (key : A -> Z) (bound : Z) (l : list A) :
  (forall x, In x l -> key x < bound) ->
  find (fun x => key x =? bound) l = None.
Proof.
  intros B. destruct (find _ l) as [r|] eqn:F; [|reflexivity].
  apply find_id in F. destruct F as (I & E). specialize (B r I). lia.
Qed.

(** ** createDonation *)

(** C2.  When the donor and, if a campaign is named, the campaign resolve
    inside the input's tenant (and the store refuses no statement),
    [createDonation] returns and stores exactly one new row carrying the
    input's fields; a campaign named by a [Received] donation gains exactly
    the input's amount, and with no campaign or another status the campaigns
    table is left as it was. *)
Theorem createDonation_persists_and_reconciles
    now input faults db :
  schemaOk db ->
  faultFree faults ->
  hasDonor db (CreateDonationInput.donorId input)
           (CreateDonationInput.tenantId input) ->
  (forall k, CreateDonationInput.campaignId input = Some k ->
     hasCampaign db k (CreateDonationInput.tenantId input)) ->
  exists db',
    run (createDonation now input) faults db
    = (inr (newDonation now input db), db')
    /\ donationsTable db' = donationsTable db ++ [newDonation now input db]
    /\ donationById db (Donation.id (newDonation now input db)) = None
    /\ donorsTable db' = donorsTable db
    /\ (forall k, raised db' k
          = option_map
              (fun v => v + contribution (CreateDonationInput.campaignId input)
                              (CreateDonationInput.status input)
                              (CreateDonationInput.amount input) k)
              (raised db k))
    /\ (forall k, CreateDonationInput.campaignId input = Some k ->
          CreateDonationInput.status input = Received ->
          raised db' k
          = option_map (fun v => v + CreateDonationInput.amount input)
                       (raised db k))
    /\ (CreateDonationInput.campaignId input = None
        \/ CreateDonationInput.status input <> Received ->
        campaignsTable db' = campaignsTable db).
Proof.
  intros OK F HD HC. set (d := newDonation now input db).
  destruct (createDonation_faultFree now input faults db F) as (d0 & I & R).
  { apply selectDonors_hasDonor. exact HD. }
  { intros k Hk _. apply selectCampaigns_hasCampaign. auto. }
  assert (d0 = d).
  { unfold insertDonation in I. cbn [fst] in I. injection I as <-.
    reflexivity. }
  subst d0. eexists. split; [exact R|].
  assert (NZ : noCampaignZero (snd (insertDonation now input db))).
  { exact (schemaOk_noCampaignZero db OK). }
  assert (RS : forall k, raised (snd (insertDonation now input db)) k
                         = raised db k) by reflexivity.
  split; [rewrite settle_donations; reflexivity|].
  split.
  { apply find_fresh. intros x Ix.
    apply (donation_ids_serial db OK) in Ix. simpl. lia. }
  split; [rewrite settle_donors; reflexivity|].
  split; [intro k; rewrite raised_settle, RS by exact NZ; reflexivity|].
  split.
  - intros k Hk Hs. rewrite raised_settle, RS by exact NZ.
    unfold contribution. rewrite Hk, Hs, Z.eqb_refl. reflexivity.
  - intros H. rewrite settle_idle; [reflexivity|].
    unfold settles. destruct H as [->|H]; [reflexivity|].
    destruct (CreateDonationInput.status input);
      try congruence; apply andb_false_r.
Qed.

Lemma createDonation_persists_and_reconciles_witness :
  schemaOk testDb
  /\ faultFree []
  /\ hasDonor testDb 1 testTenantId
  /\ (forall k, Some 1 = Some k -> hasCampaign testDb k testTenantId)
  /\ exists db',
       run (createDonation 5 testReceivedInput) [] testDb
       = (inr (newDonation 5 testReceivedInput testDb), db')
       /\ raised db' 1 = Some 10050.
Proof.
  assert (HD : hasDonor testDb 1 testTenantId).
  { eexists. split; [left; reflexivity|]. split; reflexivity. }
  assert (HC : forall k, Some 1 = Some k -> hasCampaign testDb k testTenantId).
  { intros k [= <-]. eexists. split; [left; reflexivity|].
    split; reflexivity. }
  split; [exact testDb_schemaOk|].
  split; [constructor|].
  split; [exact HD|].
  split; [exact HC|].
  destruct (createDonation_persists_and_reconciles 5 testReceivedInput []
              testDb testDb_schemaOk (Forall_nil _) HD HC)
    as (db' & R & _ & _ & _ & _ & G & _).
  exists db'. split; [exact R|].
  rewrite (G 1 eq_refl eq_refl). reflexivity.
Defined.

(** ** Rows found through a primary key *)

Lemma nodup_key_eq {A} (key : A -> Z) l x y :
  NoDup (map key l) -> In x l -> In y l -> key x = key y -> x = y.
Proof.
  induction l as [|a l IH]; simpl; intros ND Ix Iy E; [destruct Ix|].
  inversion ND as [|? ? NI ND']; subst.
  destruct Ix as [->|Ix], Iy as [->|Iy]; auto.
  - exfalso. apply NI. rewrite E. apply in_map. exact Iy.
  - exfalso. apply NI. rewrite <- E. apply in_map. exact Ix.
Qed.

Lemma filter_unique {A} (key : A -> Z) (f : A -> bool) l d :
  NoDup (map key l) -> In d l -> f d = true ->
  (forall x, f x = true -> key x = key d) ->
  filter f l = [d].
Proof.
  induction l as [|a l IH]; simpl; intros ND I Fd K; [destruct I|].
  inversion ND as [|? ? NI ND']; subst.
  destruct I as [->|I].
  - rewrite Fd. f_equal.
    destruct (filter f l) as [|x rest] eqn:E; [reflexivity|].
    exfalso. assert (Ix : In x (filter f l)) by (rewrite E; left; reflexivity).
    apply filter_In in Ix. destruct Ix as (Ix & Fx).
    apply NI. rewrite <- (K x Fx). apply in_map. exact Ix.
  - destruct (f a) eqn:Fa.
    + exfalso. apply NI. rewrite (K a Fa). apply in_map. exact I.
    + apply IH; assumption.
Qed.

Lemma selectDonations_unique db d :
  schemaOk db -> In d (donationsTable db) ->
  fst (selectDonations (Donation.id d) (Donation.tenantId d) db) = [d].
Proof.
  intros OK I. unfold selectDonations. cbn [fst].
  apply (filter_unique Donation.id); auto using donation_ids_nodup.
  - apply key_match. auto.
  - intros x H. apply key_match in H. tauto.
Qed.

Lemma contribution_opp link s a k :
  contribution link s (- a) k = - contribution link s a k.
Proof.
  unfold contribution. destruct link as [c|]; [|reflexivity].
  destruct ((c =? k) && isReceived s); reflexivity.
Qed.

Lemma contribution_hit k s a :
  contribution (Some k) s a k = if isReceived s then a else 0.
Proof. unfold contribution. rewrite Z.eqb_refl. reflexivity. Qed.

Lemma settles_false link s :
  link = None \/ s <> Received -> settles link s = false.
Proof.
  unfold settles. intros [->|H]; [reflexivity|].
  destruct s; try congruence; apply andb_false_r.
Qed.

(** ** deleteDonation *)

(** C4.  [deleteDonation] on a stored donation of the caller's tenant (the
    store refusing no statement) returns, removes that row and no other,
    and lowers the total of the donation's campaign by exactly the
    donation's amount when the donation has a campaign and is [Received];
    with no campaign or another status (e.g. [Pledged]) the campaigns table
    is left as it was. *)
Theorem deleteDonation_removes_and_reconciles now faults db d :
  schemaOk db ->
  faultFree faults ->
  In d (donationsTable db) ->
  exists db',
    run (deleteDonation now (Donation.id d) (Donation.tenantId d)) faults db
    = (inr tt, db')
    /\ (forall x, In x (donationsTable db')
                  <-> In x (donationsTable db) /\ x <> d)
    /\ donationById db' (Donation.id d) = None
    /\ donorsTable db' = donorsTable db
    /\ (forall k, raised db' k
          = option_map
              (fun v => v - contribution (Donation.campaignId d)
                              (Donation.status d) (Donation.amount d) k)
              (raised db k))
    /\ (forall k, Donation.campaignId d = Some k ->
          Donation.status d = Received ->
          raised db' k
          = option_map (fun v => v - Donation.amount d) (raised db k))
    /\ (Donation.campaignId d = None \/ Donation.status d <> Received ->
        campaignsTable db' = campaignsTable db).
Proof.
  intros OK F I.
  pose proof (selectDonations_unique db d OK I) as Sel.
  rewrite (deleteDonation_faultFree now _ _ faults db d [] F Sel).
  eexists. split; [reflexivity|].
  unfold deleteDonationWrites.
  assert (NZ : noCampaignZero
                 (snd (deleteDonationRows (Donation.id d) db))).
  { exact (schemaOk_noCampaignZero db OK). }
  assert (RS : forall k,
             raised (snd (deleteDonationRows (Donation.id d) db)) k
             = raised db k) by reflexivity.
  split.
  { intro x. rewrite settle_donations.
    unfold deleteDonationRows. cbn [snd donationsTable].
    rewrite filter_In, negb_true_iff, Z.eqb_neq. split.
    - intros (Ix & N). split; [exact Ix | congruence].
    - intros (Ix & N). split; [exact Ix|]. intros E. apply N.
      apply (nodup_key_eq Donation.id (donationsTable db));
        auto using donation_ids_nodup. }
  split.
  { unfold donationById. rewrite settle_donations.
    unfold deleteDonationRows. cbn [snd donationsTable].
    destruct (find _ _) as [r|] eqn:E; [|reflexivity].
    apply find_id in E. destruct E as (Ir & E).
    apply filter_In in Ir. destruct Ir as (_ & N).
    rewrite E, Z.eqb_refl in N. discriminate N. }
  split; [rewrite settle_donors; reflexivity|].
  split.
  { intro k. rewrite raised_settle, RS, contribution_opp by exact NZ.
    destruct (raised db k); simpl; [f_equal; lia | reflexivity]. }
  split.
  - intros k Hk Hs. rewrite raised_settle, RS by exact NZ.
    rewrite Hk, Hs, contribution_hit. simpl.
    destruct (raised db k); simpl; [f_equal; lia | reflexivity].
  - intros H. rewrite settle_idle; [reflexivity|].
    apply settles_false. exact H.
Qed.

Lemma testDbReceived_schemaOk : schemaOk testDbReceived.
Proof.
  split.
  - cbv. repeat constructor. intros [].
  - intros c [<-|[]]. cbv. split; [discriminate | reflexivity].
  - cbv. repeat constructor. intros [].
  - intros d [<-|[]]. cbv. split; [discriminate | reflexivity].
  - cbv. discriminate.
Qed.

Lemma deleteDonation_removes_and_reconciles_witness :
  schemaOk testDbReceived
  /\ faultFree []
  /\ In testDonation (donationsTable testDbReceived)
  /\ exists db',
       run (deleteDonation 6 1 testTenantId) [] testDbReceived = (inr tt, db')
       /\ raised testDbReceived 1 = Some 10050
       /\ raised db' 1 = Some 0
       /\ donationById db' 1 = None.
Proof.
  assert (I : In testDonation (donationsTable testDbReceived)).
  { left. reflexivity. }
  split; [exact testDbReceived_schemaOk|].
  split; [constructor|].
  split; [exact I|].
  destruct (deleteDonation_removes_and_reconciles 6 [] testDbReceived
              testDonation testDbReceived_schemaOk (Forall_nil _) I)
    as (db' & R & _ & G & _ & _ & H & _).
  exists db'. split; [exact R|]. split; [reflexivity|].
  split; [|exact G].
  rewrite (H 1 eq_refl eq_refl). reflexivity.
Defined.

(** ** The donation-row update *)

Lemma updateDonationRows_table now input db :
  donationsTable (snd (updateDonationRows now input db))
  = map (updateRow now input) (donationsTable db).
Proof. reflexivity. Qed.

Lemma updateRow_id now input d :
  Donation.id (updateRow now input d) = Donation.id d.
Proof.
  unfold updateRow. destruct (Donation.id d =? _); reflexivity.
Qed.

Lemma map_id_updateRow now input ds :
  map Donation.id (map (updateRow now input) ds) = map Donation.id ds.
Proof.
  rewrite map_map. apply map_ext. intro d. apply updateRow_id.
Qed.

Lemma updateRow_hit now input d :
  Donation.id d = UpdateDonationInput.id input ->
  updateRow now input d = patchDonation now input d.
Proof. unfold updateRow. intros ->. rewrite Z.eqb_refl. reflexivity. Qed.

Lemma updateRow_miss now input d :
  Donation.id d <> UpdateDonationInput.id input ->
  updateRow now input d = d.
Proof.
  unfold updateRow. intros H. apply Z.eqb_neq in H. rewrite H. reflexivity.
Qed.

Lemma updateDonationRows_returning now input db old :
  schemaOk db -> In old (donationsTable db) ->
  Donation.id old = UpdateDonationInput.id input ->
  fst (updateDonationRows now input db) = [patchDonation now input old].
Proof.
  intros OK I E. unfold updateDonationRows. cbn [fst].
  change (map _ (donationsTable db))
    with (map (updateRow now input) (donationsTable db)).
  apply (filter_unique Donation.id).
  - rewrite map_id_updateRow. apply donation_ids_nodup. exact OK.
  - rewrite <- (updateRow_hit now input old E). apply in_map. exact I.
  - simpl. rewrite E. apply Z.eqb_refl.
  - intros x H. apply Z.eqb_eq in H. simpl. congruence.
Qed.

Lemma updateRow_In now input ds old x :
  NoDup (map Donation.id ds) -> In old ds ->
  Donation.id old = UpdateDonationInput.id input ->
  In x (map (updateRow now input) ds)
  <-> x = patchDonation now input old \/ In x ds /\ x <> old.
Proof.
  intros ND I E. rewrite in_map_iff. split.
  - intros (y & <- & Iy).
    destruct (Z.eq_dec (Donation.id y) (UpdateDonationInput.id input)) as [H|H].
    + left. rewrite updateRow_hit by exact H. f_equal.
      apply (nodup_key_eq Donation.id ds); auto. congruence.
    + right. rewrite updateRow_miss by exact H. split; [exact Iy|].
      congruence.
  - intros [->|(Ix & N)].
    + exists old. split; [apply updateRow_hit; exact E | exact I].
    + exists x. split; [|exact Ix]. apply updateRow_miss.
      intros H. apply N. apply (nodup_key_eq Donation.id ds); auto.
      congruence.
Qed.

Lemma find_filter {A} (f : A -> bool) l :
  find f l = hd_error (filter f l).
Proof.
  induction l as [|a l IH]; simpl; [reflexivity|].
  destruct (f a); [reflexivity | exact IH].
Qed.

(** ** updateDonation *)

(** C3.  A successful [updateDonation] found a stored donation [old] of the
    caller's tenant; afterwards that row is [old] with the patch applied, so
    its campaign link, status and amount are the patch's where given and the
    old ones otherwise, and the total of every campaign [k] has moved by the
    contribution of the new state to [k] minus that of the old state.  The
    rule looks only at the old and new (link, status, amount), whichever
    fields the patch names. *)
Theorem updateDonation_reconciles now input t faults db r db' :
  schemaOk db ->
  run (updateDonation now input t) faults db = (inr r, db') ->
  exists old,
    In old (donationsTable db)
    /\ Donation.id old = UpdateDonationInput.id input
    /\ Donation.tenantId old = t
    /\ r = patchDonation now input old
    /\ donationById db' (UpdateDonationInput.id input) = Some r
    /\ Donation.campaignId r = newCampaignIdOf input old
    /\ Donation.status r = newStatusOf input old
    /\ Donation.amount r = newAmountOf input old
    /\ (forall x, In x (donationsTable db')
                  <-> x = r \/ In x (donationsTable db) /\ x <> old)
    /\ forall k,
         raised db' k
         = option_map
             (fun v => v + (contribution (newCampaignIdOf input old)
                              (newStatusOf input old) (newAmountOf input old) k
                            - contribution (Donation.campaignId old)
                                (Donation.status old) (Donation.amount old) k))
             (raised db k).
Proof.
  intros OK H. apply updateDonation_inr in H.
  destruct H as (old & rest & Sel & _ & _ & (rest' & Ret) & ->).
  assert (I : In old (fst (selectDonations (UpdateDonationInput.id input) t db)))
    by (rewrite Sel; left; reflexivity).
  apply selectDonations_id in I. destruct I as (I & E & T).
  rewrite (updateDonationRows_returning now input db old OK I E) in Ret.
  injection Ret as <- _.
  exists old. repeat (split; [assumption|]).
  unfold newCampaignIdOf, newStatusOf, newAmountOf.
  split; [reflexivity|].
  unfold updateDonationWrites.
  set (db1 := snd (updateDonationRows now input db)).
  assert (NZ : noCampaignZero db1) by exact (schemaOk_noCampaignZero db OK).
  assert (RS : forall k, raised db1 k = raised db k) by reflexivity.
  split.
  { unfold donationById. rewrite !settle_donations, find_filter.
    change (filter _ (donationsTable db1))
      with (fst (updateDonationRows now input db)).
    rewrite (updateDonationRows_returning now input db old OK I E).
    reflexivity. }
  do 3 (split; [reflexivity|]).
  split.
  { intro x. rewrite !settle_donations. unfold db1.
    rewrite updateDonationRows_table.
    apply updateRow_In; auto using donation_ids_nodup. }
  intro k. rewrite raised_settle by (apply settle_noCampaignZero; exact NZ).
  rewrite raised_settle, RS, contribution_opp by exact NZ.
  destruct (raised db k); simpl; [f_equal; lia | reflexivity].
Qed.

Lemma updateDonation_reconciles_witness :
  schemaOk testDbReceived
  /\ run (updateDonation 6 (statusPatch 1 Cancelled) testTenantId) []
         testDbReceived
     = (inr testDonationCancelled, testDbCancelled)
  /\ raised testDbReceived 1 = Some 10050
  /\ raised testDbCancelled 1 = Some 0
  /\ donationById testDbCancelled 1 = Some testDonationCancelled.
Proof.
  assert (R : run (updateDonation 6 (statusPatch 1 Cancelled) testTenantId) []
                  testDbReceived
              = (inr testDonationCancelled, testDbCancelled)) by reflexivity.
  split; [exact testDbReceived_schemaOk|].
  split; [exact R|].
  split; [reflexivity|].
  destruct (updateDonation_reconciles 6 (statusPatch 1 Cancelled) testTenantId
              [] testDbReceived testDonationCancelled testDbCancelled
              testDbReceived_schemaOk R)
    as (old & I & _ & _ & _ & G & _ & _ & _ & _ & H).
  destruct I as [<-|[]].
  split; [|exact G].
  rewrite (H 1). reflexivity.
Defined.

(** Status flip: a [Received] donation of 100.00 set to [Cancelled], no other
    field named, takes the 100.00 back off its campaign. *)
Example status_flip_takes_amount_back :
  let db0 := snd (run (createDonation 5
                         (testDonationInput (Some 1) 10000 Received))
                      [] testDb) in
  let db1 := snd (run (updateDonation 6 (statusPatch 1 Cancelled)
                                      testTenantId) [] db0) in
  raised testDb 1 = Some 0 /\ raised db0 1 = Some 10000
  /\ raised db1 1 = Some 0.
Proof. repeat split. Qed.

(** Campaign move: the 100.50 leaves campaign 1 and reaches campaign 2. *)
Example campaign_move_shifts_amount :
  let db1 := snd (run (updateDonation 6 (campaignPatch 1 (Some 2))
                                      testTenantId) [] testDbTwoCampaigns) in
  raised testDbTwoCampaigns 1 = Some 10050
  /\ raised testDbTwoCampaigns 2 = Some 0
  /\ raised db1 1 = Some 0 /\ raised db1 2 = Some 10050
  /\ option_map Donation.campaignId (donationById db1 1) = Some (Some 2).
Proof. repeat split. Qed.

(** ** The sum of received donations under row writes *)

Lemma receivedTotal_cons d ds k :
  receivedTotal (d :: ds) k = contributionOf d k + receivedTotal ds k.
Proof. reflexivity. Qed.

Lemma receivedTotal_app ds d k :
  receivedTotal (ds ++ [d]) k = receivedTotal ds k + contributionOf d k.
Proof.
  unfold contributionOf. induction ds as [|a ds IH]; simpl; [lia|].
  rewrite IH. lia.
Qed.

Lemma updateRow_others now input ds :
  (forall x, In x ds -> Donation.id x <> UpdateDonationInput.id input) ->
  map (updateRow now input) ds = ds.
Proof.
  intros H. rewrite <- (map_id ds) at 2. apply map_ext_in.
  intros x Ix. apply updateRow_miss. auto.
Qed.

Lemma filter_others i (ds : list Donation.t) :
  (forall x, In x ds -> Donation.id x <> i) ->
  filter (fun d => negb (Donation.id d =? i)) ds = ds.
Proof.
  induction ds as [|a ds IH]; simpl; intros H; [reflexivity|].
  assert (N : Donation.id a <> i) by auto.
  apply Z.eqb_neq in N. rewrite N. simpl. f_equal. auto.
Qed.

Lemma nodup_head_others (a : Donation.t) ds :
  NoDup (map Donation.id (a :: ds)) ->
  forall x, In x ds -> Donation.id x <> Donation.id a.
Proof.
  intros ND x Ix E. inversion ND as [|? ? NI _]; subst.
  apply NI. rewrite <- E. apply in_map. exact Ix.
Qed.

Lemma receivedTotal_update now input ds old k :
  NoDup (map Donation.id ds) -> In old ds ->
  Donation.id old = UpdateDonationInput.id input ->
  receivedTotal (map (updateRow now input) ds) k
  = receivedTotal ds k
    + contributionOf (patchDonation now input old) k - contributionOf old k.
Proof.
  induction ds as [|a ds IH]; intros ND I E; [destruct I|].
  rewrite map_cons, !receivedTotal_cons.
  destruct I as [->|I].
  - rewrite updateRow_hit by exact E.
    rewrite updateRow_others; [lia|].
    intros x Ix. rewrite <- E. exact (nodup_head_others old ds ND x Ix).
  - assert (N : Donation.id a <> UpdateDonationInput.id input).
    { rewrite <- E. intros H.
      exact (nodup_head_others a ds ND old I (eq_sym H)). }
    rewrite updateRow_miss by exact N.
    inversion ND; subst. rewrite IH by assumption. lia.
Qed.

Lemma receivedTotal_delete ds old k :
  NoDup (map Donation.id ds) -> In old ds ->
  receivedTotal (filter (fun d => negb (Donation.id d =? Donation.id old)) ds) k
  = receivedTotal ds k - contributionOf old k.
Proof.
  induction ds as [|a ds IH]; intros ND I; [destruct I|].
  cbn [filter]. destruct I as [->|I].
  - rewrite Z.eqb_refl. cbn [negb]. rewrite receivedTotal_cons.
    rewrite filter_others; [lia|]. exact (nodup_head_others old ds ND).
  - assert (N : Donation.id a <> Donation.id old).
    { intros H. exact (nodup_head_others a ds ND old I (eq_sym H)). }
    apply Z.eqb_neq in N. rewrite N. cbn [negb]. rewrite !receivedTotal_cons.
    inversion ND; subst. rewrite IH by assumption. lia.
Qed.

(** ** The schema guarantees are kept *)

Lemma settle_schemaOk now link s delta db :
  schemaOk db -> schemaOk (settle now link s delta db).
Proof.
  intros [N1 S1 N2 S2 P]. split.
  - rewrite settle_campaigns, map_id_settleRow. exact N1.
  - intros c. rewrite settle_campaigns, settle_campaigns_seq, in_map_iff.
    intros (c0 & <- & I). rewrite settleRow_id. auto.
  - rewrite settle_donations. exact N2.
  - rewrite settle_donations, settle_donations_seq. exact S2.
  - rewrite settle_donations_seq. exact P.
Qed.

Lemma insertDonation_schemaOk now input db :
  schemaOk db -> schemaOk (snd (insertDonation now input db)).
Proof.
  intros [N1 S1 N2 S2 P]. split; try assumption; simpl.
  - rewrite map_app. simpl. apply NoDup_app; [exact N2 | repeat constructor; intros [] |].
    intros i Ii [<-|[]]. apply in_map_iff in Ii. destruct Ii as (x & E & Ix).
    specialize (S2 x Ix). lia.
  - intros d Id. apply in_app_iff in Id. destruct Id as [Id|[<-|[]]].
    + specialize (S2 d Id). lia.
    + simpl. lia.
  - lia.
Qed.

Lemma updateDonationRows_schemaOk now input db :
  schemaOk db -> schemaOk (snd (updateDonationRows now input db)).
Proof.
  intros [N1 S1 N2 S2 P]. split; try assumption.
  - rewrite updateDonationRows_table, map_id_updateRow. exact N2.
  - intros d. rewrite updateDonationRows_table, in_map_iff.
    intros (x & <- & Ix). rewrite updateRow_id. exact (S2 x Ix).
Qed.

Lemma deleteDonationRows_schemaOk i db :
  schemaOk db -> schemaOk (snd (deleteDonationRows i db)).
Proof.
  intros [N1 S1 N2 S2 P]. split; try assumption.
  - unfold deleteDonationRows. cbn [snd donationsTable].
    clear - N2. induction (donationsTable db) as [|a l IH]; simpl.
    + constructor.
    + inversion N2; subst. destruct (negb _); simpl; auto.
      constructor; auto. intros H. apply in_map_iff in H.
      destruct H as (x & E & Ix). apply filter_In in Ix.
      match goal with N : ~ In _ _ |- _ => apply N end.
      rewrite <- E. apply in_map. tauto.
  - intros d Id. apply filter_In in Id. apply S2. tauto.
Qed.

(** ** The invariant through one reconciliation step *)

(** If every campaign is [contribution link s delta + rest] short of the sum
    of its received donations, then after the step settled (link, s, delta)
    it is [rest] short. *)
Lemma settle_closes_gap now link s delta (rest : Z -> Z) db :
  noCampaignZero db ->
  (forall c, In c (campaignsTable db) ->
     Campaign.currentAmountRaised c
     + contribution link s delta (Campaign.id c) + rest (Campaign.id c)
     = receivedTotal (donationsTable db) (Campaign.id c)) ->
  forall c, In c (campaignsTable (settle now link s delta db)) ->
    Campaign.currentAmountRaised c + rest (Campaign.id c)
    = receivedTotal (donationsTable (settle now link s delta db))
                    (Campaign.id c).
Proof.
  intros NZ G c. rewrite settle_campaigns, settle_donations, in_map_iff.
  intros (c0 & <- & I).
  rewrite settleRow_id, settleRow_raised by auto. auto.
Qed.

Lemma createDonation_reconciled now input db :
  schemaOk db -> reconciled db ->
  reconciled (settle now (CreateDonationInput.campaignId input)
                (CreateDonationInput.status input)
                (CreateDonationInput.amount input)
                (snd (insertDonation now input db))).
Proof.
  intros OK R c I.
  rewrite <- (Z.add_0_r (Campaign.currentAmountRaised c)).
  revert c I. apply (settle_closes_gap _ _ _ _ (fun _ => 0)).
  - exact (schemaOk_noCampaignZero db OK).
  - intros c I. unfold insertDonation. cbn [snd donationsTable].
    rewrite receivedTotal_app. unfold contributionOf. cbn.
    rewrite (R c I). lia.
Qed.

Lemma deleteDonation_reconciled now d db :
  schemaOk db -> reconciled db -> In d (donationsTable db) ->
  reconciled (deleteDonationWrites now d db).
Proof.
  intros OK R Id c I. unfold deleteDonationWrites in *.
  rewrite <- (Z.add_0_r (Campaign.currentAmountRaised c)).
  revert c I. apply (settle_closes_gap _ _ _ _ (fun _ => 0)).
  - exact (schemaOk_noCampaignZero db OK).
  - intros c I. unfold deleteDonationRows. cbn [snd donationsTable].
    rewrite receivedTotal_delete by auto using donation_ids_nodup.
    rewrite contribution_opp. unfold contributionOf.
    rewrite (R c I). lia.
Qed.

Lemma updateDonation_reconciled now input old db :
  schemaOk db -> reconciled db -> In old (donationsTable db) ->
  Donation.id old = UpdateDonationInput.id input ->
  reconciled (updateDonationWrites now input old db).
Proof.
  intros OK R Id E c I. unfold updateDonationWrites in *.
  set (db1 := snd (updateDonationRows now input db)) in *.
  assert (NZ : noCampaignZero db1) by exact (schemaOk_noCampaignZero db OK).
  rewrite <- (Z.add_0_r (Campaign.currentAmountRaised c)).
  revert c I. apply (settle_closes_gap _ _ _ _ (fun _ => 0)).
  { apply settle_noCampaignZero. exact NZ. }
  intros c I. rewrite Z.add_0_r.
  revert c I.
  apply (settle_closes_gap _ _ _ _
           (contribution
              (orElse (UpdateDonationInput.campaignId input)
                      (Donation.campaignId old))
              (orElse (UpdateDonationInput.status input) (Donation.status old))
              (orElse (UpdateDonationInput.amount input)
                      (Donation.amount old)))).
  { exact NZ. }
  intros c I. unfold db1. rewrite updateDonationRows_table.
  rewrite (receivedTotal_update now input _ old)
    by auto using donation_ids_nodup.
  rewrite contribution_opp. unfold contributionOf. cbn.
  rewrite (R c I). lia.
Qed.

(** ** Donations stay inside their campaign's tenant *)

Lemma campaign_tenant db c k t :
  schemaOk db -> In c (campaignsTable db) -> Campaign.id c = k ->
  fst (selectCampaigns k t db) <> [] -> Campaign.tenantId c = t.
Proof.
  intros OK I E H. apply selectCampaigns_hasCampaign in H.
  destruct H as (c0 & I0 & E0 & T0).
  assert (c = c0).
  { apply (nodup_key_eq Campaign.id (campaignsTable db));
      auto using campaign_ids_nodup. congruence. }
  congruence.
Qed.

Lemma settle_links now link s delta db :
  linksWithinTenant db -> linksWithinTenant (settle now link s delta db).
Proof.
  intros L d c. rewrite settle_donations, settle_campaigns, in_map_iff.
  intros Id (c0 & <- & I). rewrite settleRow_id, settleRow_tenantId.
  apply L; assumption.
Qed.

Lemma insertDonation_links now input db :
  schemaOk db -> linksWithinTenant db ->
  (forall k, CreateDonationInput.campaignId input = Some k -> k <> 0 ->
     fst (selectCampaigns k (CreateDonationInput.tenantId input) db) <> []) ->
  linksWithinTenant (snd (insertDonation now input db)).
Proof.
  intros OK L V d c. unfold insertDonation. cbn [snd donationsTable campaignsTable].
  rewrite in_app_iff. intros [Id|[<-|[]]] Ic; [apply L; assumption|].
  cbn. intros H. symmetry.
  apply (campaign_tenant db c (Campaign.id c)); auto.
  apply V; [exact H|]. exact (schemaOk_noCampaignZero db OK c Ic).
Qed.

Lemma updateDonationRows_links now input t db old :
  schemaOk db -> linksWithinTenant db ->
  In old (donationsTable db) -> Donation.tenantId old = t ->
  Donation.id old = UpdateDonationInput.id input ->
  (forall k, UpdateDonationInput.campaignId input = Some (Some k) -> k <> 0 ->
     fst (selectCampaigns k t db) <> []) ->
  linksWithinTenant (snd (updateDonationRows now input db)).
Proof.
  intros OK L Io T E V d c. rewrite updateDonationRows_table.
  change (campaignsTable (snd (updateDonationRows now input db)))
    with (campaignsTable db).
  intros Id Ic.
  apply (updateRow_In now input (donationsTable db) old)
    in Id; auto using donation_ids_nodup.
  destruct Id as [->|(Id & _)]; [|apply L; assumption].
  cbn. destruct (UpdateDonationInput.campaignId input) as [[k|]|] eqn:P;
    cbn; intros H.
  - rewrite T. symmetry.
    apply (campaign_tenant db c (Campaign.id c)); auto.
    injection H as ->. apply V; [reflexivity|].
    exact (schemaOk_noCampaignZero db OK c Ic).
  - discriminate H.
  - apply L; assumption.
Qed.

Lemma deleteDonationRows_links i db :
  linksWithinTenant db -> linksWithinTenant (snd (deleteDonationRows i db)).
Proof.
  intros L d c. unfold deleteDonationRows. cbn [snd donationsTable campaignsTable].
  rewrite filter_In. intros (Id & _). apply L. exact Id.
Qed.

(** With links inside tenants, summing inside the tenant sums the same
    rows. *)
Lemma receivedTotalOf_links t ds k :
  (forall d, In d ds -> Donation.campaignId d = Some k ->
     Donation.tenantId d = t) ->
  receivedTotalOf t ds k = receivedTotal ds k.
Proof.
  unfold receivedTotalOf. induction ds as [|a ds IH]; intros H; [reflexivity|].
  cbn [filter]. destruct (String.eqb (Donation.tenantId a) t) eqn:E.
  - rewrite !receivedTotal_cons, IH; [reflexivity|].
    intros d Id. apply H. right. exact Id.
  - rewrite receivedTotal_cons, IH by (intros d Id; apply H; right; exact Id).
    assert (Z0 : contributionOf a k = 0).
    { unfold contributionOf, contribution.
      destruct (Donation.campaignId a) as [c|] eqn:C; [|reflexivity].
      destruct (c =? k) eqn:K; [|reflexivity].
      apply Z.eqb_eq in K. subst c.
      apply String.eqb_neq in E. exfalso. apply E. apply H; [left|]; auto. }
    lia.
Qed.

Lemma reconciled_per_tenant db :
  linksWithinTenant db -> reconciled db -> reconciledPerTenant db.
Proof.
  intros L R c I. rewrite receivedTotalOf_links; [exact (R c I)|].
  intros d Id H. exact (L d c Id I H).
Qed.

(** ** The reconciliation invariant *)

Lemma mutate_inr now op faults db r db' :
  run (mutate now op) faults db = (inr r, db') ->
  match op with
  | Create input =>
      exists d, run (createDonation now input) faults db = (inr d, db')
  | Update input t =>
      exists d, run (updateDonation now input t) faults db = (inr d, db')
  | Delete i t => run (deleteDonation now i t) faults db = (inr tt, db')
  end.
Proof.
  intros H. apply run_inv in H. destruct H as (fs' & H).
  destruct op as [input|input t|i t]; unfold mutate in H;
    apply bind_inr in H; destruct H as (a & c1 & R1 & R2); inv R2.
  - exists a. eapply run_intro. exact R1.
  - exists a. eapply run_intro. exact R1.
  - destruct a. eapply run_intro. exact R1.
Qed.

Lemma mutate_keeps_invariant now op faults db r db' :
  schemaOk db -> reconciled db ->
  run (mutate now op) faults db = (inr r, db') ->
  schemaOk db' /\ reconciled db'
  /\ (linksWithinTenant db -> linksWithinTenant db').
Proof.
  intros OK R H. apply mutate_inr in H.
  destruct op as [input|input t|i t].
  - destruct H as (d & H). apply createDonation_inr in H.
    destruct H as (_ & V & _ & ->). split; [|split].
    + apply settle_schemaOk, insertDonation_schemaOk, OK.
    + apply createDonation_reconciled; assumption.
    + intros L. apply settle_links, insertDonation_links; assumption.
  - destruct H as (d & H). apply updateDonation_inr in H.
    destruct H as (old & rest & Sel & _ & V & _ & ->).
    assert (I : In old (fst (selectDonations (UpdateDonationInput.id input)
                               t db)))
      by (rewrite Sel; left; reflexivity).
    apply selectDonations_id in I. destruct I as (I & E & T).
    unfold updateDonationWrites. split; [|split].
    + apply settle_schemaOk, settle_schemaOk, updateDonationRows_schemaOk, OK.
    + apply updateDonation_reconciled; assumption.
    + intros L.
      apply settle_links, settle_links,
        (updateDonationRows_links now input t db old); assumption.
  - apply deleteDonation_inr in H. destruct H as (d & rest & Sel & ->).
    assert (I : In d (fst (selectDonations i t db)))
      by (rewrite Sel; left; reflexivity).
    apply selectDonations_id in I. destruct I as (I & _).
    unfold deleteDonationWrites. split; [|split].
    + apply settle_schemaOk, deleteDonationRows_schemaOk, OK.
    + apply deleteDonation_reconciled; assumption.
    + intros L. apply settle_links, deleteDonationRows_links, L.
Qed.

(** C1.  From a database that satisfies the schema's key guarantees and the
    invariant, every database reached by successfully completed
    [createDonation], [updateDonation] and [deleteDonation] calls satisfies
    the invariant: each campaign's [currentAmountRaised] is the sum of the
    amounts of the [Received] donations that name it; and when donations name
    campaigns of their own tenant only, it is that sum taken inside the
    campaign's tenant. *)
Theorem reconciliation_invariant db0 db :
  schemaOk db0 ->
  reconciled db0 ->
  reachable db0 db ->
  reconciled db /\ (linksWithinTenant db0 -> reconciledPerTenant db).
Proof.
  intros OK R H.
  assert (G : schemaOk db /\ reconciled db
              /\ (linksWithinTenant db0 -> linksWithinTenant db)).
  { induction H as [|db now op faults r db' _ IH Step]; [auto|].
    destruct IH as (OK1 & R1 & L1).
    destruct (mutate_keeps_invariant _ _ _ _ _ _ OK1 R1 Step)
      as (OK2 & R2 & L2).
    auto. }
  destruct G as (_ & R' & L'). split; [exact R'|].
  intros L. apply reconciled_per_tenant; auto.
Qed.

Lemma testDb_reconciled : reconciled testDb.
Proof. intros c [<-|[]]. reflexivity. Qed.

Lemma testDb_links : linksWithinTenant testDb.
Proof. intros d c []. Qed.

Lemma reconciliation_invariant_witness :
  schemaOk testDb
  /\ reconciled testDb
  /\ reachable testDb testDbReceived
  /\ reconciled testDbReceived
  /\ reconciledPerTenant testDbReceived.
Proof.
  assert (S : reachable testDb testDbReceived).
  { apply (reach_step testDb testDb 5
             (Create (testDonationInput (Some 1) 10050 Received)) []
             (Some testDonation) testDbReceived);
      [apply reach_here | reflexivity]. }
  split; [exact testDb_schemaOk|].
  split; [exact testDb_reconciled|].
  split; [exact S|].
  destruct (reconciliation_invariant testDb testDbReceived
              testDb_schemaOk testDb_reconciled S) as (R & P).
  split; [exact R | exact (P testDb_links)].
Defined.

(** ** Validation failures *)

Lemma createDonation_donor_missing now input faults db :
  faultFree faults ->
  fst (selectDonors (CreateDonationInput.donorId input)
                    (CreateDonationInput.tenantId input) db) = [] ->
  run (createDonation now input) faults db = (inl (NotFound DonorE), db).
Proof.
  intros F E. eapply run_intro. unfold createDonation.
  unfold bind at 1. rewrite execute_faultFree by assumption.
  rewrite selectDonors_readOnly, E. reflexivity.
Qed.

Lemma createDonation_campaign_missing now input faults db k :
  faultFree faults ->
  fst (selectDonors (CreateDonationInput.donorId input)
                    (CreateDonationInput.tenantId input) db) <> [] ->
  CreateDonationInput.campaignId input = Some k -> k <> 0 ->
  fst (selectCampaigns k (CreateDonationInput.tenantId input) db) = [] ->
  run (createDonation now input) faults db = (inl (NotFound CampaignE), db).
Proof.
  intros F ND Hk K0 E. eapply run_intro. unfold createDonation.
  unfold bind at 1. rewrite execute_faultFree by assumption.
  rewrite selectDonors_readOnly. unfold bind at 1. unfold orNotFound at 1.
  destruct (fst (selectDonors _ _ db)); [congruence|].
  unfold ret at 1. unfold bind at 1.
  rewrite Hk. unfold whenTruthy at 1.
  apply Z.eqb_neq in K0. rewrite K0.
  unfold bind at 1. rewrite execute_faultFree by auto using faultFree_tl.
  rewrite selectCampaigns_readOnly, E. reflexivity.
Qed.

Lemma updateDonation_missing now input t faults db :
  faultFree faults ->
  fst (selectDonations (UpdateDonationInput.id input) t db) = [] ->
  run (updateDonation now input t) faults db = (inl (NotFound DonationE), db).
Proof.
  intros F E. eapply run_intro. unfold updateDonation.
  unfold bind at 1. rewrite execute_faultFree by assumption.
  rewrite selectDonations_readOnly, E. reflexivity.
Qed.

Lemma deleteDonation_missing now i t faults db :
  faultFree faults ->
  fst (selectDonations i t db) = [] ->
  run (deleteDonation now i t) faults db = (inl (NotFound DonationE), db).
Proof.
  intros F E. eapply run_intro. unfold deleteDonation.
  unfold bind at 1. rewrite execute_faultFree by assumption.
  rewrite selectDonations_readOnly, E. reflexivity.
Qed.

Lemma not_resolved {A} (l : list A) (P : Prop) :
  (l <> [] <-> P) -> (l = [] <-> ~ P).
Proof.
  intros H. split.
  - intros -> p. apply H in p. congruence.
  - intros G. destruct l; [reflexivity|].
    exfalso. apply G, H. discriminate.
Qed.

(** C5, as the handlers have it.  With a store that refuses no statement:
    [createDonation] fails with "donor not found" exactly when the input's
    donor does not resolve in the input's tenant; once the donor resolves
    and the input names a campaign by a non-zero id, it fails with "campaign
    not found" exactly when that campaign does not resolve in the tenant;
    with a null campaign it never does; [updateDonation] and
    [deleteDonation] fail with "donation not found" exactly when no donation
    of that id is stored under the caller's tenant. *)
Theorem notFound_exactly now faults db :
  faultFree faults ->
  (forall input,
     fst (run (createDonation now input) faults db) = inl (NotFound DonorE)
     <-> ~ hasDonor db (CreateDonationInput.donorId input)
                    (CreateDonationInput.tenantId input))
  /\ (forall input k,
        hasDonor db (CreateDonationInput.donorId input)
                 (CreateDonationInput.tenantId input) ->
        CreateDonationInput.campaignId input = Some k -> k <> 0 ->
        (fst (run (createDonation now input) faults db)
         = inl (NotFound CampaignE)
         <-> ~ hasCampaign db k (CreateDonationInput.tenantId input)))
  /\ (forall input,
        CreateDonationInput.campaignId input = None ->
        fst (run (createDonation now input) faults db)
        <> inl (NotFound CampaignE))
  /\ (forall input t,
        fst (run (updateDonation now input t) faults db)
        = inl (NotFound DonationE)
        <-> ~ hasDonation db (UpdateDonationInput.id input) t)
  /\ (forall i t,
        fst (run (deleteDonation now i t) faults db)
        = inl (NotFound DonationE)
        <-> ~ hasDonation db i t).
Proof.
  intros F. repeat apply conj.
  - intros input.
    rewrite <- (not_resolved _ _ (selectDonors_hasDonor db _ _)). split.
    + destruct (run (createDonation now input) faults db) as [r db'] eqn:R.
      cbn [fst]. intros ->. apply createDonation_inl in R.
      destruct R as [(_ & [(_ & H)|(H & _)])|(H & _)];
        try discriminate H. exact H.
    + intros E. rewrite createDonation_donor_missing by assumption.
      reflexivity.
  - intros input k HD Hk K0.
    rewrite <- (not_resolved _ _ (selectCampaigns_hasCampaign db _ _)).
    apply selectDonors_hasDonor in HD. split.
    + destruct (run (createDonation now input) faults db) as [r db'] eqn:R.
      cbn [fst]. intros ->. apply createDonation_inl in R.
      destruct R as [(_ & [(H & _)|(_ & _ & k' & Hk' & _ & H)])|(H & _)];
        try discriminate H. congruence.
    + intros E.
      rewrite (createDonation_campaign_missing now input faults db k)
        by assumption.
      reflexivity.
  - intros input Hn.
    destruct (run (createDonation now input) faults db) as [r db'] eqn:R.
    cbn [fst]. intros ->. apply createDonation_inl in R.
    destruct R as [(_ & [(H & _)|(_ & _ & k' & Hk' & _)])|(H & _)];
      try discriminate H. congruence.
  - intros input t.
    rewrite <- (not_resolved _ _ (selectDonations_hasDonation db _ _)). split.
    + destruct (run (updateDonation now input t) faults db) as [r db'] eqn:R.
      cbn [fst]. intros ->. apply updateDonation_inl in R.
      destruct R as [(_ & [H|[(_ & H)|[(H & _)|(H & _)]]])|(? & ? & _ & H & _)];
        try discriminate H. exact H.
    + intros E. rewrite updateDonation_missing by assumption. reflexivity.
  - intros i t.
    rewrite <- (not_resolved _ _ (selectDonations_hasDonation db _ _)). split.
    + destruct (run (deleteDonation now i t) faults db) as [r db'] eqn:R.
      cbn [fst]. intros ->. apply deleteDonation_inl in R.
      destruct R as [(_ & [H|(_ & H)])|(? & ? & _ & H & _)];
        try discriminate H. exact H.
    + intros E. rewrite deleteDonation_missing by assumption. reflexivity.
Qed.

Lemma testDb_no_donor_999 : ~ hasDonor testDb 999 testTenantId.
Proof. intros (r & [<-|[]] & H & _). discriminate H. Qed.

Lemma testDb_no_campaign_999 : ~ hasCampaign testDb 999 testTenantId.
Proof. intros (r & [<-|[]] & H & _). discriminate H. Qed.

Lemma testDb_donor_1 : hasDonor testDb 1 testTenantId.
Proof. eexists. split; [left; reflexivity|]. split; reflexivity. Qed.

Lemma notFound_exactly_witness :
  faultFree []
  /\ ~ hasDonor testDb 999 testTenantId
  /\ fst (run (createDonation 5 (testInputFor 999 None)) [] testDb)
     = inl (NotFound DonorE)
  /\ hasDonor testDb 1 testTenantId
  /\ ~ hasCampaign testDb 999 testTenantId
  /\ fst (run (createDonation 5 (testInputFor 1 (Some 999))) [] testDb)
     = inl (NotFound CampaignE)
  /\ fst (run (createDonation 5 (testInputFor 1 None)) [] testDb)
     <> inl (NotFound CampaignE)
  /\ ~ hasDonation testDb 999 testTenantId
  /\ fst (run (updateDonation 6 (noPatch 999) testTenantId) [] testDb)
     = inl (NotFound DonationE)
  /\ fst (run (deleteDonation 6 999 testTenantId) [] testDb)
     = inl (NotFound DonationE).
Proof.
  destruct (notFound_exactly 5 [] testDb (Forall_nil _))
    as (A & B & C & _ & _).
  destruct (notFound_exactly 6 [] testDb (Forall_nil _))
    as (_ & _ & _ & D & E).
  assert (ND : ~ hasDonation testDb 999 testTenantId).
  { intros (r & [] & _). }
  split; [constructor|].
  split; [exact testDb_no_donor_999|].
  split; [apply (A (testInputFor 999 None)); exact testDb_no_donor_999|].
  split; [exact testDb_donor_1|].
  split; [exact testDb_no_campaign_999|].
  split.
  { apply (B (testInputFor 1 (Some 999)) 999 testDb_donor_1 eq_refl);
      [discriminate | exact testDb_no_campaign_999]. }
  split; [apply (C (testInputFor 1 None)); reflexivity|].
  split; [exact ND|].
  split; [apply (D (noPatch 999) testTenantId); exact ND|].
  apply (E 999 testTenantId). exact ND.
Defined.

(** The input names an unknown donor and an unknown campaign: the campaign
    is non-null and does not resolve, yet the failure is "donor not found",
    the donor being looked up first. *)
Lemma notFound_campaign_counterexample :
  ~ (fst (run (createDonation 5 (testInputFor 999 (Some 999))) [] testDb)
     = inl (NotFound CampaignE)
     <-> exists k,
           CreateDonationInput.campaignId (testInputFor 999 (Some 999))
           = Some k
           /\ ~ hasCampaign testDb k
                (CreateDonationInput.tenantId (testInputFor 999 (Some 999)))).
Proof.
  intros [_ H].
  assert (E : fst (run (createDonation 5 (testInputFor 999 (Some 999))) []
                       testDb)
              = inl (NotFound CampaignE)).
  { apply H. exists 999. split; [reflexivity|]. exact testDb_no_campaign_999. }
  discriminate E.
Qed.

(** A campaign id of 0 is falsy in JavaScript: the campaign lookup is
    skipped and the donation is stored with [campaignId = 0], which no
    campaign carries. *)
Example createDonation_campaign_zero_unchecked :
  let input := testInputFor 1 (Some 0) in
  ~ hasCampaign testDb 0 testTenantId
  /\ exists d db',
       run (createDonation 5 input) [] testDb = (inr d, db')
       /\ Donation.campaignId d = Some 0
       /\ donationsTable db' = [d]
       /\ campaignsTable db' = campaignsTable testDb.
Proof.
  split.
  - intros (r & [<-|[]] & H & _). discriminate H.
  - eexists. eexists. split; [reflexivity|]. repeat split.
Qed.

Lemma mutate_inl now op faults db e db' :
  run (mutate now op) faults db = (inl e, db') ->
  match op with
  | Create input => run (createDonation now input) faults db = (inl e, db')
  | Update input t => run (updateDonation now input t) faults db = (inl e, db')
  | Delete i t => run (deleteDonation now i t) faults db = (inl e, db')
  end.
Proof.
  intros H. apply run_inv in H. destruct H as (fs' & H).
  destruct op as [input|input t|i t]; unfold mutate in H;
    apply bind_inl in H;
    (destruct H as [H | (a & c1 & _ & R2)]; [|discriminate R2]);
    eapply run_intro; exact H.
Qed.

(** C6.  A create, update or delete of a donation that fails validation (a
    donor, campaign or donation that is missing or belongs to another
    tenant) leaves the whole database as it was, under every fault
    schedule: no donation row is inserted, updated or deleted and no
    campaign total is touched. *)
Theorem validation_failure_changes_nothing now op faults db e db' :
  run (mutate now op) faults db = (inl (NotFound e), db') ->
  db' = db.
Proof.
  intros H. apply mutate_inl in H. destruct op as [input|input t|i t].
  - apply createDonation_inl in H.
    destruct H as [(H & _)|(H & _)]; [exact H | discriminate H].
  - apply updateDonation_inl in H.
    destruct H as [(H & _)|(? & ? & _ & H & _)]; [exact H | discriminate H].
  - apply deleteDonation_inl in H.
    destruct H as [(H & _)|(? & ? & _ & H & _)]; [exact H | discriminate H].
Qed.

Lemma validation_failure_changes_nothing_witness :
  run (mutate 7 (Create (testInputFor 1 (Some 2)))) [] testDbOtherTenant
  = (inl (NotFound CampaignE), testDbOtherTenant)
  /\ run (mutate 7 (Create (testInputFor 2 None))) [] testDbOtherTenant
     = (inl (NotFound DonorE), testDbOtherTenant)
  /\ snd (run (mutate 7 (Delete 1 otherTenantId)) [] testDbOtherTenant)
     = testDbOtherTenant.
Proof.
  split; [reflexivity|]. split; [reflexivity|].
  apply (validation_failure_changes_nothing 7 (Delete 1 otherTenantId) []
           testDbOtherTenant DonationE).
  reflexivity.
Defined.

(** ** Failures of the store *)

Lemma mutate_returns now op faults db r db' :
  run (mutate now op) faults db = (inr r, db') ->
  db' = afterWrites (List.length (writes now op db)) now op db
  /\ exists rest, firstRefusal faults = later (statements now op db) rest.
Proof.
  intros H. apply mutate_inr in H. unfold afterWrites. rewrite firstn_all.
  destruct op as [input|input t|i t].
  - destruct H as (d & H). split; [|eapply createDonation_inr_at; exact H].
    apply createDonation_inr in H. destruct H as (_ & _ & _ & ->).
    unfold writes, settle, settleWrites.
    destruct (settles _ _); reflexivity.
  - destruct H as (d & H). split; [|eapply updateDonation_inr_at; exact H].
    apply updateDonation_inr in H.
    destruct H as (cur & rest & Sel & _ & _ & _ & ->).
    unfold writes, updateDonationWrites, settle, settleWrites.
    rewrite Sel.
    destruct (settles (Donation.campaignId cur) _);
      destruct (settles (orElse _ _) _); reflexivity.
  - split; [|eapply deleteDonation_inr_at; exact H].
    apply deleteDonation_inr in H. destruct H as (d & rest & Sel & ->).
    assert (E : Donation.id d = i).
    { apply (selectDonations_id i t db). rewrite Sel. left. reflexivity. }
    unfold writes, deleteDonationWrites, settle, settleWrites.
    rewrite Sel, E.
    destruct (settles _ _); reflexivity.
Qed.

Lemma mutate_fails now op faults db e db' :
  run (mutate now op) faults db = (inl e, db') ->
  (exists x, e = NotFound x /\ db' = db)
  \/ e = StorageError
     /\ exists p drawn,
          firstRefusal faults = Some (p, drawn)
          /\ (p < statements now op db)%nat
          /\ db' = leftByRefused op p drawn
                     (afterWrites (p - lookups op) now op db).
Proof.
  intros H. apply mutate_inl in H. destruct op as [input|input t|i t].
  - apply createDonation_inl in H.
    destruct H as [(-> & [(-> & _)|(-> & _)])|H]; eauto.
  - pose proof H as H0. apply updateDonation_inl in H.
    assert (S : e = StorageError ->
                exists p drawn,
                  firstRefusal faults = Some (p, drawn)
                  /\ (p < statements now (Update input t) db)%nat
                  /\ db' = leftByRefused (Update input t) p drawn
                             (afterWrites (p - lookups (Update input t)) now
                                (Update input t) db)).
    { intros ->. apply updateDonation_refused. exact H0. }
    destruct H as [(-> & [E|[(-> & _)|[(-> & _)|(-> & _)]]])
                  |(cur & rest & _ & E & _)]; eauto.
  - pose proof H as H0. apply deleteDonation_inl in H.
    assert (S : e = StorageError ->
                exists p drawn,
                  firstRefusal faults = Some (p, drawn)
                  /\ (p < statements now (Delete i t) db)%nat
                  /\ db' = leftByRefused (Delete i t) p drawn
                             (afterWrites (p - lookups (Delete i t)) now
                                (Delete i t) db)).
    { intros ->. apply deleteDonation_refused. exact H0. }
    destruct H as [(-> & [E|(-> & _)])|(d & rest & _ & E & _)]; eauto.
Qed.

(** A mutation that fails validation under one schedule returns under
    none. *)
Lemma notFound_under_every_schedule now op faults faults0 db x db' r0 db0 :
  run (mutate now op) faults db = (inl (NotFound x), db') ->
  run (mutate now op) faults0 db = (inr r0, db0) ->
  False.
Proof.
  intros H R. apply mutate_inl in H. apply mutate_inr in R.
  destruct op as [input|input t|i t].
  - destruct R as (d & R). apply createDonation_inr in R.
    destruct R as (ND & NC & _). apply createDonation_inl in H.
    destruct H as [(_ & [(_ & E)|(_ & _ & k & Hk & K0 & E)])|(H & _)].
    + exact (ND E).
    + exact (NC k Hk K0 E).
    + discriminate H.
  - destruct R as (d & R). apply updateDonation_inr in R.
    destruct R as (cur & rest & Sel & ND & NC & _).
    apply updateDonation_inl in H.
    destruct H as [(_ & [E|[(_ & E)|[(_ & k & Hk & K0 & E)
                                    |(_ & k & Hk & K0 & E)]]])
                  |(? & ? & _ & E & _)]; try discriminate E.
    + congruence.
    + exact (ND k Hk K0 E).
    + exact (NC k Hk K0 E).
  - apply deleteDonation_inr in R. destruct R as (d & rest & Sel & _).
    apply deleteDonation_inl in H.
    destruct H as [(_ & [E|(_ & E)])|(? & ? & _ & E & _)];
      try discriminate E.
    congruence.
Qed.

(** C7, as the handlers have it.  No transaction surrounds the statements
    of a donation mutation: its lookups and then its writes (donation row,
    then campaign totals) are sent one by one, each taking effect on its
    own.  When the call returns, all its writes are applied and no statement
    was refused; when validation fails, the database is as it was; and when
    the store refuses a statement, the call fails with the storage error,
    the refused statement is the first one the schedule refuses, at some
    position [p], and the database is left with exactly the writes sent
    before position [p], which are not rolled back (and with the donation id
    spent, when the refused statement is the INSERT of a create that had
    drawn it).  Conversely, for a mutation that returns when nothing is
    refused, refusing any one of its statements makes it fail in exactly
    that way. *)
Theorem failure_leaves_prefix_of_writes now op faults db :
  (forall r db',
     run (mutate now op) faults db = (r, db') ->
     match r with
     | inr _ =>
         db' = afterWrites (List.length (writes now op db)) now op db
         /\ forall p drawn, firstRefusal faults = Some (p, drawn) ->
              (statements now op db <= p)%nat
     | inl (NotFound _) => db' = db
     | inl e =>
         e = StorageError
         /\ exists p drawn,
              firstRefusal faults = Some (p, drawn)
              /\ (p < statements now op db)%nat
              /\ db' = leftByRefused op p drawn
                         (afterWrites (p - lookups op) now op db)
     end)
  /\ (forall r0 db0 p drawn,
        run (mutate now op) [] db = (inr r0, db0) ->
        firstRefusal faults = Some (p, drawn) ->
        (p < statements now op db)%nat ->
        run (mutate now op) faults db
        = (inl StorageError,
           leftByRefused op p drawn
             (afterWrites (p - lookups op) now op db))).
Proof.
  assert (A : forall r db',
     run (mutate now op) faults db = (r, db') ->
     match r with
     | inr _ =>
         db' = afterWrites (List.length (writes now op db)) now op db
         /\ forall p drawn, firstRefusal faults = Some (p, drawn) ->
              (statements now op db <= p)%nat
     | inl (NotFound _) => db' = db
     | inl e =>
         e = StorageError
         /\ exists p drawn,
              firstRefusal faults = Some (p, drawn)
              /\ (p < statements now op db)%nat
              /\ db' = leftByRefused op p drawn
                         (afterWrites (p - lookups op) now op db)
     end).
  { intros r db' H. destruct r as [e|r].
    - apply mutate_fails in H.
      destruct H as [(x & -> & ->)|(-> & H)]; [reflexivity | auto].
    - apply mutate_returns in H. destruct H as (-> & rest & P).
      split; [reflexivity|]. intros p drawn E. rewrite P in E.
      eapply later_some. exact E. }
  split; [exact A|].
  intros r0 db0 p drawn R0 E L.
  destruct (run (mutate now op) faults db) as [r db'] eqn:R.
  specialize (A r db' eq_refl). destruct r as [[x| |]|r].
  - exfalso. eapply notFound_under_every_schedule; eassumption.
  - destruct A as (_ & p' & drawn' & E' & _ & ->).
    rewrite E in E'. inv E'. reflexivity.
  - destruct A as (A & _). discriminate A.
  - destruct A as (_ & A). specialize (A p drawn E). lia.
Qed.

(** The store refuses the fourth statement of a [createDonation] (the
    campaign adjustment): the call fails, the donation row stays stored and
    the campaign total stays at 0, so the database is neither rolled back
    nor reconciled. *)
Lemma no_rollback_counterexample :
  run (mutate 5 (Create testReceivedInput)) [Runs; Runs; Runs; Refuses false]
      testDb
  = (inl StorageError, testDbUnsettled)
  /\ donationsTable testDbUnsettled = [testDonation]
  /\ raised testDbUnsettled 1 = Some 0
  /\ receivedTotal (donationsTable testDbUnsettled) 1 = 10050
  /\ testDbUnsettled <> testDb
  /\ ~ reconciled testDbUnsettled.
Proof.
  repeat split.
  - intros H. discriminate H.
  - intros R. specialize (R (testCampaign 1 testTenantId)).
    assert (I : In (testCampaign 1 testTenantId)
                   (campaignsTable testDbUnsettled)).
    { left. reflexivity. }
    specialize (R I). discriminate R.
Qed.

(** The same between the subtraction and the addition of an update that
    moves the donation from campaign 1 to campaign 2. *)
Example update_refused_between_subtract_and_add :
  let op := Update (campaignPatch 1 (Some 2)) testTenantId in
  let out := run (mutate 6 op) [Runs; Runs; Runs; Runs; Refuses false]
                 testDbTwoCampaigns in
  fst out = inl StorageError
  /\ option_map Donation.campaignId (donationById (snd out) 1) = Some (Some 2)
  /\ raised (snd out) 1 = Some 0
  /\ raised (snd out) 2 = Some 0.
Proof. repeat split. Qed.

Lemma failure_leaves_prefix_of_writes_witness :
  run (mutate 5 (Create testReceivedInput)) [] testDb
  = (inr (Some testDonation), testDbReceived)
  /\ firstRefusal [Runs; Runs; Runs; Refuses false] = Some (3%nat, false)
  /\ statements 5 (Create testReceivedInput) testDb = 4%nat
  /\ run (mutate 5 (Create testReceivedInput))
         [Runs; Runs; Runs; Refuses false] testDb
     = (inl StorageError, testDbUnsettled)
  /\ testDbUnsettled = afterWrites 1 5 (Create testReceivedInput) testDb
  /\ run (mutate 5 (Create testReceivedInput)) [Runs; Runs; Refuses true]
         testDb
     = (inl StorageError, drawDonationId testDb)
  /\ run (mutate 7 (Delete 1 testTenantId)) [Runs; Runs; Refuses false]
         testDbReceived
     = (inl StorageError, testDbRowDeleted)
  /\ donationsTable testDbRowDeleted = []
  /\ raised testDbRowDeleted 1 = Some 10050.
Proof.
  split; [reflexivity|]. split; [reflexivity|]. split; [reflexivity|].
  split.
  { apply (proj2 (failure_leaves_prefix_of_writes 5
                    (Create testReceivedInput)
                    [Runs; Runs; Runs; Refuses false] testDb)
             (Some testDonation) testDbReceived 3%nat false);
      [reflexivity | reflexivity | cbv; lia]. }
  split; [reflexivity|]. split.
  { apply (proj2 (failure_leaves_prefix_of_writes 5
                    (Create testReceivedInput)
                    [Runs; Runs; Refuses true] testDb)
             (Some testDonation) testDbReceived 2%nat true);
      [reflexivity | reflexivity | cbv; lia]. }
  split; [|split; reflexivity].
  apply (proj2 (failure_leaves_prefix_of_writes 7 (Delete 1 testTenantId)
                  [Runs; Runs; Refuses false] testDbReceived)
           None (snd (run (mutate 7 (Delete 1 testTenantId)) []
                          testDbReceived)) 2%nat false);
    [reflexivity | reflexivity | cbv; lia].
Defined.

(** ** The campaign handlers *)

Arguments updateCampaignRows : simpl never.
Arguments deleteCampaignRows : simpl never.

Lemma updateCampaignRow_id now input t c :
  Campaign.id (updateCampaignRow now input t c) = Campaign.id c.
Proof. unfold updateCampaignRow. destruct (campaignHit _ t c); reflexivity. Qed.

Lemma updateCampaignRow_tenantId now input t c :
  Campaign.tenantId (updateCampaignRow now input t c) = Campaign.tenantId c.
Proof. unfold updateCampaignRow. destruct (campaignHit _ t c); reflexivity. Qed.

Lemma campaignHit_iff i t c :
  campaignHit i t c = true <-> Campaign.id c = i /\ Campaign.tenantId c = t.
Proof. apply key_match. Qed.

Lemma campaignHit_updateCampaignRow now input t i c :
  campaignHit i t (updateCampaignRow now input t c) = campaignHit i t c.
Proof.
  unfold campaignHit.
  rewrite updateCampaignRow_id, updateCampaignRow_tenantId. reflexivity.
Qed.

Lemma updateCampaign_inr now input t faults db r db' :
  run (updateCampaign now input t) faults db = (inr r, db') ->
  db' = snd (updateCampaignRows now input t db)
  /\ exists rest, fst (updateCampaignRows now input t db) = r :: rest.
Proof.
  intros H. apply run_inv in H. destruct H as (fs' & H).
  unfold updateCampaign in H.
  apply bind_inr in H. destruct H as (result & [db1 fs1] & R1 & H).
  apply execute_inr in R1. cbn [fst snd] in R1. destruct R1 as (_ & -> & R1).
  inv R1.
  apply bind_inr in H. destruct H as (u & [db2 fs2] & R2 & H).
  unfold orNotFound in R2.
  destruct (fst (updateCampaignRows now input t db)) as [|c rest] eqn:E;
    inv R2.
  apply first_inr in H. destruct H as (H & rest' & Hr). inv H.
  split; [reflexivity|]. inv Hr. eauto.
Qed.

Lemma find_map_updateCampaignRow now input t k cs :
  find (fun c => Campaign.id c =? k) (map (updateCampaignRow now input t) cs)
  = option_map (updateCampaignRow now input t)
      (find (fun c => Campaign.id c =? k) cs).
Proof.
  induction cs as [|c cs IH]; simpl; [reflexivity|].
  rewrite updateCampaignRow_id.
  destruct (Campaign.id c =? k); [reflexivity | exact IH].
Qed.

(** C9, as the handlers have it.  [updateCampaign] is a second write path
    to [currentAmountRaised]: when it succeeds, it found a campaign [old] of
    the caller's tenant, whose stored total afterwards is the input's
    [currentAmountRaised] when the input carries one and the old total when
    it does not; the totals of the other campaigns and all donation rows are
    left as they were. *)
Theorem updateCampaign_sets_raised_when_given now input t faults db r db' :
  schemaOk db ->
  run (updateCampaign now input t) faults db = (inr r, db') ->
  exists old,
    In old (campaignsTable db)
    /\ Campaign.id old = UpdateCampaignInput.id input
    /\ Campaign.tenantId old = t
    /\ r = patchCampaign now input old
    /\ raised db (UpdateCampaignInput.id input)
       = Some (Campaign.currentAmountRaised old)
    /\ raised db' (UpdateCampaignInput.id input)
       = Some (orElse (UpdateCampaignInput.currentAmountRaised input)
                      (Campaign.currentAmountRaised old))
    /\ (UpdateCampaignInput.currentAmountRaised input = None ->
        raised db' (UpdateCampaignInput.id input)
        = raised db (UpdateCampaignInput.id input))
    /\ (forall k, k <> UpdateCampaignInput.id input ->
          raised db' k = raised db k)
    /\ donationsTable db' = donationsTable db.
Proof.
  intros OK H. apply updateCampaign_inr in H. destruct H as (-> & rest & Ret).
  assert (Ir : In r (fst (updateCampaignRows now input t db)))
    by (rewrite Ret; left; reflexivity).
  unfold updateCampaignRows in Ir. cbn [fst] in Ir.
  change (map _ (campaignsTable db))
    with (map (updateCampaignRow now input t) (campaignsTable db)) in Ir.
  apply filter_In in Ir. destruct Ir as (Ir & Hit).
  apply in_map_iff in Ir. destruct Ir as (old & <- & I).
  rewrite campaignHit_updateCampaignRow in Hit.
  assert (U : updateCampaignRow now input t old = patchCampaign now input old)
    by (unfold updateCampaignRow; rewrite Hit; reflexivity).
  apply campaignHit_iff in Hit. destruct Hit as (E & T).
  assert (F : find (fun c => Campaign.id c =? UpdateCampaignInput.id input)
                   (campaignsTable db) = Some old).
  { destruct (find _ (campaignsTable db)) as [c|] eqn:F.
    - apply find_id in F. destruct F as (Ic & Ec). f_equal.
      apply (nodup_key_eq Campaign.id (campaignsTable db));
        auto using campaign_ids_nodup. congruence.
    - exfalso. apply (find_none _ _ F) in I. rewrite E, Z.eqb_refl in I.
      discriminate I. }
  assert (R0 : raised db (UpdateCampaignInput.id input)
               = Some (Campaign.currentAmountRaised old))
    by (unfold raised; rewrite F; reflexivity).
  assert (R1 : raised (snd (updateCampaignRows now input t db))
                 (UpdateCampaignInput.id input)
               = Some (orElse (UpdateCampaignInput.currentAmountRaised input)
                              (Campaign.currentAmountRaised old))).
  { unfold raised, updateCampaignRows. cbn [snd campaignsTable].
    change (map _ (campaignsTable db))
      with (map (updateCampaignRow now input t) (campaignsTable db)).
    rewrite find_map_updateCampaignRow, F. cbn [option_map].
    rewrite U. reflexivity. }
  exists old. repeat (split; [assumption|]).
  split.
  { intros N. rewrite R1, R0, N. reflexivity. }
  split; [|reflexivity].
  intros k N. unfold raised, updateCampaignRows. cbn [snd campaignsTable].
  change (map _ (campaignsTable db))
    with (map (updateCampaignRow now input t) (campaignsTable db)).
  rewrite find_map_updateCampaignRow.
  destruct (find (fun c => Campaign.id c =? k) (campaignsTable db))
    as [c|] eqn:Fk; [|reflexivity].
  apply find_id in Fk. destruct Fk as (_ & Ek). cbn [option_map].
  unfold updateCampaignRow.
  destruct (campaignHit _ t c) eqn:Hc; [|reflexivity].
  apply campaignHit_iff in Hc. destruct Hc as (Hc & _). congruence.
Qed.

Lemma updateCampaign_sets_raised_when_given_witness :
  schemaOk testDbReceived
  /\ run (updateCampaign 8 (raisedPatch 1 2500000) testTenantId) []
         testDbReceived
     = (inr testCampaignOverwritten, testDbOverwritten)
  /\ raised testDbOverwritten 1 = Some 2500000
  /\ donationsTable testDbOverwritten = donationsTable testDbReceived.
Proof.
  assert (R : run (updateCampaign 8 (raisedPatch 1 2500000) testTenantId) []
                  testDbReceived
              = (inr testCampaignOverwritten, testDbOverwritten))
    by reflexivity.
  split; [exact testDbReceived_schemaOk|].
  split; [exact R|].
  destruct (updateCampaign_sets_raised_when_given 8 (raisedPatch 1 2500000)
              testTenantId [] testDbReceived testCampaignOverwritten
              testDbOverwritten testDbReceived_schemaOk R)
    as (old & _ & _ & _ & _ & _ & G & _ & _ & D).
  split; [exact G | exact D].
Defined.

(** [updateCampaign] with a [currentAmountRaised] of 25000.00 overwrites the
    total of a campaign whose donations sum to 100.50; no donation row
    changes. *)
Lemma updateCampaign_overwrites_raised_counterexample :
  run (updateCampaign 8 (raisedPatch 1 2500000) testTenantId) [] testDbReceived
  = (inr testCampaignOverwritten, testDbOverwritten)
  /\ raised testDbReceived 1 = Some 10050
  /\ receivedTotal (donationsTable testDbReceived) 1 = 10050
  /\ donationsTable testDbOverwritten = donationsTable testDbReceived
  /\ raised testDbOverwritten 1 = Some 2500000
  /\ raised testDbOverwritten 1 <> raised testDbReceived 1.
Proof. repeat split. intros H. discriminate H. Qed.

Lemma deleteCampaign_inr i t faults db u db' :
  run (deleteCampaign i t) faults db = (inr u, db') ->
  db' = snd (deleteCampaignRows i t db)
  /\ fst (deleteCampaignRows i t db) <> 0%nat.
Proof.
  intros H. apply run_inv in H. destruct H as (fs' & H).
  unfold deleteCampaign in H.
  apply bind_inr in H. destruct H as (n & [db1 fs1] & R1 & H).
  apply execute_inr in R1. cbn [fst snd] in R1. destruct R1 as (_ & -> & R1).
  inv R1.
  destruct (Nat.eqb _ 0) eqn:E; inv H.
  apply Nat.eqb_neq in E. auto.
Qed.

Lemma deleteCampaign_faultFree i t faults db :
  faultFree faults -> hasCampaign db i t ->
  run (deleteCampaign i t) faults db
  = (inr tt, snd (deleteCampaignRows i t db)).
Proof.
  intros F (c & I & E & T). eapply run_intro. unfold deleteCampaign.
  unfold bind at 1. rewrite execute_faultFree by assumption.
  unfold deleteCampaignRows at 1. cbn [fst].
  destruct (filter (campaignHit i t) (campaignsTable db)) as [|x l] eqn:Fl.
  - exfalso. assert (H : In c (filter (campaignHit i t) (campaignsTable db))).
    { apply filter_In. split; [exact I|]. apply campaignHit_iff. auto. }
    rewrite Fl in H. destruct H.
  - reflexivity.
Qed.

(** C10.  [deleteCampaign] on a stored campaign of the caller's tenant (the
    store refusing no statement) returns; and whenever it returns, it has
    removed the campaign rows with that id and tenant and nothing else: the
    other campaigns, the donors and every donation row are as before, so a
    donation naming the deleted campaign is still stored, still naming
    it. *)
Theorem deleteCampaign_leaves_donations i t faults db :
  (faultFree faults -> hasCampaign db i t ->
   fst (run (deleteCampaign i t) faults db) = inr tt)
  /\ forall u db',
       run (deleteCampaign i t) faults db = (inr u, db') ->
       hasCampaign db i t
       /\ (forall c, In c (campaignsTable db')
                     <-> In c (campaignsTable db)
                         /\ ~ (Campaign.id c = i /\ Campaign.tenantId c = t))
       /\ ~ hasCampaign db' i t
       /\ donationsTable db' = donationsTable db
       /\ donorsTable db' = donorsTable db
       /\ (forall d, In d (donationsTable db) ->
             Donation.campaignId d = Some i ->
             In d (donationsTable db') /\ Donation.campaignId d = Some i).
Proof.
  split.
  { intros F H. rewrite deleteCampaign_faultFree by assumption. reflexivity. }
  intros u db' H. apply deleteCampaign_inr in H. destruct H as (-> & N).
  unfold deleteCampaignRows in *. cbn [fst snd campaignsTable donationsTable
                                         donorsTable] in *.
  assert (In' : forall c,
             In c (filter (fun c => negb (campaignHit i t c))
                          (campaignsTable db))
             <-> In c (campaignsTable db)
                 /\ ~ (Campaign.id c = i /\ Campaign.tenantId c = t)).
  { intro c. rewrite filter_In, negb_true_iff, <- campaignHit_iff.
    destruct (campaignHit i t c); split; intros (I & H); split; auto;
      congruence. }
  split.
  { destruct (filter (campaignHit i t) (campaignsTable db)) as [|c l] eqn:Fl;
      [contradiction N; reflexivity|].
    assert (I : In c (filter (campaignHit i t) (campaignsTable db)))
      by (rewrite Fl; left; reflexivity).
    apply filter_In in I. destruct I as (I & Hc).
    apply campaignHit_iff in Hc. exists c. tauto. }
  split; [exact In'|].
  split.
  { intros (c & I & E). unfold campaignsTable in I at 1.
    apply In' in I. tauto. }
  repeat split; auto.
Qed.

Lemma deleteCampaign_leaves_donations_witness :
  faultFree []
  /\ hasCampaign testDbReceived 1 testTenantId
  /\ run (deleteCampaign 1 testTenantId) [] testDbReceived
     = (inr tt, testDbCampaignDeleted)
  /\ campaignsTable testDbCampaignDeleted = []
  /\ donationsTable testDbCampaignDeleted = [testDonation]
  /\ Donation.campaignId testDonation = Some 1.
Proof.
  assert (HC : hasCampaign testDbReceived 1 testTenantId).
  { eexists. split; [left; reflexivity|]. split; reflexivity. }
  assert (R : run (deleteCampaign 1 testTenantId) [] testDbReceived
              = (inr tt, testDbCampaignDeleted)) by reflexivity.
  destruct (deleteCampaign_leaves_donations 1 testTenantId [] testDbReceived)
    as (S & E).
  pose proof (S (Forall_nil _) HC) as S1.
  destruct (E tt testDbCampaignDeleted R) as (_ & _ & _ & D & _ & _).
  split; [constructor|]. split; [exact HC|]. split; [exact R|].
  split; [reflexivity|]. split; [exact D | reflexivity].
Defined.

(** ** Amounts: exact in the store, binary at the API *)

Lemma updateDonation_stored now input t faults db r db' :
  schemaOk db ->
  run (updateDonation now input t) faults db = (inr r, db') ->
  exists old,
    In old (donationsTable db)
    /\ Donation.id old = UpdateDonationInput.id input
    /\ Donation.tenantId old = t
    /\ r = patchDonation now input old
    /\ schemaOk db'
    /\ In r (donationsTable db')
    /\ donorsTable db' = donorsTable db
    /\ (forall i, UpdateDonationInput.donorId input = Some i -> i <> 0 ->
          hasDonor db i t).
Proof.
  intros OK H. apply updateDonation_inr in H.
  destruct H as (old & rest & Sel & VD & _ & (rest' & Ret) & ->).
  assert (I : In old (fst (selectDonations (UpdateDonationInput.id input) t db)))
    by (rewrite Sel; left; reflexivity).
  apply selectDonations_id in I. destruct I as (I & E & T).
  rewrite (updateDonationRows_returning now input db old OK I E) in Ret.
  injection Ret as <- _.
  exists old. repeat (split; [assumption|]).
  split; [reflexivity|]. unfold updateDonationWrites.
  split; [apply settle_schemaOk, settle_schemaOk,
            updateDonationRows_schemaOk, OK|].
  split.
  { rewrite !settle_donations, updateDonationRows_table.
    rewrite <- (updateRow_hit now input old E). apply in_map. exact I. }
  split; [rewrite !settle_donors; reflexivity|].
  intros i Hi Ni. apply selectDonors_hasDonor. auto.
Qed.










(** * Reads, the campaign handlers and both routers together *)

(** ** Ordering *)

Lemma insertBy_perm {A} (le : A -> A -> bool) x l :
  Permutation (insertBy le x l) (x :: l).
Proof.
  induction l as [|y l IH]; simpl; [reflexivity|].
  destruct (le x y); [reflexivity|].
  rewrite IH. apply perm_swap.
Qed.

Lemma orderBy_perm {A} (le : A -> A -> bool) l :
  Permutation (orderBy le l) l.
Proof.
  induction l as [|x l IH]; simpl; [reflexivity|].
  rewrite insertBy_perm. constructor. exact IH.
Qed.

Lemma orderBy_In {A} (le : A -> A -> bool) l x :
  In x (orderBy le l) <-> In x l.
Proof.
  split; apply Permutation_in;
    [apply orderBy_perm | symmetry; apply orderBy_perm].
Qed.

Lemma insertBy_sorted {A} (le : A -> A -> bool) x l :
  (forall a b, le a b = false -> le b a = true) ->
  (forall a b c, le a b = true -> le b c = true -> le a c = true) ->
  StronglySorted (fun a b => le a b = true) l ->
  StronglySorted (fun a b => le a b = true) (insertBy le x l).
Proof.
  intros Tot Tr. induction l as [|y l IH]; simpl; intros S.
  - repeat constructor.
  - inversion S as [|? ? S' F]; subst.
    destruct (le x y) eqn:E.
    + constructor; [exact S|]. constructor; [exact E|].
      rewrite Forall_forall in *. intros z Iz. eauto.
    + constructor; [auto|].
      rewrite Forall_forall in *. intros z Iz.
      apply (Permutation_in _ (insertBy_perm le x l)) in Iz.
      destruct Iz as [<-|Iz]; auto.
Qed.

Lemma orderBy_sorted {A} (le : A -> A -> bool) l :
  (forall a b, le a b = false -> le b a = true) ->
  (forall a b c, le a b = true -> le b c = true -> le a c = true) ->
  StronglySorted (fun a b => le a b = true) (orderBy le l).
Proof.
  intros Tot Tr. induction l as [|x l IH]; simpl; [constructor|].
  apply insertBy_sorted; assumption.
Qed.

Lemma dateDesc_total a b : dateDesc a b = false -> dateDesc b a = true.
Proof. unfold dateDesc. rewrite Z.leb_gt, Z.leb_le. lia. Qed.

Lemma dateDesc_trans a b c :
  dateDesc a b = true -> dateDesc b c = true -> dateDesc a c = true.
Proof. unfold dateDesc. rewrite !Z.leb_le. lia. Qed.

(** ** Runs of the read handlers *)

Lemma firstOrNull_run {A B} (f : A -> B) (rows : list A) c :
  firstOrNull f rows c = (inr (option_map f (hd_error rows)), c).
Proof. destruct rows; reflexivity. Qed.

Lemma read_faultFree {A B} (stmt : Db -> list A * Db) (f : A -> B) faults db :
  readOnly stmt -> faultFree faults ->
  run (rows <- execute stmt ;; firstOrNull f rows) faults db
  = (inr (option_map f (hd_error (fst (stmt db)))), db).
Proof.
  intros RO F. eapply run_intro. unfold bind.
  rewrite execute_faultFree by assumption. rewrite RO, firstOrNull_run.
  reflexivity.
Qed.

Lemma read_unchanged {A B} (stmt : Db -> list A * Db) (f : A -> B)
    faults db r db' :
  readOnly stmt ->
  run (rows <- execute stmt ;; firstOrNull f rows) faults db = (r, db') ->
  db' = db.
Proof.
  intros RO H. apply run_inv in H. destruct H as (fs' & H).
  unfold bind in H. rewrite execute_eq in H. cbn [fst snd] in H.
  destruct (refused faults).
  - inv H. reflexivity.
  - rewrite RO, firstOrNull_run in H. inv H. reflexivity.
Qed.

Lemma selectJoinedById_readOnly i t : readOnly (selectJoinedById i t).
Proof. intro db. reflexivity. Qed.

Lemma leftJoinCampaign_In db d donor r :
  In r (leftJoinCampaign db d donor) -> fst r = (d, donor).
Proof.
  unfold leftJoinCampaign. destruct (filter _ (campaignsTable db)) as [|c cs].
  - intros [<-|[]]. reflexivity.
  - intros I. apply in_map_iff in I. destruct I as (c0 & <- & _). reflexivity.
Qed.

Lemma leftJoinCampaign_nonempty db d donor :
  exists r, In r (leftJoinCampaign db d donor).
Proof.
  unfold leftJoinCampaign. destruct (filter _ (campaignsTable db)) as [|c cs].
  - eexists. left. reflexivity.
  - eexists. left. reflexivity.
Qed.

Lemma donationsJoined_In db r :
  In r (donationsJoined db) ->
  In (joinedDonation r) (donationsTable db)
  /\ In (snd (fst r)) (donorsTable db)
  /\ Donor.id (snd (fst r)) = Donation.donorId (joinedDonation r).
Proof.
  unfold donationsJoined. rewrite in_flat_map. intros (d & Id & I).
  apply in_flat_map in I. destruct I as (donor & Idonor & I).
  apply filter_In in Idonor. destruct Idonor as (Idonor & E).
  apply Z.eqb_eq in E. apply leftJoinCampaign_In in I.
  unfold joinedDonation. rewrite I. simpl. auto.
Qed.

Lemma donationsJoined_covers db d donor :
  In d (donationsTable db) -> In donor (donorsTable db) ->
  Donor.id donor = Donation.donorId d ->
  exists r, In r (donationsJoined db) /\ joinedDonation r = d.
Proof.
  intros Id Idonor E.
  destruct (leftJoinCampaign_nonempty db d donor) as (r & Ir).
  exists r. split.
  - unfold donationsJoined. apply in_flat_map. exists d. split; [exact Id|].
    apply in_flat_map. exists donor. split; [|exact Ir].
    apply filter_In. split; [exact Idonor|]. apply Z.eqb_eq. auto.
  - unfold joinedDonation. rewrite (leftJoinCampaign_In _ _ _ _ Ir).
    reflexivity.
Qed.

Lemma getDonationById_faultFree i t faults db :
  faultFree faults ->
  run (getDonationById i t) faults db
  = (inr (option_map joinedDonation
            (hd_error (fst (selectJoinedById i t db)))), db).
Proof.
  intros F. unfold getDonationById.
  apply read_faultFree; [apply selectJoinedById_readOnly | exact F].
Qed.

Lemma selectJoinedById_In i t db r :
  In r (fst (selectJoinedById i t db)) ->
  In (joinedDonation r) (donationsTable db)
  /\ Donation.id (joinedDonation r) = i
  /\ Donation.tenantId (joinedDonation r) = t
  /\ donorRowOf db (joinedDonation r).
Proof.
  unfold selectJoinedById. cbn [fst]. rewrite filter_In.
  intros (I & H). apply key_match in H. destruct H as (E & T).
  apply donationsJoined_In in I. destruct I as (Id & Idonor & Ed).
  unfold donorRowOf. eauto 6.
Qed.

Lemma selectJoinedById_found i t db d :
  In d (donationsTable db) -> Donation.id d = i -> Donation.tenantId d = t ->
  donorRowOf db d ->
  exists r rest, fst (selectJoinedById i t db) = r :: rest.
Proof.
  intros Id E T (donor & Idonor & Ed).
  destruct (donationsJoined_covers db d donor Id Idonor Ed) as (r & Ir & Er).
  destruct (fst (selectJoinedById i t db)) as [|x rest] eqn:S; [|eauto].
  exfalso. assert (I : In r (fst (selectJoinedById i t db))).
  { unfold selectJoinedById. cbn [fst]. apply filter_In.
    split; [exact Ir|]. rewrite Er. apply key_match. auto. }
  rewrite S in I. destruct I.
Qed.

Lemma hd_error_In {A} (l : list A) x : hd_error l = Some x -> In x l.
Proof. destruct l; [discriminate | intros [= ->]; left; reflexivity]. Qed.

(** X1.  With unique donation ids and a store that refuses no statement,
    [getDonationById] leaves the database as it was and answers the stored
    donation of that id and tenant, provided a donor row with the donation's
    [donorId] exists (the query joins the donors); in every other case it
    answers [null]. *)
Theorem getDonationById_answers i t faults db :
  schemaOk db ->
  faultFree faults ->
  exists r,
    run (getDonationById i t) faults db = (inr r, db)
    /\ (forall d,
          r = Some d
          <-> In d (donationsTable db) /\ Donation.id d = i
              /\ Donation.tenantId d = t /\ donorRowOf db d).
Proof.
  intros OK F. rewrite getDonationById_faultFree by exact F.
  eexists. split; [reflexivity|]. intro d. split.
  - destruct (hd_error _) as [x|] eqn:H; [|discriminate].
    intros [= <-]. apply hd_error_In in H.
    apply selectJoinedById_In. exact H.
  - intros (Id & E & T & D).
    destruct (selectJoinedById_found i t db d Id E T D) as (x & rest & S).
    rewrite S. cbn. f_equal.
    assert (Ix : In x (fst (selectJoinedById i t db)))
      by (rewrite S; left; reflexivity).
    apply selectJoinedById_In in Ix. destruct Ix as (Ix & Ex & _).
    apply (nodup_key_eq Donation.id (donationsTable db));
      auto using donation_ids_nodup. congruence.
Qed.

Lemma getDonationById_answers_witness :
  schemaOk testDbReceived
  /\ faultFree []
  /\ run (getDonationById 1 testTenantId) [] testDbReceived
     = (inr (Some testDonation), testDbReceived)
  /\ run (getDonationById 1 otherTenantId) [] testDbReceived
     = (inr None, testDbReceived).
Proof.
  split; [exact testDbReceived_schemaOk|]. split; [constructor|].
  destruct (getDonationById_answers 1 testTenantId [] testDbReceived
              testDbReceived_schemaOk (Forall_nil _)) as (r & R & H).
  split; [|reflexivity].
  rewrite R. f_equal. f_equal. apply H.
  split; [left; reflexivity|]. split; [reflexivity|]. split; [reflexivity|].
  eexists. split; [left; reflexivity | reflexivity].
Defined.

Lemma getDonationById_some i t faults db d :
  schemaOk db -> faultFree faults ->
  In d (donationsTable db) -> Donation.id d = i -> Donation.tenantId d = t ->
  donorRowOf db d ->
  run (getDonationById i t) faults db = (inr (Some d), db).
Proof.
  intros OK F Id E T D. rewrite getDonationById_faultFree by exact F.
  destruct (selectJoinedById_found i t db d Id E T D) as (x & rest & S).
  rewrite S. cbn. do 3 f_equal.
  assert (Ix : In x (fst (selectJoinedById i t db)))
    by (rewrite S; left; reflexivity).
  apply selectJoinedById_In in Ix. destruct Ix as (Ix & Ex & _).
  apply (nodup_key_eq Donation.id (donationsTable db));
    auto using donation_ids_nodup. congruence.
Qed.

Lemma getDonationById_none i t faults db :
  faultFree faults ->
  (forall d, In d (donationsTable db) -> Donation.id d = i ->
     Donation.tenantId d = t -> ~ donorRowOf db d) ->
  run (getDonationById i t) faults db = (inr None, db).
Proof.
  intros F N. rewrite getDonationById_faultFree by exact F.
  destruct (hd_error _) as [x|] eqn:H; [|reflexivity].
  exfalso. apply hd_error_In, selectJoinedById_In in H.
  destruct H as (Ix & E & T & D). exact (N _ Ix E T D).
Qed.

Lemma hasDonor_donorRow db (d : Donation.t) t :
  hasDonor db (Donation.donorId d) t -> donorRowOf db d.
Proof. intros (r & I & E & _). exists r. auto. Qed.

(** X2.  Create, then read: the donation that a successful [createDonation]
    returns is what [getDonationById] answers afterwards for the returned id
    and the input's tenant, and another tenant gets [null] for that id. *)
Theorem createDonation_then_getDonationById
    now input faults db d db' faults' :
  schemaOk db ->
  run (createDonation now input) faults db = (inr d, db') ->
  faultFree faults' ->
  run (getDonationById (Donation.id d) (CreateDonationInput.tenantId input))
      faults' db'
  = (inr (Some d), db')
  /\ forall t, t <> CreateDonationInput.tenantId input ->
       run (getDonationById (Donation.id d) t) faults' db' = (inr None, db').
Proof.
  intros OK H F. apply createDonation_inr in H.
  destruct H as (ND & _ & I & ->).
  unfold insertDonation in I. cbn [fst] in I. injection I as <-.
  set (d := Donation.mk _ _ _ _ _ _ _ _ _ _ _ _).
  set (db1 := snd (insertDonation now input db)).
  assert (OK1 : schemaOk (settle now (CreateDonationInput.campaignId input)
                            (CreateDonationInput.status input)
                            (CreateDonationInput.amount input) db1))
    by (apply settle_schemaOk, insertDonation_schemaOk, OK).
  assert (Id : In d (donationsTable
                       (settle now (CreateDonationInput.campaignId input)
                          (CreateDonationInput.status input)
                          (CreateDonationInput.amount input) db1))).
  { rewrite settle_donations. unfold db1, insertDonation.
    cbn [snd donationsTable]. apply in_or_app. right. left. reflexivity. }
  split.
  - apply getDonationById_some; auto.
    apply selectDonors_hasDonor in ND. destruct ND as (r & Ir & E & _).
    exists r. rewrite settle_donors. auto.
  - intros t Nt. apply getDonationById_none; [exact F|].
    intros x Ix Ex Tx _. apply Nt.
    assert (x = d).
    { apply (nodup_key_eq Donation.id _ x d (donation_ids_nodup _ OK1));
        auto. }
    subst x. rewrite <- Tx. reflexivity.
Qed.

Lemma createDonation_then_getDonationById_witness :
  schemaOk testDb
  /\ run (createDonation 5 testReceivedInput) [] testDb
     = (inr testDonation, testDbReceived)
  /\ faultFree []
  /\ run (getDonationById 1 testTenantId) [] testDbReceived
     = (inr (Some testDonation), testDbReceived).
Proof.
  assert (R : run (createDonation 5 testReceivedInput) [] testDb
              = (inr testDonation, testDbReceived)) by reflexivity.
  split; [exact testDb_schemaOk|]. split; [exact R|]. split; [constructor|].
  exact (proj1 (createDonation_then_getDonationById 5 testReceivedInput []
                  testDb testDonation testDbReceived [] testDb_schemaOk R
                  (Forall_nil _))).
Defined.

(** X3.  Delete, then read: after a successful [deleteDonation] of id [i],
    [getDonationById] answers [null] for [i], whichever tenant asks. *)
Theorem deleteDonation_then_getDonationById now i t faults db u db' faults' t' :
  run (deleteDonation now i t) faults db = (inr u, db') ->
  faultFree faults' ->
  run (getDonationById i t') faults' db' = (inr None, db').
Proof.
  intros H F. apply deleteDonation_inr in H.
  destruct H as (d & rest & Sel & ->).
  assert (E : Donation.id d = i).
  { apply (selectDonations_id i t db). rewrite Sel. left. reflexivity. }
  apply getDonationById_none; [exact F|].
  intros x Ix Ex _ _. unfold deleteDonationWrites in Ix.
  rewrite settle_donations in Ix. unfold deleteDonationRows in Ix.
  cbn [snd donationsTable] in Ix. apply filter_In in Ix.
  destruct Ix as (_ & N). rewrite E, Ex, Z.eqb_refl in N. discriminate N.
Qed.

Lemma deleteDonation_then_getDonationById_witness :
  run (deleteDonation 6 1 testTenantId) [] testDbReceived
  = (inr tt, snd (run (deleteDonation 6 1 testTenantId) [] testDbReceived))
  /\ faultFree []
  /\ fst (run (getDonationById 1 testTenantId) []
            (snd (run (deleteDonation 6 1 testTenantId) [] testDbReceived)))
     = inr None.
Proof.
  assert (R : run (deleteDonation 6 1 testTenantId) [] testDbReceived
              = (inr tt,
                 snd (run (deleteDonation 6 1 testTenantId) []
                          testDbReceived))) by reflexivity.
  split; [exact R|]. split; [constructor|].
  rewrite (deleteDonation_then_getDonationById 6 1 testTenantId []
             testDbReceived tt _ [] testTenantId R (Forall_nil _)).
  reflexivity.
Defined.

(** X4.  Update, then read: when every stored donation has its donor and the
    patch does not carry the donor id 0, the donation that a successful
    [updateDonation] returns is what [getDonationById] answers afterwards. *)
Theorem updateDonation_then_getDonationById
    now input t faults db r db' faults' :
  schemaOk db ->
  donorsKnown db ->
  UpdateDonationInput.donorId input <> Some 0 ->
  run (updateDonation now input t) faults db = (inr r, db') ->
  faultFree faults' ->
  run (getDonationById (UpdateDonationInput.id input) t) faults' db'
  = (inr (Some r), db').
Proof.
  intros OK DK N0 H F.
  destruct (updateDonation_stored _ _ _ _ _ _ _ OK H)
    as (old & Io & E & T & -> & OK' & Ir & Dn & V).
  apply getDonationById_some; auto.
  unfold donorRowOf. rewrite Dn. cbn.
  destruct (UpdateDonationInput.donorId input) as [i|] eqn:P; cbn.
  - assert (Ni : i <> 0) by congruence.
    destruct (V i eq_refl Ni) as (x & Ix & Ex & _). eauto.
  - destruct (DK old Io) as (x & Ix & Ex & _). eauto.
Qed.

Lemma testDbReceived_donorsKnown : donorsKnown testDbReceived.
Proof.
  intros d [<-|[]]. eexists. split; [left; reflexivity|].
  split; reflexivity.
Qed.

Lemma updateDonation_then_getDonationById_witness :
  schemaOk testDbReceived
  /\ donorsKnown testDbReceived
  /\ UpdateDonationInput.donorId (statusPatch 1 Cancelled) <> Some 0
  /\ run (updateDonation 6 (statusPatch 1 Cancelled) testTenantId) []
         testDbReceived
     = (inr testDonationCancelled, testDbCancelled)
  /\ faultFree []
  /\ run (getDonationById 1 testTenantId) [] testDbCancelled
     = (inr (Some testDonationCancelled), testDbCancelled).
Proof.
  assert (R : run (updateDonation 6 (statusPatch 1 Cancelled) testTenantId) []
                  testDbReceived
              = (inr testDonationCancelled, testDbCancelled)) by reflexivity.
  assert (N : UpdateDonationInput.donorId (statusPatch 1 Cancelled) <> Some 0)
    by discriminate.
  split; [exact testDbReceived_schemaOk|].
  split; [exact testDbReceived_donorsKnown|].
  split; [exact N|]. split; [exact R|]. split; [constructor|].
  exact (updateDonation_then_getDonationById 6 (statusPatch 1 Cancelled)
           testTenantId [] testDbReceived testDonationCancelled
           testDbCancelled [] testDbReceived_schemaOk
           testDbReceived_donorsKnown N R (Forall_nil _)).
Defined.

(** X5.  A donor id of 0 in a patch is falsy: [updateDonation] skips the
    donor lookup and still writes the 0.  As no donor has id 0, the donation
    stays stored under its id but [getDonationById] answers [null] for it
    from then on. *)
Theorem updateDonation_donor_zero_hides_donation
    now input t faults db r db' faults' :
  schemaOk db ->
  (forall x, In x (donorsTable db) -> Donor.id x <> 0) ->
  UpdateDonationInput.donorId input = Some 0 ->
  run (updateDonation now input t) faults db = (inr r, db') ->
  faultFree faults' ->
  Donation.donorId r = 0
  /\ donationById db' (UpdateDonationInput.id input) = Some r
  /\ run (getDonationById (UpdateDonationInput.id input) t) faults' db'
     = (inr None, db').
Proof.
  intros OK NZ P H F.
  destruct (updateDonation_stored _ _ _ _ _ _ _ OK H)
    as (old & Io & E & T & -> & OK' & Ir & Dn & _).
  assert (D0 : Donation.donorId (patchDonation now input old) = 0)
    by (cbn; rewrite P; reflexivity).
  split; [exact D0|]. split.
  - unfold donationById.
    destruct (find _ (donationsTable db')) as [x|] eqn:Fx.
    + apply find_id in Fx. destruct Fx as (Ix & Ex). f_equal.
      apply (nodup_key_eq Donation.id (donationsTable db'));
        auto using donation_ids_nodup. rewrite Ex. cbn. auto.
    + exfalso. apply (find_none _ _ Fx) in Ir. cbn in Ir.
      rewrite E, Z.eqb_refl in Ir. discriminate Ir.
  - apply getDonationById_none; [exact F|].
    intros x Ix Ex _ (donor & Idonor & Ed).
    assert (x = patchDonation now input old).
    { apply (nodup_key_eq Donation.id (donationsTable db'));
        auto using donation_ids_nodup. rewrite Ex. cbn. auto. }
    subst x. rewrite Dn in Idonor. apply (NZ donor Idonor). congruence.
Qed.

Lemma updateDonation_donor_zero_hides_donation_witness :
  schemaOk testDbReceived
  /\ (forall x, In x (donorsTable testDbReceived) -> Donor.id x <> 0)
  /\ UpdateDonationInput.donorId testDonorZeroPatch = Some 0
  /\ run (updateDonation 6 testDonorZeroPatch testTenantId) [] testDbReceived
     = (inr (patchDonation 6 testDonorZeroPatch testDonation), testDbDonorZero)
  /\ faultFree []
  /\ donationById testDbDonorZero 1
     = Some (patchDonation 6 testDonorZeroPatch testDonation)
  /\ run (getDonationById 1 testTenantId) [] testDbDonorZero
     = (inr None, testDbDonorZero).
Proof.
  assert (R : run (updateDonation 6 testDonorZeroPatch testTenantId) []
                  testDbReceived
              = (inr (patchDonation 6 testDonorZeroPatch testDonation),
                 testDbDonorZero)) by reflexivity.
  assert (NZ : forall x, In x (donorsTable testDbReceived) -> Donor.id x <> 0).
  { intros x [<-|[]]. discriminate. }
  split; [exact testDbReceived_schemaOk|]. split; [exact NZ|].
  split; [reflexivity|]. split; [exact R|]. split; [constructor|].
  destruct (updateDonation_donor_zero_hides_donation 6 testDonorZeroPatch
              testTenantId [] testDbReceived _ testDbDonorZero []
              testDbReceived_schemaOk NZ eq_refl R (Forall_nil _))
    as (_ & A & B).
  split; [exact A | exact B].
Defined.

(** ** Listings by donor and by campaign *)

Lemma listing_faultFree {A B} (e : Entity) (check : Db -> list A * Db)
    (stmt : Db -> B * Db) faults db :
  readOnly check -> readOnly stmt -> faultFree faults ->
  run (rows <- execute check ;; orNotFound e rows ;;; execute stmt) faults db
  = match fst (check db) with
    | [] => (inl (NotFound e), db)
    | _ :: _ => (inr (fst (stmt db)), db)
    end.
Proof.
  intros RC RS F. unfold run. unfold bind at 1.
  rewrite execute_faultFree by assumption. rewrite RC.
  destruct (fst (check db)) as [|x l]; [reflexivity|].
  unfold bind, orNotFound, ret.
  rewrite execute_faultFree by auto using faultFree_tl.
  rewrite RS. reflexivity.
Qed.

Lemma listing_unchanged {A B} (e : Entity) (check : Db -> list A * Db)
    (stmt : Db -> B * Db) faults db r db' :
  readOnly check -> readOnly stmt ->
  run (rows <- execute check ;; orNotFound e rows ;;; execute stmt) faults db
  = (r, db') ->
  db' = db.
Proof.
  intros RC RS H. apply run_inv in H. destruct H as (fs' & H).
  unfold bind at 1 in H. rewrite execute_eq in H. cbn [fst snd] in H.
  destruct (refused faults); [inv H; reflexivity|].
  rewrite RC in H. destruct (fst (check db)) as [|x l]; [inv H; reflexivity|].
  unfold bind, orNotFound, ret in H. rewrite execute_eq in H.
  cbn [fst snd] in H. destruct (refused (tl faults)); inv H; auto.
Qed.

Lemma selectDonationsByDonor_readOnly i t :
  readOnly (selectDonationsByDonor i t).
Proof. intro db. reflexivity. Qed.

Lemma selectDonationsByCampaign_readOnly k t :
  readOnly (selectDonationsByCampaign k t).
Proof. intro db. reflexivity. Qed.

Lemma StronglySorted_weaken {A} (R Q : A -> A -> Prop) l :
  (forall a b, R a b -> Q a b) ->
  StronglySorted R l -> StronglySorted Q l.
Proof.
  intros W. induction 1 as [|a l S IH Fa]; constructor; auto.
  eapply Forall_impl; [|exact Fa]. auto.
Qed.

Lemma orderBy_dateDesc_sorted l :
  StronglySorted (fun a b => Donation.date b <= Donation.date a)
    (orderBy dateDesc l).
Proof.
  apply StronglySorted_weaken with (R := fun a b => dateDesc a b = true).
  - intros a b H. apply Z.leb_le. exact H.
  - apply orderBy_sorted; [exact dateDesc_total | exact dateDesc_trans].
Qed.

(** X6.  [getDonationsByDonor] never changes the database.  With a store
    that refuses no statement it fails with "donor not found" when the donor
    does not resolve in the caller's tenant, and otherwise answers the
    stored donations of that donor and tenant, each once, latest date
    first. *)
Theorem getDonationsByDonor_lists i t faults db :
  (forall r db', run (getDonationsByDonor i t) faults db = (r, db') ->
     db' = db)
  /\ (faultFree faults -> ~ hasDonor db i t ->
      run (getDonationsByDonor i t) faults db = (inl (NotFound DonorE), db))
  /\ (faultFree faults -> hasDonor db i t ->
      exists rows,
        run (getDonationsByDonor i t) faults db = (inr rows, db)
        /\ Permutation rows
             (filter (fun d => (Donation.donorId d =? i)
                               && String.eqb (Donation.tenantId d) t)
                     (donationsTable db))
        /\ (forall d, In d rows
                      <-> In d (donationsTable db)
                          /\ Donation.donorId d = i
                          /\ Donation.tenantId d = t)
        /\ StronglySorted
             (fun a b => Donation.date b <= Donation.date a) rows).
Proof.
  unfold getDonationsByDonor. split; [|split].
  - intros r db'. apply listing_unchanged;
      auto using selectDonors_readOnly, selectDonationsByDonor_readOnly.
  - intros F N.
    rewrite (listing_faultFree DonorE (selectDonors i t)
               (selectDonationsByDonor i t))
      by auto using selectDonors_readOnly, selectDonationsByDonor_readOnly.
    apply (not_resolved _ _ (selectDonors_hasDonor db i t)) in N.
    rewrite N. reflexivity.
  - intros F H.
    rewrite (listing_faultFree DonorE (selectDonors i t)
               (selectDonationsByDonor i t))
      by auto using selectDonors_readOnly, selectDonationsByDonor_readOnly.
    apply selectDonors_hasDonor in H.
    destruct (fst (selectDonors i t db)) as [|x l]; [congruence|].
    eexists. split; [reflexivity|].
    unfold selectDonationsByDonor. cbn [fst].
    split; [apply orderBy_perm|]. split.
    + intro d. rewrite orderBy_In, filter_In, key_match. tauto.
    + apply orderBy_dateDesc_sorted.
Qed.

Lemma getDonationsByDonor_lists_witness :
  faultFree []
  /\ hasDonor testDbReceived 1 testTenantId
  /\ ~ hasDonor testDbReceived 1 otherTenantId
  /\ run (getDonationsByDonor 1 testTenantId) [] testDbReceived
     = (inr [testDonation], testDbReceived)
  /\ run (getDonationsByDonor 1 otherTenantId) [] testDbReceived
     = (inl (NotFound DonorE), testDbReceived).
Proof.
  assert (H : hasDonor testDbReceived 1 testTenantId).
  { eexists. split; [left; reflexivity|]. split; reflexivity. }
  assert (N : ~ hasDonor testDbReceived 1 otherTenantId).
  { intros (r & [<-|[]] & _ & E). discriminate E. }
  split; [constructor|]. split; [exact H|]. split; [exact N|].
  destruct (getDonationsByDonor_lists 1 otherTenantId [] testDbReceived)
    as (_ & A & _).
  destruct (getDonationsByDonor_lists 1 testTenantId [] testDbReceived)
    as (_ & _ & B).
  destruct (B (Forall_nil _) H) as (rows & R & _).
  split; [reflexivity | exact (A (Forall_nil _) N)].
Defined.

Lemma campaignIdIs_iff k d :
  campaignIdIs k d = true <-> Donation.campaignId d = Some k.
Proof.
  unfold campaignIdIs. destruct (Donation.campaignId d) as [c|].
  - rewrite Z.eqb_eq. split; congruence.
  - split; discriminate.
Qed.

(** X7.  [getDonationsByCampaign] never changes the database.  With a store
    that refuses no statement it fails with "campaign not found" when the
    campaign does not resolve in the caller's tenant, and otherwise answers
    the stored donations of the tenant that name the campaign, each once,
    latest date first. *)
Theorem getDonationsByCampaign_lists k t faults db :
  (forall r db', run (getDonationsByCampaign k t) faults db = (r, db') ->
     db' = db)
  /\ (faultFree faults -> ~ hasCampaign db k t ->
      run (getDonationsByCampaign k t) faults db
      = (inl (NotFound CampaignE), db))
  /\ (faultFree faults -> hasCampaign db k t ->
      exists rows,
        run (getDonationsByCampaign k t) faults db = (inr rows, db)
        /\ Permutation rows
             (filter (fun d => campaignIdIs k d
                               && String.eqb (Donation.tenantId d) t)
                     (donationsTable db))
        /\ (forall d, In d rows
                      <-> In d (donationsTable db)
                          /\ Donation.campaignId d = Some k
                          /\ Donation.tenantId d = t)
        /\ StronglySorted
             (fun a b => Donation.date b <= Donation.date a) rows).
Proof.
  unfold getDonationsByCampaign. split; [|split].
  - intros r db'. apply listing_unchanged;
      auto using selectCampaigns_readOnly, selectDonationsByCampaign_readOnly.
  - intros F N.
    rewrite (listing_faultFree CampaignE (selectCampaigns k t)
               (selectDonationsByCampaign k t))
      by auto using selectCampaigns_readOnly,
                    selectDonationsByCampaign_readOnly.
    apply (not_resolved _ _ (selectCampaigns_hasCampaign db k t)) in N.
    rewrite N. reflexivity.
  - intros F H.
    rewrite (listing_faultFree CampaignE (selectCampaigns k t)
               (selectDonationsByCampaign k t))
      by auto using selectCampaigns_readOnly,
                    selectDonationsByCampaign_readOnly.
    apply selectCampaigns_hasCampaign in H.
    destruct (fst (selectCampaigns k t db)) as [|x l]; [congruence|].
    eexists. split; [reflexivity|].
    unfold selectDonationsByCampaign. cbn [fst].
    split; [apply orderBy_perm|]. split.
    + intro d.
      rewrite orderBy_In, filter_In, andb_true_iff, campaignIdIs_iff,
        String.eqb_eq. tauto.
    + apply orderBy_dateDesc_sorted.
Qed.

Lemma getDonationsByCampaign_lists_witness :
  faultFree []
  /\ hasCampaign testDbReceived 1 testTenantId
  /\ ~ hasCampaign testDbReceived 999 testTenantId
  /\ run (getDonationsByCampaign 1 testTenantId) [] testDbReceived
     = (inr [testDonation], testDbReceived)
  /\ run (getDonationsByCampaign 999 testTenantId) [] testDbReceived
     = (inl (NotFound CampaignE), testDbReceived).
Proof.
  assert (H : hasCampaign testDbReceived 1 testTenantId).
  { eexists. split; [left; reflexivity|]. split; reflexivity. }
  assert (N : ~ hasCampaign testDbReceived 999 testTenantId).
  { intros (r & [<-|[]] & E & _). discriminate E. }
  split; [constructor|]. split; [exact H|]. split; [exact N|].
  destruct (getDonationsByCampaign_lists 999 testTenantId [] testDbReceived)
    as (_ & A & _).
  destruct (getDonationsByCampaign_lists 1 testTenantId [] testDbReceived)
    as (_ & _ & B).
  destruct (B (Forall_nil _) H) as (rows & R & _).
  split; [reflexivity | exact (A (Forall_nil _) N)].
Defined.

(** ** Reading a campaign *)

Lemma getCampaignById_faultFree i t faults db :
  faultFree faults ->
  run (getCampaignById i t) faults db
  = (inr (hd_error (fst (selectCampaigns i t db))), db).
Proof.
  intros F. unfold getCampaignById.
  rewrite read_faultFree by auto using selectCampaigns_readOnly.
  destruct (hd_error _); reflexivity.
Qed.

Lemma selectCampaigns_In i t db c :
  In c (fst (selectCampaigns i t db))
  <-> In c (campaignsTable db) /\ Campaign.id c = i /\ Campaign.tenantId c = t.
Proof.
  unfold selectCampaigns. cbn [fst]. rewrite filter_In, key_match. tauto.
Qed.

(** ** The campaign handlers *)

Lemma createCampaign_inr now input faults db c db' :
  run (createCampaign now input) faults db = (inr c, db') ->
  fst (insertCampaign now input db) = [c]
  /\ db' = snd (insertCampaign now input db).
Proof.
  intros H. apply run_inv in H. destruct H as (fs' & H).
  unfold createCampaign in H.
  apply bind_inr in H. destruct H as (result & [db1 fs1] & R1 & H).
  apply executeInsert_inr in R1. cbn [fst snd] in R1.
  destruct R1 as (_ & -> & R1).
  inv R1. apply first_inr in H. destruct H as (H & rest & E). inv H.
  unfold insertCampaign in *. cbn [fst snd] in *. inv E. auto.
Qed.

Lemma insertCampaign_schemaOk now input db :
  schemaOk db -> 1 <= campaigns_id_seq db ->
  schemaOk (snd (insertCampaign now input db)).
Proof.
  intros [N1 S1 N2 S2 P] Q. split; try assumption; simpl.
  - rewrite map_app. simpl.
    apply NoDup_app; [exact N1 | repeat constructor; intros [] |].
    intros i Ii [<-|[]]. apply in_map_iff in Ii. destruct Ii as (x & E & Ix).
    specialize (S1 x Ix). lia.
  - intros c Ic. apply in_app_iff in Ic. destruct Ic as [Ic|[<-|[]]].
    + specialize (S1 c Ic). lia.
    + simpl. lia.
Qed.



Lemma deleteCampaign_gone i t db :
  fst (selectCampaigns i t (snd (deleteCampaignRows i t db))) = [].
Proof.
  apply (proj2 (not_resolved _ _ (selectCampaigns_hasCampaign _ i t))).
  intros (c & I & E & T). unfold deleteCampaignRows in I.
  cbn [snd campaignsTable] in I. apply filter_In in I. destruct I as (_ & N).
  assert (H : campaignHit i t c = true) by (apply campaignHit_iff; auto).
  rewrite H in N. discriminate N.
Qed.

(** X10.  Delete, then read: after a successful [deleteCampaign],
    [getCampaignById] answers [null] for that campaign and
    [getDonationsByCampaign] fails with "campaign not found" for it, so the
    donations that still name the campaign can no longer be listed through
    it. *)
Theorem deleteCampaign_then_reads i t faults db u db' faults' :
  run (deleteCampaign i t) faults db = (inr u, db') ->
  faultFree faults' ->
  run (getCampaignById i t) faults' db' = (inr None, db')
  /\ run (getDonationsByCampaign i t) faults' db'
     = (inl (NotFound CampaignE), db')
  /\ forall d, In d (donationsTable db) -> Donation.campaignId d = Some i ->
       In d (donationsTable db').
Proof.
  intros H F. apply deleteCampaign_inr in H. destruct H as (-> & _).
  split; [|split].
  - rewrite getCampaignById_faultFree by exact F.
    rewrite deleteCampaign_gone. reflexivity.
  - unfold getDonationsByCampaign.
    rewrite (listing_faultFree CampaignE (selectCampaigns i t)
               (selectDonationsByCampaign i t))
      by auto using selectCampaigns_readOnly,
                    selectDonationsByCampaign_readOnly.
    rewrite deleteCampaign_gone. reflexivity.
  - intros d Id _. exact Id.
Qed.

Lemma deleteCampaign_then_reads_witness :
  run (deleteCampaign 1 testTenantId) [] testDbReceived
  = (inr tt, testDbCampaignDeleted)
  /\ faultFree []
  /\ run (getCampaignById 1 testTenantId) [] testDbCampaignDeleted
     = (inr None, testDbCampaignDeleted)
  /\ run (getDonationsByCampaign 1 testTenantId) [] testDbCampaignDeleted
     = (inl (NotFound CampaignE), testDbCampaignDeleted)
  /\ In testDonation (donationsTable testDbCampaignDeleted).
Proof.
  assert (R : run (deleteCampaign 1 testTenantId) [] testDbReceived
              = (inr tt, testDbCampaignDeleted)) by reflexivity.
  split; [exact R|]. split; [constructor|].
  destruct (deleteCampaign_then_reads 1 testTenantId [] testDbReceived tt
              testDbCampaignDeleted [] R (Forall_nil _)) as (A & B & C).
  split; [exact A|]. split; [exact B|].
  apply C; [left; reflexivity | reflexivity].
Defined.

(** ** Failures of the campaign handlers *)

Lemma updateCampaignRows_idle now input t db :
  fst (updateCampaignRows now input t db) = [] ->
  snd (updateCampaignRows now input t db) = db.
Proof.
  unfold updateCampaignRows. cbn [fst snd]. intros E.
  replace (map _ (campaignsTable db)) with (campaignsTable db);
    [destruct db; reflexivity|].
  rewrite <- (map_id (campaignsTable db)) at 1. apply map_ext_in.
  intros c Ic.
  destruct (campaignHit (UpdateCampaignInput.id input) t c) eqn:H;
    [|reflexivity].
  exfalso.
  assert (I : In (patchCampaign now input c)
                 (filter (campaignHit (UpdateCampaignInput.id input) t)
                    (map (fun c => if campaignHit
                                        (UpdateCampaignInput.id input) t c
                                   then patchCampaign now input c else c)
                         (campaignsTable db)))).
  { apply filter_In. split.
    - apply in_map_iff. exists c. rewrite H. auto.
    - apply campaignHit_iff in H. apply campaignHit_iff. exact H. }
  rewrite E in I. destruct I.
Qed.

Lemma deleteCampaignRows_idle i t db :
  fst (deleteCampaignRows i t db) = 0%nat ->
  snd (deleteCampaignRows i t db) = db.
Proof.
  unfold deleteCampaignRows. cbn [fst snd]. intros E.
  apply length_zero_iff_nil in E.
  replace (filter (fun c => negb (campaignHit i t c)) (campaignsTable db))
    with (campaignsTable db); [destruct db; reflexivity|].
  symmetry. apply forallb_filter_id. apply forallb_forall. intros c Ic.
  destruct (campaignHit i t c) eqn:H; [|reflexivity].
  exfalso. assert (I : In c (filter (campaignHit i t) (campaignsTable db)))
    by (apply filter_In; auto).
  rewrite E in I. destruct I.
Qed.

Lemma updateCampaign_inl now input t faults db e db' :
  run (updateCampaign now input t) faults db = (inl e, db') ->
  db' = db
  /\ (e = StorageError
      \/ e = NotFound CampaignE
         /\ fst (updateCampaignRows now input t db) = []).
Proof.
  intros H. apply run_inv in H. destruct H as (fs' & H).
  unfold updateCampaign in H.
  apply bind_inl in H. destruct H as [H | (result & [db1 fs1] & R1 & H)].
  { apply execute_inl in H. destruct H as (_ & -> & H). inv H. auto. }
  apply execute_inr in R1. cbn [fst snd] in R1. destruct R1 as (_ & -> & R1).
  inv R1.
  destruct (fst (updateCampaignRows now input t db)) as [|c rest] eqn:E.
  - apply updateCampaignRows_idle in E as E'.
    apply bind_inl in H. destruct H as [H | (? & ? & R2 & _)];
      [|discriminate R2].
    inv H. split; [exact E' | auto].
  - apply bind_inl in H. destruct H as [H | (? & ? & R2 & H)];
      [discriminate H|].
    inv R2. discriminate H.
Qed.

Lemma deleteCampaign_inl i t faults db e db' :
  run (deleteCampaign i t) faults db = (inl e, db') ->
  db' = db
  /\ (e = StorageError
      \/ e = NotFound CampaignE /\ fst (deleteCampaignRows i t db) = 0%nat).
Proof.
  intros H. apply run_inv in H. destruct H as (fs' & H).
  unfold deleteCampaign in H.
  apply bind_inl in H. destruct H as [H | (n & [db1 fs1] & R1 & H)].
  { apply execute_inl in H. destruct H as (_ & -> & H). inv H. auto. }
  apply execute_inr in R1. cbn [fst snd] in R1. destruct R1 as (_ & -> & R1).
  inv R1.
  destruct (Nat.eqb (fst (deleteCampaignRows i t db)) 0) eqn:E; [|inv H].
  apply Nat.eqb_eq in E. inv H.
  split; [exact (deleteCampaignRows_idle _ _ _ E) | auto].
Qed.

Lemma createCampaign_inl now input faults db e db' :
  run (createCampaign now input) faults db = (inl e, db') ->
  e = StorageError
  /\ exists drawn,
       firstRefusal faults = Some (0%nat, drawn)
       /\ db' = if drawn then drawCampaignId db else db.
Proof.
  intros H. apply run_inv in H. destruct H as (fs' & H).
  unfold createCampaign in H.
  apply bind_inl in H. destruct H as [H | (result & [db1 fs1] & R1 & H)].
  { apply executeInsert_inl in H. cbn [fst snd] in H. exact H. }
  apply executeInsert_inr in R1. cbn [fst snd] in R1.
  destruct R1 as (_ & -> & R1).
  inv R1. unfold insertCampaign in H. cbn [fst] in H. discriminate H.
Qed.

Lemma mutateCampaign_inl now op faults db e db' :
  run (mutateCampaign now op) faults db = (inl e, db') ->
  match op with
  | CreateCampaign input =>
      run (createCampaign now input) faults db = (inl e, db')
  | UpdateCampaign input t =>
      run (updateCampaign now input t) faults db = (inl e, db')
  | DeleteCampaign i t => run (deleteCampaign i t) faults db = (inl e, db')
  end.
Proof.
  intros H. apply run_inv in H. destruct H as (fs' & H).
  destruct op as [input|input t|i t]; unfold mutateCampaign in H;
    apply bind_inl in H;
    (destruct H as [H | (a & c1 & _ & R2)]; [|discriminate R2]);
    eapply run_intro; exact H.
Qed.

(** X11.  A mutation of the campaigns router that fails, for whatever
    reason and under every fault schedule, changes no row: each of
    [createCampaign], [updateCampaign] and [deleteCampaign] sends a single
    statement.  A failed [updateCampaign] or [deleteCampaign] leaves the
    whole database as it was.  A [createCampaign] fails only when the store
    refuses its INSERT, which is then the first statement of the schedule;
    it leaves the database as it was, but for the campaign id, which is
    spent when the refused INSERT had drawn it. *)
Theorem campaign_mutation_failure_leaves_rows now op faults db e db' :
  run (mutateCampaign now op) faults db = (inl e, db') ->
  match op with
  | CreateCampaign _ =>
      e = StorageError
      /\ exists drawn,
           firstRefusal faults = Some (0%nat, drawn)
           /\ db' = if drawn then drawCampaignId db else db
  | _ => db' = db
  end.
Proof.
  intros H. apply mutateCampaign_inl in H.
  destruct op as [input|input t|i t].
  - apply createCampaign_inl in H. exact H.
  - apply updateCampaign_inl in H. tauto.
  - apply deleteCampaign_inl in H. tauto.
Qed.

Lemma campaign_mutation_failure_leaves_rows_witness :
  run (mutateCampaign 8 (UpdateCampaign (raisedPatch 1 2500000) otherTenantId))
      [] testDbReceived
  = (inl (NotFound CampaignE), testDbReceived)
  /\ snd (run (mutateCampaign 8 (DeleteCampaign 1 testTenantId))
              [Refuses false] testDbReceived)
     = testDbReceived
  /\ run (mutateCampaign 8 (CreateCampaign testNewCampaignInput))
         [Refuses true] testDbReceived
     = (inl StorageError, drawCampaignId testDbReceived)
  /\ campaigns_id_seq testDbReceived = 2
  /\ campaigns_id_seq (drawCampaignId testDbReceived) = 3.
Proof.
  split; [reflexivity|]. split.
  { apply (campaign_mutation_failure_leaves_rows 8
             (DeleteCampaign 1 testTenantId) [Refuses false] testDbReceived
             StorageError).
    reflexivity. }
  assert (R : run (mutateCampaign 8 (CreateCampaign testNewCampaignInput))
                  [Refuses true] testDbReceived
              = (inl StorageError, drawCampaignId testDbReceived))
    by reflexivity.
  split; [exact R|].
  destruct (campaign_mutation_failure_leaves_rows 8
              (CreateCampaign testNewCampaignInput) [Refuses true]
              testDbReceived StorageError _ R) as (_ & drawn & _ & _).
  split; reflexivity.
Defined.

Lemma updateCampaign_faultFree now input t faults db :
  faultFree faults ->
  run (updateCampaign now input t) faults db
  = match fst (updateCampaignRows now input t db) with
    | [] => (inl (NotFound CampaignE), db)
    | c :: _ => (inr c, snd (updateCampaignRows now input t db))
    end.
Proof.
  intros F. unfold run, updateCampaign. unfold bind at 1.
  rewrite execute_faultFree by assumption.
  destruct (fst (updateCampaignRows now input t db)) as [|c rest] eqn:E.
  - cbn. f_equal. apply updateCampaignRows_idle. exact E.
  - reflexivity.
Qed.

Lemma updateCampaignRows_found now input t db :
  fst (updateCampaignRows now input t db) <> []
  <-> hasCampaign db (UpdateCampaignInput.id input) t.
Proof.
  unfold updateCampaignRows, hasCampaign. cbn [fst].
  rewrite filter_nonempty. split.
  - intros (x & Ix & Hx). apply in_map_iff in Ix.
    destruct Ix as (c & <- & Ic). exists c. split; [exact Ic|].
    destruct (campaignHit _ t c) eqn:H.
    + apply campaignHit_iff. exact H.
    + rewrite H in Hx. discriminate Hx.
  - intros (c & Ic & E & T).
    assert (H : campaignHit (UpdateCampaignInput.id input) t c = true)
      by (apply campaignHit_iff; auto).
    exists (patchCampaign now input c). split.
    + apply in_map_iff. exists c. rewrite H. auto.
    + apply campaignHit_iff. cbn. auto.
Qed.

Lemma deleteCampaignRows_found i t db :
  fst (deleteCampaignRows i t db) <> 0%nat <-> hasCampaign db i t.
Proof.
  unfold deleteCampaignRows, hasCampaign. cbn [fst].
  rewrite length_zero_iff_nil, filter_nonempty.
  split; intros (c & Ic & H); exists c; (split; [exact Ic|]);
    apply campaignHit_iff; exact H.
Qed.

Lemma deleteCampaign_run_faultFree i t faults db :
  faultFree faults ->
  run (deleteCampaign i t) faults db
  = if Nat.eqb (fst (deleteCampaignRows i t db)) 0
    then (inl (NotFound CampaignE), db)
    else (inr tt, snd (deleteCampaignRows i t db)).
Proof.
  intros F. unfold run, deleteCampaign. unfold bind at 1.
  rewrite execute_faultFree by assumption.
  destruct (Nat.eqb _ 0) eqn:E; [|reflexivity].
  apply Nat.eqb_eq in E. cbn. f_equal. apply deleteCampaignRows_idle. exact E.
Qed.

(** X12.  With a store that refuses no statement: [createCampaign] always
    returns (it looks nothing up); [updateCampaign] and [deleteCampaign]
    return when a campaign of that id is stored under the caller's tenant
    and fail with "campaign not found" exactly when none is, a campaign of
    another tenant counting as none. *)
Theorem campaign_notFound_exactly now faults db :
  faultFree faults ->
  (forall input, exists c db',
     run (createCampaign now input) faults db = (inr c, db'))
  /\ (forall input t,
        (fst (run (updateCampaign now input t) faults db)
         = inl (NotFound CampaignE)
         <-> ~ hasCampaign db (UpdateCampaignInput.id input) t)
        /\ (hasCampaign db (UpdateCampaignInput.id input) t ->
            exists c db',
              run (updateCampaign now input t) faults db = (inr c, db')))
  /\ (forall i t,
        (fst (run (deleteCampaign i t) faults db) = inl (NotFound CampaignE)
         <-> ~ hasCampaign db i t)
        /\ (hasCampaign db i t ->
            exists db', run (deleteCampaign i t) faults db = (inr tt, db'))).
Proof.
  intros F. split; [|split].
  - intros input. unfold run, createCampaign, bind.
    rewrite executeInsert_faultFree by assumption.
    eexists. eexists. reflexivity.
  - intros input t. rewrite updateCampaign_faultFree by exact F.
    rewrite <- (updateCampaignRows_found now input t db).
    destruct (fst (updateCampaignRows now input t db)) as [|c rest].
    + split; [split; [intros _ H; apply H; reflexivity | reflexivity]|].
      intros H. contradiction H. reflexivity.
    + split; [split; [discriminate|]|eauto].
      intros H. contradiction H. discriminate.
  - intros i t. rewrite deleteCampaign_run_faultFree by exact F.
    rewrite <- deleteCampaignRows_found.
    destruct (fst (deleteCampaignRows i t db)) as [|n]; cbn.
    + split; [split; [intros _ H; apply H; reflexivity | reflexivity]|].
      intros H. contradiction H. reflexivity.
    + split; [split; [discriminate|]|eauto].
      intros H. contradiction H. discriminate.
Qed.

Lemma campaign_notFound_exactly_witness :
  faultFree []
  /\ ~ hasCampaign testDbReceived 1 otherTenantId
  /\ fst (run (updateCampaign 8 (raisedPatch 1 2500000) otherTenantId) []
              testDbReceived)
     = inl (NotFound CampaignE)
  /\ fst (run (deleteCampaign 1 otherTenantId) [] testDbReceived)
     = inl (NotFound CampaignE)
  /\ fst (run (deleteCampaign 1 testTenantId) [] testDbReceived) = inr tt.
Proof.
  assert (N : ~ hasCampaign testDbReceived 1 otherTenantId).
  { intros (r & [<-|[]] & _ & E). discriminate E. }
  destruct (campaign_notFound_exactly 8 [] testDbReceived (Forall_nil _))
    as (_ & U & D).
  split; [constructor|]. split; [exact N|].
  split; [apply (proj1 (U (raisedPatch 1 2500000) otherTenantId)); exact N|].
  split; [apply (proj1 (D 1 otherTenantId)); exact N | reflexivity].
Defined.

(** ** The invariant under both routers *)

Lemma apply_inr now op faults db db' :
  apply now op faults db = (inr tt, db') ->
  match op with
  | OnDonation o => exists r, run (mutate now o) faults db = (inr r, db')
  | OnCampaign o =>
      exists r, run (mutateCampaign now o) faults db = (inr r, db')
  end.
Proof.
  destruct op as [o|o]; unfold apply; intros H; apply run_inv in H;
    destruct H as (fs' & H); apply bind_inr in H;
    destruct H as (r & c1 & R1 & R2); inv R2; exists r;
    eapply run_intro; exact R1.
Qed.

Lemma mutateCampaign_inr now op faults db r db' :
  run (mutateCampaign now op) faults db = (inr r, db') ->
  match op with
  | CreateCampaign input =>
      exists c, run (createCampaign now input) faults db = (inr c, db')
  | UpdateCampaign input t =>
      exists c, run (updateCampaign now input t) faults db = (inr c, db')
  | DeleteCampaign i t => run (deleteCampaign i t) faults db = (inr tt, db')
  end.
Proof.
  intros H. apply run_inv in H. destruct H as (fs' & H).
  destruct op as [input|input t|i t]; unfold mutateCampaign in H;
    apply bind_inr in H; destruct H as (a & c1 & R1 & R2); inv R2.
  - exists a. eapply run_intro. exact R1.
  - exists a. eapply run_intro. exact R1.
  - destruct a. eapply run_intro. exact R1.
Qed.

Lemma hasCampaign_serial db k t :
  schemaOk db -> hasCampaign db k t -> k < campaigns_id_seq db.
Proof.
  intros OK (c & I & <- & _). pose proof (campaign_ids_serial db OK c I). lia.
Qed.

Lemma settle_campaignsKnown now link s delta db :
  campaignsKnown db -> campaignsKnown (settle now link s delta db).
Proof.
  intros [P K]. split.
  - rewrite settle_campaigns_seq. exact P.
  - intros d k. rewrite settle_donations, settle_campaigns_seq. apply K.
Qed.

Lemma validated_serial db (link : option Z) t :
  schemaOk db -> campaignsKnown db ->
  (forall k, link = Some k -> k <> 0 -> fst (selectCampaigns k t db) <> []) ->
  forall k, link = Some k -> k < campaigns_id_seq db.
Proof.
  intros OK [P _] V k Hk. destruct (Z.eq_dec k 0) as [->|N]; [lia|].
  apply (hasCampaign_serial db k t OK).
  apply selectCampaigns_hasCampaign. auto.
Qed.

Lemma mutate_keeps_campaignsKnown now op faults db r db' :
  schemaOk db -> campaignsKnown db ->
  run (mutate now op) faults db = (inr r, db') ->
  campaignsKnown db'.
Proof.
  intros OK CK H. apply mutate_inr in H. destruct op as [input|input t|i t].
  - destruct H as (d & H). apply createDonation_inr in H.
    destruct H as (_ & V & _ & ->). apply settle_campaignsKnown.
    destruct CK as [P K]. split; [exact P|].
    intros x k Ix. unfold insertDonation in Ix. cbn [snd donationsTable] in Ix.
    apply in_app_iff in Ix. destruct Ix as [Ix|[<-|[]]]; [apply K; exact Ix|].
    cbn. apply (validated_serial db _ (CreateDonationInput.tenantId input));
      auto. split; assumption.
  - destruct H as (d & H). apply updateDonation_inr in H.
    destruct H as (old & rest & Sel & _ & V & _ & ->).
    assert (I : In old (fst (selectDonations (UpdateDonationInput.id input)
                               t db)))
      by (rewrite Sel; left; reflexivity).
    apply selectDonations_id in I. destruct I as (I & E & T).
    unfold updateDonationWrites. do 2 apply settle_campaignsKnown.
    pose proof CK as [P K]. split; [exact P|].
    intros x k Ix. rewrite updateDonationRows_table in Ix.
    apply in_map_iff in Ix. destruct Ix as (y & <- & Iy).
    unfold updateRow. destruct (Donation.id y =? _); [|apply K; exact Iy].
    cbn. destruct (UpdateDonationInput.campaignId input) as [c|] eqn:Pc; cbn.
    + apply (validated_serial db c t OK CK). intros k0 -> N0. auto.
    + apply K. exact Iy.
  - apply deleteDonation_inr in H. destruct H as (d & rest & Sel & ->).
    unfold deleteDonationWrites. apply settle_campaignsKnown.
    destruct CK as [P K]. split; [exact P|].
    intros x k Ix. unfold deleteDonationRows in Ix.
    cbn [snd donationsTable] in Ix. apply filter_In in Ix. apply K. tauto.
Qed.

Lemma receivedTotal_unnamed ds k :
  (forall d, In d ds -> Donation.campaignId d <> Some k) ->
  receivedTotal ds k = 0.
Proof.
  induction ds as [|d ds IH]; intros H; [reflexivity|].
  rewrite receivedTotal_cons, IH by (intros x Ix; apply H; right; exact Ix).
  unfold contributionOf, contribution.
  destruct (Donation.campaignId d) as [c|] eqn:C; [|reflexivity].
  destruct (c =? k) eqn:E; [|reflexivity].
  apply Z.eqb_eq in E. subst c. exfalso. apply (H d); [left; reflexivity|].
  exact C.
Qed.

Lemma updateCampaignRow_raised now input t c :
  UpdateCampaignInput.currentAmountRaised input = None ->
  Campaign.currentAmountRaised (updateCampaignRow now input t c)
  = Campaign.currentAmountRaised c.
Proof.
  intros N. unfold updateCampaignRow.
  destruct (campaignHit _ t c); [|reflexivity]. cbn. rewrite N. reflexivity.
Qed.

Lemma updateCampaignRows_table now input t db :
  campaignsTable (snd (updateCampaignRows now input t db))
  = map (updateCampaignRow now input t) (campaignsTable db).
Proof. reflexivity. Qed.

Lemma mutateCampaign_keeps_invariant now op faults db r db' :
  schemaOk db -> campaignsKnown db -> reconciled db ->
  leavesTotalsToDonations (OnCampaign op) ->
  run (mutateCampaign now op) faults db = (inr r, db') ->
  schemaOk db' /\ campaignsKnown db' /\ reconciled db'
  /\ (linksWithinTenant db -> linksWithinTenant db').
Proof.
  intros OK CK R L H. apply mutateCampaign_inr in H.
  pose proof CK as [P K].
  destruct op as [input|input t|i t].
  - destruct H as (c & H). apply createCampaign_inr in H.
    destruct H as (_ & ->).
    assert (Un : forall d, In d (donationsTable db) ->
                   Donation.campaignId d <> Some (campaigns_id_seq db)).
    { intros d Id E. pose proof (K d _ Id E). lia. }
    split; [apply insertCampaign_schemaOk; assumption|]. split; [|split].
    + split; simpl; [lia|]. intros d k Id E. pose proof (K d k Id E). lia.
    + intros x Ic. unfold insertCampaign in *.
      cbn [snd campaignsTable donationsTable] in *.
      apply in_app_iff in Ic. destruct Ic as [Ic|[<-|[]]]; [auto|].
      cbn. symmetry. apply receivedTotal_unnamed. exact Un.
    + intros Lk d x Id Ic. unfold insertCampaign in *.
      cbn [snd campaignsTable donationsTable] in *.
      apply in_app_iff in Ic. destruct Ic as [Ic|[<-|[]]]; [auto|].
      cbn. intros E. exfalso. exact (Un d Id E).
  - destruct H as (c & H). apply updateCampaign_inr in H.
    destruct H as (-> & _). cbn in L.
    split; [|split; [|split]].
    + destruct OK as [N1 S1 N2 S2 Q]. split; try assumption.
      * rewrite updateCampaignRows_table, map_map.
        erewrite map_ext; [exact N1|]. intro x. apply updateCampaignRow_id.
      * intros x. rewrite updateCampaignRows_table, in_map_iff.
        intros (y & <- & Iy). rewrite updateCampaignRow_id. exact (S1 y Iy).
    + split; [exact P | exact K].
    + intros x. rewrite updateCampaignRows_table, in_map_iff.
      intros (y & <- & Iy).
      rewrite updateCampaignRow_id, updateCampaignRow_raised by exact L.
      exact (R y Iy).
    + intros Lk d x Id. rewrite updateCampaignRows_table, in_map_iff.
      intros (y & <- & Iy).
      rewrite updateCampaignRow_id, updateCampaignRow_tenantId.
      apply Lk; assumption.
  - apply deleteCampaign_inr in H. destruct H as (-> & _).
    unfold deleteCampaignRows. cbn [snd].
    split; [|split; [|split]].
    + destruct OK as [N1 S1 N2 S2 Q]. split; try assumption;
        cbn [campaignsTable campaigns_id_seq].
      * clear - N1. induction (campaignsTable db) as [|a l IH]; simpl.
        -- constructor.
        -- inversion N1; subst. destruct (negb _); simpl; auto.
           constructor; auto. intros H. apply in_map_iff in H.
           destruct H as (x & E & Ix). apply filter_In in Ix.
           match goal with N : ~ In _ _ |- _ => apply N end.
           rewrite <- E. apply in_map. tauto.
      * intros x Ix. apply filter_In in Ix. apply S1. tauto.
    + split; [exact P | exact K].
    + intros x Ix. cbn [campaignsTable donationsTable] in *.
      apply filter_In in Ix. apply R. tauto.
    + intros Lk d x Id Ix. cbn [campaignsTable donationsTable] in *.
      apply filter_In in Ix. apply Lk; tauto.
Qed.

(** X13.  The invariant under both routers: from a database that satisfies
    the schema's key guarantees and the invariant, and whose donations name
    only campaign ids the sequence handed out, every database reached by
    successful calls of [createDonation], [updateDonation],
    [deleteDonation], [createCampaign], [deleteCampaign] and of
    [updateCampaign] without a [currentAmountRaised] satisfies the
    invariant; and when donations start out naming campaigns of their own
    tenant only, they still do and the invariant holds inside each
    tenant. *)
Theorem routers_keep_invariant db0 db :
  schemaOk db0 ->
  campaignsKnown db0 ->
  reconciled db0 ->
  reachableByRouters db0 db ->
  reconciled db
  /\ (linksWithinTenant db0 ->
      linksWithinTenant db /\ reconciledPerTenant db).
Proof.
  intros OK CK R H.
  assert (G : schemaOk db /\ campaignsKnown db /\ reconciled db
              /\ (linksWithinTenant db0 -> linksWithinTenant db)).
  { induction H as [|db now op faults db' _ IH L Step]; [auto|].
    destruct IH as (OK1 & CK1 & R1 & L1). apply apply_inr in Step.
    destruct op as [o|o]; destruct Step as (r & Step).
    - destruct (mutate_keeps_invariant _ _ _ _ _ _ OK1 R1 Step)
        as (OK2 & R2 & L2).
      pose proof (mutate_keeps_campaignsKnown _ _ _ _ _ _ OK1 CK1 Step).
      repeat (split; [assumption|]). auto.
    - destruct (mutateCampaign_keeps_invariant _ _ _ _ _ _ OK1 CK1 R1 L Step)
        as (OK2 & CK2 & R2 & L2).
      repeat (split; [assumption|]). auto. }
  destruct G as (_ & _ & R' & L'). split; [exact R'|].
  intros L. split; [auto|]. apply reconciled_per_tenant; auto.
Qed.

Lemma testDb_campaignsKnown : campaignsKnown testDb.
Proof. split; [cbn; lia|]. intros d k []. Qed.

Lemma routers_keep_invariant_witness :
  schemaOk testDb
  /\ campaignsKnown testDb
  /\ reconciled testDb
  /\ reachableByRouters testDb testDbTwoCampaigns
  /\ reconciled testDbTwoCampaigns
  /\ raised testDbTwoCampaigns 1 = Some 10050
  /\ raised testDbTwoCampaigns 2 = Some 0.
Proof.
  assert (S : reachableByRouters testDb testDbTwoCampaigns).
  { apply (routers_step testDb testDbReceived 5
             (OnCampaign (CreateCampaign testNewCampaignInput)) []);
      [|exact I|reflexivity].
    apply (routers_step testDb testDb 5
             (OnDonation (Create testReceivedInput)) []);
      [apply routers_here|exact I|reflexivity]. }
  split; [exact testDb_schemaOk|]. split; [exact testDb_campaignsKnown|].
  split; [exact testDb_reconciled|]. split; [exact S|].
  split; [|split; reflexivity].
  exact (proj1 (routers_keep_invariant testDb testDbTwoCampaigns
                  testDb_schemaOk testDb_campaignsKnown testDb_reconciled S)).
Defined.

Lemma updateRow_tenantId now input d :
  Donation.tenantId (updateRow now input d) = Donation.tenantId d.
Proof.
  unfold updateRow. destruct (Donation.id d =? _); reflexivity.
Qed.

(** ** Mutations stay inside the caller's tenant *)

Lemma filter_map_fixed {A} (p : A -> bool) (f : A -> A) l :
  (forall x, In x l -> p (f x) = p x) ->
  (forall x, In x l -> p x = true -> f x = x) ->
  filter p (map f l) = filter p l.
Proof.
  induction l as [|a l IH]; intros P Fx; [reflexivity|]. cbn.
  rewrite (P a) by (left; reflexivity).
  assert (T : filter p (map f l) = filter p l).
  { apply IH; intros x Ix; [apply P | apply Fx]; right; exact Ix. }
  rewrite T. destruct (p a) eqn:E; [|reflexivity].
  rewrite (Fx a (or_introl eq_refl) E). reflexivity.
Qed.

Lemma filter_filter_fixed {A} (p q : A -> bool) l :
  (forall x, In x l -> p x = true -> q x = true) ->
  filter p (filter q l) = filter p l.
Proof.
  induction l as [|a l IH]; intros H; [reflexivity|]. cbn.
  assert (T : filter p (filter q l) = filter p l).
  { apply IH. intros x Ix. apply H. right. exact Ix. }
  destruct (q a) eqn:Q; cbn.
  - rewrite T. reflexivity.
  - rewrite T. destruct (p a) eqn:P; [|reflexivity].
    rewrite (H a (or_introl eq_refl) P) in Q. discriminate Q.
Qed.

Lemma other_tenant {X} (tenant : X -> string) t (x : X) :
  negb (String.eqb (tenant x) t) = true <-> tenant x <> t.
Proof. rewrite negb_true_iff. apply String.eqb_neq. Qed.

Lemma sameForOthers_refl t db : sameForOthers t db db.
Proof. repeat split. Qed.

Lemma sameForOthers_trans t db1 db2 db3 :
  sameForOthers t db1 db2 -> sameForOthers t db2 db3 ->
  sameForOthers t db1 db3.
Proof.
  intros (A1 & B1 & C1) (A2 & B2 & C2). repeat split; congruence.
Qed.

(** A reconciliation step on a campaign of tenant [t] leaves the others'
    rows alone. *)
Lemma settle_sameForOthers now link s delta t db :
  (forall c k, In c (campaignsTable db) -> link = Some k ->
     Campaign.id c = k -> Campaign.tenantId c = t) ->
  sameForOthers t db (settle now link s delta db).
Proof.
  intros H. split; [apply settle_donors|]. split.
  - unfold donationsOfOthers. rewrite settle_donations. reflexivity.
  - unfold campaignsOfOthers. rewrite settle_campaigns.
    apply filter_map_fixed.
    + intros c _. rewrite settleRow_tenantId. reflexivity.
    + intros c Ic N. apply other_tenant in N.
      unfold settleRow, settles, truthy, bumpCampaign.
      destruct link as [k|]; [|reflexivity]. cbn.
      destruct (negb (k =? 0) && isReceived s); [|reflexivity].
      destruct (Campaign.id c =? k) eqn:E; [|reflexivity].
      apply Z.eqb_eq in E. exfalso. apply N. eapply H; eauto.
Qed.

Lemma insertDonation_sameForOthers now input db :
  sameForOthers (CreateDonationInput.tenantId input) db
    (snd (insertDonation now input db)).
Proof.
  split; [reflexivity|]. split; [|reflexivity].
  unfold donationsOfOthers, insertDonation. cbn [snd donationsTable].
  rewrite filter_app. cbn. rewrite String.eqb_refl. cbn. apply app_nil_r.
Qed.

Lemma updateDonationRows_sameForOthers now input t db old :
  schemaOk db -> In old (donationsTable db) ->
  Donation.id old = UpdateDonationInput.id input ->
  Donation.tenantId old = t ->
  sameForOthers t db (snd (updateDonationRows now input db)).
Proof.
  intros OK I E T. split; [reflexivity|]. split; [|reflexivity].
  unfold donationsOfOthers. rewrite updateDonationRows_table.
  apply filter_map_fixed.
  - intros d _. rewrite updateRow_tenantId. reflexivity.
  - intros d Id N. apply other_tenant in N. apply updateRow_miss.
    intros H. apply N. rewrite <- T. f_equal.
    apply (nodup_key_eq Donation.id (donationsTable db));
      auto using donation_ids_nodup. congruence.
Qed.

Lemma deleteDonationRows_sameForOthers i t db old :
  schemaOk db -> In old (donationsTable db) ->
  Donation.id old = i -> Donation.tenantId old = t ->
  sameForOthers t db (snd (deleteDonationRows i db)).
Proof.
  intros OK I E T. split; [reflexivity|]. split; [|reflexivity].
  unfold donationsOfOthers, deleteDonationRows. cbn [snd donationsTable].
  apply filter_filter_fixed. intros d Id N. apply other_tenant in N.
  apply negb_true_iff, Z.eqb_neq. intros H. apply N. rewrite <- T. f_equal.
  apply (nodup_key_eq Donation.id (donationsTable db));
    auto using donation_ids_nodup. congruence.
Qed.

Lemma validated_tenant db (link : option Z) t :
  schemaOk db ->
  (forall k, link = Some k -> k <> 0 -> fst (selectCampaigns k t db) <> []) ->
  forall c k, In c (campaignsTable db) -> link = Some k ->
    Campaign.id c = k -> Campaign.tenantId c = t.
Proof.
  intros OK V c k Ic Hk E. apply (campaign_tenant db c k t OK Ic E).
  apply V; [exact Hk|]. rewrite <- E.
  exact (schemaOk_noCampaignZero db OK c Ic).
Qed.

Lemma linked_tenant db (d : Donation.t) :
  linksWithinTenant db -> In d (donationsTable db) ->
  forall c k, In c (campaignsTable db) -> Donation.campaignId d = Some k ->
    Campaign.id c = k -> Campaign.tenantId c = Donation.tenantId d.
Proof.
  intros L Id c k Ic Hk E. symmetry. apply (L d c Id Ic). congruence.
Qed.

(** X14.  Tenant isolation of the donation mutations: when donations name
    campaigns of their own tenant only, a [createDonation],
    [updateDonation] or [deleteDonation] called for tenant [t] leaves the
    donors and every donation and campaign row of the other tenants exactly
    as they were, whether it returns or fails and whichever statements the
    store refuses. *)
Theorem donation_mutation_stays_in_tenant now op faults db r db' :
  schemaOk db ->
  linksWithinTenant db ->
  run (mutate now op) faults db = (r, db') ->
  donorsTable db' = donorsTable db
  /\ donationsOfOthers (tenantOf op) db' = donationsOfOthers (tenantOf op) db
  /\ campaignsOfOthers (tenantOf op) db' = campaignsOfOthers (tenantOf op) db.
Proof.
  intros OK L H. change (sameForOthers (tenantOf op) db db').
  destruct r as [e|r].
  - apply mutate_inl in H. destruct op as [input|input t|i t]; cbn [tenantOf].
    + apply createDonation_inl_db in H.
      destruct H as [->|[->| ->]];
        [apply sameForOthers_refl | repeat split
        | apply insertDonation_sameForOthers].
    + apply updateDonation_inl in H.
      destruct H as [(-> & _)|(old & rest & Sel & _ & H)];
        [apply sameForOthers_refl|].
      assert (I : In old (fst (selectDonations (UpdateDonationInput.id input)
                                 t db)))
        by (rewrite Sel; left; reflexivity).
      apply selectDonations_id in I. destruct I as (I & E & T).
      pose proof (updateDonationRows_sameForOthers now input t db old
                    OK I E T) as S1.
      cbv zeta in H. destruct H as [(-> & _)|(-> & _)]; [exact S1|].
      eapply sameForOthers_trans; [exact S1|].
      apply settle_sameForOthers. intros c k Ic Hk Ek.
      rewrite <- T. exact (linked_tenant db old L I c k Ic Hk Ek).
    + apply deleteDonation_inl in H.
      destruct H as [(-> & _)|(old & rest & Sel & _ & -> & _)];
        [apply sameForOthers_refl|].
      assert (I : In old (fst (selectDonations i t db)))
        by (rewrite Sel; left; reflexivity).
      apply selectDonations_id in I. destruct I as (I & E & T).
      exact (deleteDonationRows_sameForOthers i t db old OK I E T).
  - apply mutate_inr in H. destruct op as [input|input t|i t]; cbn [tenantOf].
    + destruct H as (d & H). apply createDonation_inr in H.
      destruct H as (_ & V & _ & ->).
      eapply sameForOthers_trans; [apply insertDonation_sameForOthers|].
      apply settle_sameForOthers.
      exact (validated_tenant db _ _ OK V).
    + destruct H as (d & H). apply updateDonation_inr in H.
      destruct H as (old & rest & Sel & _ & V & _ & ->).
      assert (I : In old (fst (selectDonations (UpdateDonationInput.id input)
                                 t db)))
        by (rewrite Sel; left; reflexivity).
      apply selectDonations_id in I. destruct I as (I & E & T).
      unfold updateDonationWrites.
      eapply sameForOthers_trans;
        [exact (updateDonationRows_sameForOthers now input t db old OK I E T)|].
      eapply sameForOthers_trans.
      * apply settle_sameForOthers. intros c k Ic Hk Ek.
        rewrite <- T. exact (linked_tenant db old L I c k Ic Hk Ek).
      * apply settle_sameForOthers. rewrite settle_campaigns.
        intros c k Ic Hk Ek. apply in_map_iff in Ic.
        destruct Ic as (c0 & <- & Ic0).
        rewrite settleRow_id in Ek. rewrite settleRow_tenantId.
        destruct (UpdateDonationInput.campaignId input) as [p|] eqn:P;
          cbn in Hk.
        -- apply (validated_tenant db p t OK) with (k := k); auto.
           intros k0 -> N0. auto.
        -- rewrite <- T. exact (linked_tenant db old L I c0 k Ic0 Hk Ek).
    + apply deleteDonation_inr in H. destruct H as (old & rest & Sel & ->).
      assert (I : In old (fst (selectDonations i t db)))
        by (rewrite Sel; left; reflexivity).
      apply selectDonations_id in I. destruct I as (I & E & T).
      unfold deleteDonationWrites. rewrite E.
      eapply sameForOthers_trans;
        [exact (deleteDonationRows_sameForOthers i t db old OK I E T)|].
      apply settle_sameForOthers. intros c k Ic Hk Ek.
      rewrite <- T. exact (linked_tenant db old L I c k Ic Hk Ek).
Qed.

Lemma testDbOtherTenant_schemaOk : schemaOk testDbOtherTenant.
Proof.
  split.
  - cbv. repeat constructor; [intros [H|[]]; discriminate H | intros []].
  - intros c [<-|[<-|[]]]; cbv; split; first [discriminate | reflexivity].
  - cbv. repeat constructor. intros [].
  - intros d [<-|[]]. cbv. split; [discriminate | reflexivity].
  - cbv. discriminate.
Qed.

Lemma testDbOtherTenant_links : linksWithinTenant testDbOtherTenant.
Proof.
  intros d c [<-|[]] [<-|[<-|[]]]; [reflexivity|]. intros H. discriminate H.
Qed.

Lemma donation_mutation_stays_in_tenant_witness :
  schemaOk testDbOtherTenant
  /\ linksWithinTenant testDbOtherTenant
  /\ fst (run (mutate 7 (Delete 1 testTenantId)) [] testDbOtherTenant)
     = inr None
  /\ campaignsOfOthers testTenantId
       (snd (run (mutate 7 (Delete 1 testTenantId)) [] testDbOtherTenant))
     = [testCampaign 2 otherTenantId]
  /\ raised (snd (run (mutate 7 (Delete 1 testTenantId)) []
                      testDbOtherTenant)) 1 = Some 0.
Proof.
  split; [exact testDbOtherTenant_schemaOk|].
  split; [exact testDbOtherTenant_links|]. split; [reflexivity|].
  split; [|reflexivity].
  destruct (donation_mutation_stays_in_tenant 7 (Delete 1 testTenantId) []
              testDbOtherTenant _ _ testDbOtherTenant_schemaOk
              testDbOtherTenant_links
              (surjective_pairing
                 (run (mutate 7 (Delete 1 testTenantId)) []
                      testDbOtherTenant)))
    as (_ & _ & C).
  cbn [tenantOf] in C. rewrite C. reflexivity.
Defined.

(** ** Donations keep their donors *)

(** X15.  Donor integrity: when every stored donation has its donor in its
    own tenant, it is still so after a successful [createDonation],
    [deleteDonation], or [updateDonation] whose patch does not carry the
    donor id 0. *)
Theorem donation_mutation_keeps_donors now op faults db r db' :
  schemaOk db ->
  donorsKnown db ->
  (forall input t, op = Update input t ->
     UpdateDonationInput.donorId input <> Some 0) ->
  run (mutate now op) faults db = (inr r, db') ->
  donorsKnown db'.
Proof.
  intros OK DK N0 H. apply mutate_inr in H.
  destruct op as [input|input t|i t].
  - destruct H as (d & H). apply createDonation_inr in H.
    destruct H as (ND & _ & _ & ->). apply selectDonors_hasDonor in ND.
    intros x. unfold hasDonor.
    rewrite settle_donations, settle_donors.
    unfold insertDonation. cbn [snd donationsTable donorsTable].
    intros Ix. apply in_app_iff in Ix.
    destruct Ix as [Ix|[<-|[]]]; [exact (DK x Ix) | exact ND].
  - destruct H as (d & H). apply updateDonation_inr in H.
    destruct H as (old & rest & Sel & V & _ & _ & ->).
    assert (I : In old (fst (selectDonations (UpdateDonationInput.id input)
                               t db)))
      by (rewrite Sel; left; reflexivity).
    apply selectDonations_id in I. destruct I as (I & E & T).
    intros x. unfold hasDonor, updateDonationWrites.
    rewrite !settle_donations, !settle_donors, updateDonationRows_table.
    change (donorsTable (snd (updateDonationRows now input db)))
      with (donorsTable db).
    intros Ix. apply in_map_iff in Ix. destruct Ix as (y & <- & Iy).
    unfold updateRow.
    destruct (Donation.id y =? UpdateDonationInput.id input) eqn:Hy;
      [|exact (DK y Iy)].
    apply Z.eqb_eq in Hy.
    assert (y = old).
    { apply (nodup_key_eq Donation.id (donationsTable db));
        auto using donation_ids_nodup. congruence. }
    subst y. cbn.
    destruct (UpdateDonationInput.donorId input) as [j|] eqn:P; cbn.
    + assert (Nj : j <> 0).
      { intros ->. exact (N0 input t eq_refl P). }
      rewrite T. apply selectDonors_hasDonor. auto.
    + exact (DK old I).
  - apply deleteDonation_inr in H. destruct H as (d & rest & Sel & ->).
    intros x. unfold hasDonor, deleteDonationWrites.
    rewrite settle_donations, settle_donors.
    unfold deleteDonationRows. cbn [snd donationsTable donorsTable].
    intros Ix. apply filter_In in Ix. exact (DK x (proj1 Ix)).
Qed.

Lemma donation_mutation_keeps_donors_witness :
  schemaOk testDbReceived
  /\ donorsKnown testDbReceived
  /\ run (mutate 6 (Update (statusPatch 1 Cancelled) testTenantId)) []
         testDbReceived
     = (inr (Some testDonationCancelled), testDbCancelled)
  /\ donorsKnown testDbCancelled.
Proof.
  assert (R : run (mutate 6 (Update (statusPatch 1 Cancelled) testTenantId))
                  [] testDbReceived
              = (inr (Some testDonationCancelled), testDbCancelled))
    by reflexivity.
  split; [exact testDbReceived_schemaOk|].
  split; [exact testDbReceived_donorsKnown|]. split; [exact R|].
  apply (donation_mutation_keeps_donors 6
           (Update (statusPatch 1 Cancelled) testTenantId) [] testDbReceived
           (Some testDonationCancelled) testDbCancelled
           testDbReceived_schemaOk testDbReceived_donorsKnown); [|exact R].
  intros input t [= <- _]. discriminate.
Defined.

(** ** Pages of the search listings *)

Lemma page_faultFree {A B C} limit offset (query : Db -> list A * Db)
    (count : Db -> B * Db) (k : list A -> B -> C) faults db :
  readOnly query -> readOnly count -> faultFree faults ->
  0 <= limit -> 0 <= offset ->
  run (rows <- paged limit offset query ;;
       total <- execute count ;; ret (k rows total)) faults db
  = (inr (k (firstn (Z.to_nat limit)
                    (skipn (Z.to_nat offset) (fst (query db))))
            (fst (count db))), db).
Proof.
  intros RQ RC F L O. unfold run, paged.
  destruct (Z.ltb_spec limit 0); [lia|].
  destruct (Z.ltb_spec offset 0); [lia|]. cbn [orb].
  unfold bind at 1. rewrite execute_faultFree by assumption.
  cbn [fst snd]. rewrite RQ.
  unfold bind, ret. rewrite execute_faultFree by auto using faultFree_tl.
  rewrite RC. reflexivity.
Qed.

Lemma page_unchanged {A B C} limit offset (query : Db -> list A * Db)
    (count : Db -> B * Db) (k : list A -> B -> C) faults db r db' :
  readOnly query -> readOnly count ->
  run (rows <- paged limit offset query ;;
       total <- execute count ;; ret (k rows total)) faults db = (r, db') ->
  db' = db.
Proof.
  intros RQ RC H. apply run_inv in H. destruct H as (fs' & H).
  unfold bind at 1 in H. unfold paged in H.
  destruct ((limit <? 0) || (offset <? 0)); [inv H; reflexivity|].
  rewrite execute_eq in H. cbn [fst snd] in H.
  destruct (refused faults); [inv H; reflexivity|].
  rewrite RQ in H. unfold bind, ret in H. rewrite execute_eq in H.
  cbn [fst snd] in H. destruct (refused (tl faults)); inv H; auto.
Qed.

Lemma page_length {A} limit offset (l : list A) :
  0 <= limit -> 0 <= offset ->
  Z.of_nat (List.length (firstn (Z.to_nat limit)
                                (skipn (Z.to_nat offset) l)))
  = Z.min limit (Z.max 0 (Z.of_nat (List.length l) - offset)).
Proof.
  intros L O. rewrite length_firstn, length_skipn. lia.
Qed.

Lemma page_In {A} limit offset (l : list A) x :
  In x (firstn limit (skipn offset l)) -> In x l.
Proof.
  intros I. rewrite <- (firstn_skipn offset l). apply in_or_app. right.
  rewrite <- (firstn_skipn limit (skipn offset l)). apply in_or_app.
  left. exact I.
Qed.

Lemma page_whole {A} limit (l : list A) :
  (List.length l <= limit)%nat -> firstn limit (skipn 0 l) = l.
Proof. intros H. simpl. apply firstn_all2. exact H. Qed.

Lemma filter_key_unique {A} (key : A -> Z) (k : Z) l :
  NoDup (map key l) ->
  (List.length (filter (fun x => (key x =? k)%Z) l) <= 1)%nat.
Proof.
  induction l as [|a l IH]; simpl; intros ND; [lia|].
  inversion ND as [|? ? NI ND']; subst.
  destruct (Z.eqb_spec (key a) k) as [E|E]; [|auto with arith].
  assert (Z : filter (fun x => key x =? k) l = []).
  { destruct (filter (fun x => key x =? k) l) as [|b rest] eqn:Fl;
      [reflexivity|].
    exfalso. assert (Ib : In b (filter (fun x => key x =? k) l))
      by (rewrite Fl; left; reflexivity).
    apply filter_In in Ib. destruct Ib as (Ib & Eb).
    apply Z.eqb_eq in Eb. apply NI. rewrite E, <- Eb. apply in_map.
    exact Ib. }
  rewrite Z. simpl. lia.
Qed.

Lemma filter_none {A} (l : list A) : filter (fun _ => false) l = [].
Proof. induction l; simpl; auto. Qed.

Lemma leftJoinCampaign_one db d donor :
  NoDup (map Campaign.id (campaignsTable db)) ->
  map (fun r => (joinedDonation r, joinedDonor r))
      (leftJoinCampaign db d donor) = [(d, donor)].
Proof.
  intros ND. unfold leftJoinCampaign.
  destruct (Donation.campaignId d) as [k|].
  - pose proof (filter_key_unique Campaign.id k (campaignsTable db) ND) as L.
    destruct (filter (fun c => Campaign.id c =? k) (campaignsTable db))
      as [|c [|c' rest]]; simpl in *; [reflexivity | reflexivity | lia].
  - rewrite filter_none. reflexivity.
Qed.

Lemma donationsJoined_pairs db :
  NoDup (map Campaign.id (campaignsTable db)) ->
  map (fun r => (joinedDonation r, joinedDonor r)) (donationsJoined db)
  = donationsWithDonors db.
Proof.
  intros ND. unfold donationsJoined, donationsWithDonors.
  induction (donationsTable db) as [|d ds IH]; simpl; [reflexivity|].
  rewrite map_app, IH. f_equal.
  induction (filter (fun r => Donation.donorId d =? Donor.id r)
                    (donorsTable db)) as [|donor rest IHr];
    simpl; [reflexivity|].
  rewrite map_app, IHr, leftJoinCampaign_one by exact ND. reflexivity.
Qed.

Lemma filter_map_comm {A B} (p : B -> bool) (f : A -> B) l :
  filter p (map f l) = map f (filter (fun x => p (f x)) l).
Proof.
  induction l as [|a l IH]; simpl; [reflexivity|].
  rewrite IH. destruct (p (f a)); reflexivity.
Qed.

Lemma countDonations_listing E f db :
  NoDup (map Campaign.id (campaignsTable db)) ->
  fst (countDonations E f db)
  = Z.of_nat (List.length (fst (selectDonationsListing E f db))).
Proof.
  intros ND. unfold countDonations, selectDonationsListing. cbn [fst].
  rewrite (Permutation_length (orderBy_perm _ _)).
  rewrite <- (donationsJoined_pairs db ND), filter_map_comm, length_map.
  reflexivity.
Qed.

Lemma selectDonationsListing_readOnly E f :
  readOnly (selectDonationsListing E f).
Proof. intro db. reflexivity. Qed.

Lemma countDonations_readOnly E f : readOnly (countDonations E f).
Proof. intro db. reflexivity. Qed.

Lemma selectCampaignsListing_readOnly E f :
  readOnly (selectCampaignsListing E f).
Proof. intro db. reflexivity. Qed.

Lemma countCampaigns_readOnly E f : readOnly (countCampaigns E f).
Proof. intro db. reflexivity. Qed.

Lemma selectDonationsListing_In E f db r :
  In r (fst (selectDonationsListing E f db)) ->
  In (joinedDonation r) (donationsTable db)
  /\ Donation.tenantId (joinedDonation r) = FilterInput.tenantId f
  /\ In (joinedDonor r) (donorsTable db)
  /\ Donor.id (joinedDonor r) = Donation.donorId (joinedDonation r)
  /\ searchMatches E (FilterInput.search f) (Donor.name (joinedDonor r))
     = true.
Proof.
  unfold selectDonationsListing. cbn [fst]. rewrite orderBy_In, filter_In.
  intros (I & W). apply donationsJoined_In in I. destruct I as (I1 & I2 & I3).
  unfold donationsWhere in W. apply andb_true_iff in W.
  destruct W as (T & S). apply String.eqb_eq in T. auto.
Qed.

(** X16.  A page of [getDonations]: with the store answering, a page number
    of at least 1 and a limit that is not negative, the call returns without
    changing the database; the page holds
    [min limit (max 0 (total - (page - 1) * limit))] donations, where
    [total] is the count it returns beside them; and every donation on the
    page is a stored donation of the tenant whose donor row exists and
    matches the search. *)
Theorem getDonations_page E f faults db :
  schemaOk db -> faultFree faults ->
  1 <= FilterInput.page f -> 0 <= FilterInput.limit f ->
  exists donations total,
    run (getDonations E f) faults db = (inr (donations, total), db)
    /\ Z.of_nat (List.length donations)
       = pageLength (FilterInput.page f) (FilterInput.limit f) total
    /\ forall d, In d donations ->
         In d (donationsTable db)
         /\ Donation.tenantId d = FilterInput.tenantId f
         /\ exists donor, In donor (donorsTable db)
              /\ Donor.id donor = Donation.donorId d
              /\ searchMatches E (FilterInput.search f) (Donor.name donor)
                 = true.
Proof.
  intros OK F P L.
  assert (O : 0 <= (FilterInput.page f - 1) * FilterInput.limit f) by nia.
  eexists. eexists. split; [|split].
  - unfold getDonations.
    apply (page_faultFree _ _ (selectDonationsListing E f)
             (countDonations E f)
             (fun results total => (map joinedDonation results, total)));
      auto using selectDonationsListing_readOnly, countDonations_readOnly.
  - rewrite length_map, page_length by assumption.
    rewrite countDonations_listing by apply (campaign_ids_nodup _ OK).
    reflexivity.
  - intros d I. apply in_map_iff in I. destruct I as (r & <- & I).
    apply page_In, selectDonationsListing_In in I.
    destruct I as (I1 & I2 & I3 & I4 & I5). eauto 10.
Qed.

Lemma getDonations_page_witness :
  schemaOk testDbReceived
  /\ faultFree []
  /\ run (getDonations testEngine (testFilter testTenantId)) []
         testDbReceived
     = (inr ([testDonation], 1), testDbReceived)
  /\ pageLength 1 10 1 = 1.
Proof.
  split; [exact testDbReceived_schemaOk|]. split; [constructor|].
  destruct (getDonations_page testEngine (testFilter testTenantId) []
              testDbReceived testDbReceived_schemaOk (Forall_nil _))
    as (ds & total & R & L & I); [cbv; discriminate | cbv; discriminate |].
  split; reflexivity.
Defined.

Lemma donors_one db i t :
  donorIdsUnique db -> hasDonor db i t ->
  exists donor,
    filter (fun r => i =? Donor.id r) (donorsTable db) = [donor].
Proof.
  intros ND (donor & I & E & _).
  pose proof (filter_key_unique Donor.id i (donorsTable db) ND) as L.
  rewrite (filter_ext (fun r => i =? Donor.id r)
                      (fun r => Donor.id r =? i))
    by (intro; apply Z.eqb_sym).
  assert (Id : In donor (filter (fun r => Donor.id r =? i) (donorsTable db))).
  { apply filter_In. split; [exact I|]. apply Z.eqb_eq. exact E. }
  destruct (filter (fun r => Donor.id r =? i) (donorsTable db))
    as [|x [|y rest]]; simpl in *; [contradiction | eauto | lia].
Qed.

Lemma donationsWithDonors_fst db :
  donorIdsUnique db -> donorsKnown db ->
  map fst (donationsWithDonors db) = donationsTable db.
Proof.
  intros ND DK. unfold donationsWithDonors.
  assert (H : forall d, In d (donationsTable db) ->
                hasDonor db (Donation.donorId d) (Donation.tenantId d))
    by exact DK.
  induction (donationsTable db) as [|d ds IH]; simpl; [reflexivity|].
  rewrite map_app, IH by (intros; apply H; right; assumption).
  destruct (donors_one db _ _ ND (H d (or_introl eq_refl))) as (donor & ->).
  reflexivity.
Qed.

Lemma donationsJoined_donations db :
  schemaOk db -> donorIdsUnique db -> donorsKnown db ->
  map joinedDonation (donationsJoined db) = donationsTable db.
Proof.
  intros OK ND DK. rewrite <- (donationsWithDonors_fst db ND DK).
  rewrite <- (donationsJoined_pairs db (campaign_ids_nodup _ OK)).
  rewrite map_map. reflexivity.
Qed.

Lemma searchMatches_absent E s v :
  truthyString s = None -> searchMatches E s v = true.
Proof. unfold searchMatches. intros ->. reflexivity. Qed.

Lemma selectDonationsListing_all E f db :
  schemaOk db -> donorIdsUnique db -> donorsKnown db ->
  truthyString (FilterInput.search f) = None ->
  Permutation (map joinedDonation (fst (selectDonationsListing E f db)))
              (donationsOf (FilterInput.tenantId f) db).
Proof.
  intros OK ND DK S. unfold selectDonationsListing. cbn [fst].
  rewrite (Permutation_map joinedDonation (orderBy_perm _ _)).
  unfold donationsOf. rewrite <- (donationsJoined_donations db OK ND DK).
  rewrite filter_map_comm.
  rewrite (filter_ext
             (fun r => donationsWhere E f (joinedDonation r) (joinedDonor r))
             (fun r => String.eqb (Donation.tenantId (joinedDonation r))
                                  (FilterInput.tenantId f))).
  - reflexivity.
  - intro r. unfold donationsWhere.
    rewrite searchMatches_absent by exact S. apply andb_true_r.
Qed.

(** X17.  [getDonations] without a search lists a tenant's donations: when
    donor ids are unique and every stored donation has its donor, the first
    page, with a limit no smaller than the number of donations the tenant
    has, holds exactly those donations, each once and in some order, and the
    total returned is their number. *)
Theorem getDonations_lists_tenant E f faults db :
  schemaOk db -> donorIdsUnique db -> donorsKnown db ->
  faultFree faults ->
  truthyString (FilterInput.search f) = None ->
  FilterInput.page f = 1 ->
  Z.of_nat (List.length (donationsOf (FilterInput.tenantId f) db))
    <= FilterInput.limit f ->
  exists donations,
    run (getDonations E f) faults db
    = (inr (donations,
            Z.of_nat (List.length
                        (donationsOf (FilterInput.tenantId f) db))), db)
    /\ Permutation donations (donationsOf (FilterInput.tenantId f) db).
Proof.
  intros OK ND DK F S P L.
  pose proof (selectDonationsListing_all E f db OK ND DK S) as A.
  pose proof (Permutation_length A) as LA. rewrite length_map in LA.
  eexists. split.
  - unfold getDonations.
    rewrite (page_faultFree _ _ (selectDonationsListing E f)
               (countDonations E f)
               (fun results total => (map joinedDonation results, total)))
      by (auto using selectDonationsListing_readOnly,
            countDonations_readOnly; lia).
    rewrite countDonations_listing by apply (campaign_ids_nodup _ OK).
    rewrite LA. reflexivity.
  - rewrite P. change (Z.to_nat ((1 - 1) * FilterInput.limit f)) with 0%nat.
    rewrite page_whole by lia. exact A.
Qed.

Lemma testDbTwoDonations_schemaOk : schemaOk testDbTwoDonations.
Proof.
  split.
  - cbv. repeat constructor. intros [].
  - intros c [<-|[]]. cbv. split; [discriminate | reflexivity].
  - cbv. repeat constructor; [intros [H|[]]; discriminate H | intros []].
  - intros d [<-|[<-|[]]]; cbv; split; first [discriminate | reflexivity].
  - cbv. discriminate.
Qed.

Lemma testDbTwoDonations_donorIdsUnique : donorIdsUnique testDbTwoDonations.
Proof. cbv. repeat constructor. intros []. Qed.

Lemma testDbTwoDonations_donorsKnown : donorsKnown testDbTwoDonations.
Proof.
  intros d [<-|[<-|[]]]; (eexists; split; [left; reflexivity|]);
    split; reflexivity.
Qed.

Lemma getDonations_lists_tenant_witness :
  schemaOk testDbTwoDonations
  /\ donorIdsUnique testDbTwoDonations
  /\ donorsKnown testDbTwoDonations
  /\ donationsOf testTenantId testDbTwoDonations = [testDonation; testPledge]
  /\ run (getDonations testEngine (testFilter testTenantId)) []
         testDbTwoDonations
     = (inr ([testPledge; testDonation], 2), testDbTwoDonations)
  /\ Permutation [testPledge; testDonation]
                 (donationsOf testTenantId testDbTwoDonations).
Proof.
  split; [exact testDbTwoDonations_schemaOk|].
  split; [exact testDbTwoDonations_donorIdsUnique|].
  split; [exact testDbTwoDonations_donorsKnown|].
  split; [reflexivity|]. split; [reflexivity|].
  destruct (getDonations_lists_tenant testEngine (testFilter testTenantId)
              [] testDbTwoDonations testDbTwoDonations_schemaOk
              testDbTwoDonations_donorIdsUnique
              testDbTwoDonations_donorsKnown
              (Forall_nil _) eq_refl eq_refl)
    as (ds & R & P); [cbv; discriminate|].
  assert (E : ds = [testPledge; testDonation]).
  { assert (C : run (getDonations testEngine (testFilter testTenantId)) []
                    testDbTwoDonations
                = (inr ([testPledge; testDonation], 2), testDbTwoDonations))
      by reflexivity.
    rewrite C in R. injection R as <-. reflexivity. }
  rewrite <- E. exact P.
Defined.

Lemma NoDup_map_filter {A} (key : A -> Z) (p : A -> bool) l :
  NoDup (map key l) -> NoDup (map key (filter p l)).
Proof.
  induction l as [|a l IH]; simpl; intros ND; [constructor|].
  inversion ND as [|? ? NI ND']; subst.
  destruct (p a); simpl; auto. constructor; auto.
  intros I. apply NI. apply in_map_iff in I. destruct I as (x & E & I).
  apply filter_In in I. rewrite <- E. apply in_map. tauto.
Qed.

Lemma NoDup_map_page {A} (key : A -> Z) limit offset l :
  NoDup (map key l) -> NoDup (map key (firstn limit (skipn offset l))).
Proof.
  intros ND. rewrite <- (firstn_skipn offset l), map_app in ND.
  apply NoDup_app_remove_l in ND.
  rewrite <- (firstn_skipn limit (skipn offset l)), map_app in ND.
  apply NoDup_app_remove_r in ND. exact ND.
Qed.

Lemma StronglySorted_app_parts {A} (R : A -> A -> Prop) l1 l2 :
  StronglySorted R (l1 ++ l2) -> StronglySorted R l1 /\ StronglySorted R l2.
Proof.
  induction l1 as [|a l1 IH]; simpl; intros S; [split; [constructor|auto]|].
  inversion S as [|? ? S' F]; subst. destruct (IH S') as (S1 & S2).
  split; [|exact S2]. constructor; [exact S1|].
  apply Forall_app in F. tauto.
Qed.

Lemma StronglySorted_page {A} (R : A -> A -> Prop) limit offset l :
  StronglySorted R l -> StronglySorted R (firstn limit (skipn offset l)).
Proof.
  intros S. rewrite <- (firstn_skipn offset l) in S.
  apply StronglySorted_app_parts in S. destruct S as (_ & S).
  rewrite <- (firstn_skipn limit (skipn offset l)) in S.
  apply StronglySorted_app_parts in S. tauto.
Qed.

Lemma StronglySorted_map {A B} (R : B -> B -> Prop) (f : A -> B) l :
  StronglySorted (fun a b => R (f a) (f b)) l -> StronglySorted R (map f l).
Proof.
  induction 1 as [|a l S IH F]; simpl; constructor; auto.
  rewrite Forall_forall in *. intros y Iy. apply in_map_iff in Iy.
  destruct Iy as (x & <- & Ix). auto.
Qed.

Lemma orderBy_direction_sorted {A} (o : SortOrder) (key : A -> Z) l :
  StronglySorted (fun a b => inDirection o (key a) (key b))
                 (orderBy (direction o (onKey key Z.leb)) l).
Proof.
  apply (StronglySorted_weaken
           (fun a b => direction o (onKey key Z.leb) a b = true)).
  - intros a b. destruct o; unfold direction, onKey, inDirection;
      rewrite Z.leb_le; auto.
  - apply orderBy_sorted.
    + intros a b. destruct o; unfold direction, onKey;
        rewrite Z.leb_gt, Z.leb_le; lia.
    + intros a b c. destruct o; unfold direction, onKey;
        rewrite !Z.leb_le; lia.
Qed.

Lemma selectCampaignsListing_In E f db c :
  In c (fst (selectCampaignsListing E f db)) <->
  In c (campaignsTable db)
  /\ Campaign.tenantId c = FilterInput.tenantId f
  /\ searchMatches E (FilterInput.search f) (Campaign.name c) = true.
Proof.
  unfold selectCampaignsListing. cbn [fst]. rewrite orderBy_In, filter_In.
  unfold campaignsWhere. rewrite andb_true_iff, String.eqb_eq. tauto.
Qed.

(** X18.  A page of [getCampaigns]: with the store answering, a page number
    of at least 1 and a limit that is not negative, the call returns without
    changing the database; the page holds
    [min limit (max 0 (total - (page - 1) * limit))] campaigns, where
    [total] is the count returned beside them; no campaign is on the page
    twice; every campaign on it is a stored campaign of the tenant that
    matches the search; and without a search the total is the number of
    campaigns the tenant has. *)
Theorem getCampaigns_page E f faults db :
  schemaOk db -> faultFree faults ->
  1 <= FilterInput.page f -> 0 <= FilterInput.limit f ->
  exists campaigns total,
    run (getCampaigns E f) faults db = (inr (campaigns, total), db)
    /\ Z.of_nat (List.length campaigns)
       = pageLength (FilterInput.page f) (FilterInput.limit f) total
    /\ NoDup (map Campaign.id campaigns)
    /\ (forall c, In c campaigns ->
          In c (campaignsTable db)
          /\ Campaign.tenantId c = FilterInput.tenantId f
          /\ searchMatches E (FilterInput.search f) (Campaign.name c) = true)
    /\ (truthyString (FilterInput.search f) = None ->
        total = Z.of_nat (List.length
                            (campaignsOf (FilterInput.tenantId f) db))).
Proof.
  intros OK F P L.
  assert (O : 0 <= (FilterInput.page f - 1) * FilterInput.limit f) by nia.
  eexists. eexists. split; [|split; [|split; [|split]]].
  - unfold getCampaigns.
    apply (page_faultFree _ _ (selectCampaignsListing E f)
             (countCampaigns E f) pair);
      auto using selectCampaignsListing_readOnly, countCampaigns_readOnly.
  - rewrite page_length by assumption.
    unfold selectCampaignsListing, countCampaigns. cbn [fst].
    rewrite (Permutation_length (orderBy_perm _ _)). reflexivity.
  - apply NoDup_map_page. unfold selectCampaignsListing. cbn [fst].
    apply (Permutation_NoDup
             (Permutation_map Campaign.id
                (Permutation_sym (orderBy_perm _ _)))).
    apply NoDup_map_filter. apply (campaign_ids_nodup _ OK).
  - intros c I. apply page_In in I. apply selectCampaignsListing_In. exact I.
  - intros S. unfold countCampaigns, campaignsOf. cbn [fst].
    do 2 f_equal. apply filter_ext. intro c. unfold campaignsWhere.
    rewrite searchMatches_absent by exact S. apply andb_true_r.
Qed.

Lemma testDbTwoCampaigns_schemaOk : schemaOk testDbTwoCampaigns.
Proof.
  split.
  - cbv. repeat constructor; [intros [H|[]]; discriminate H | intros []].
  - intros c [<-|[<-|[]]]; cbv; split; first [discriminate | reflexivity].
  - cbv. repeat constructor. intros [].
  - intros d [<-|[]]. cbv. split; [discriminate | reflexivity].
  - cbv. discriminate.
Qed.

Lemma getCampaigns_page_witness :
  schemaOk testDbTwoCampaigns
  /\ faultFree []
  /\ run (getCampaigns testEngine (testFilter testTenantId)) []
         testDbTwoCampaigns
     = (inr (rev (campaignsTable testDbTwoCampaigns), 2),
        testDbTwoCampaigns)
  /\ pageLength 1 10 2 = 2.
Proof.
  split; [exact testDbTwoCampaigns_schemaOk|]. split; [constructor|].
  destruct (getCampaigns_page testEngine (testFilter testTenantId) []
              testDbTwoCampaigns testDbTwoCampaigns_schemaOk (Forall_nil _))
    as (cs & total & R & _); [cbv; discriminate | cbv; discriminate |].
  split; reflexivity.
Defined.

Lemma campaignsOrder_unknown E f :
  unknownCampaignColumn f -> campaignsOrder E f = createdAtDesc.
Proof.
  unfold unknownCampaignColumn, campaignsOrder. intros U.
  destruct (truthyString (FilterInput.sortBy f)) as [s|]; [|reflexivity].
  specialize (U s eq_refl). simpl in U.
  repeat match goal with
         | |- context [String.eqb s ?k] =>
             destruct (String.eqb_spec s k); [exfalso; apply U; auto 10|]
         end.
  reflexivity.
Qed.

(** X19.  The fallback order of [getCampaigns]: when [sortBy] is absent,
    empty or none of the six columns the handler knows, the page comes
    newest first by [createdAt], whichever [sortOrder] was asked for. *)
Theorem getCampaigns_default_order E f faults db :
  faultFree faults ->
  1 <= FilterInput.page f -> 0 <= FilterInput.limit f ->
  unknownCampaignColumn f ->
  exists campaigns total,
    run (getCampaigns E f) faults db = (inr (campaigns, total), db)
    /\ StronglySorted
         (fun a b => Campaign.createdAt b <= Campaign.createdAt a) campaigns.
Proof.
  intros F P L U.
  assert (O : 0 <= (FilterInput.page f - 1) * FilterInput.limit f) by nia.
  eexists. eexists. split.
  - unfold getCampaigns.
    apply (page_faultFree _ _ (selectCampaignsListing E f)
             (countCampaigns E f) pair);
      auto using selectCampaignsListing_readOnly, countCampaigns_readOnly.
  - apply StronglySorted_page. unfold selectCampaignsListing. cbn [fst].
    rewrite (campaignsOrder_unknown E f U).
    exact (orderBy_direction_sorted Desc Campaign.createdAt _).
Qed.

Lemma getCampaigns_default_order_witness :
  faultFree []
  /\ unknownCampaignColumn (testFilterUnknownColumn testTenantId)
  /\ FilterInput.sortOrder (testFilterUnknownColumn testTenantId) = Asc
  /\ run (getCampaigns testEngine (testFilterUnknownColumn testTenantId)) []
         testDbTwoCampaigns
     = (inr (rev (campaignsTable testDbTwoCampaigns), 2),
        testDbTwoCampaigns)
  /\ map Campaign.createdAt (rev (campaignsTable testDbTwoCampaigns))
     = [5; 0].
Proof.
  assert (U : unknownCampaignColumn (testFilterUnknownColumn testTenantId)).
  { intros s [= <-]. simpl. intuition discriminate. }
  split; [constructor|]. split; [exact U|]. split; [reflexivity|].
  destruct (getCampaigns_default_order testEngine
              (testFilterUnknownColumn testTenantId) [] testDbTwoCampaigns
              (Forall_nil _))
    as (cs & total & R & _);
    [cbv; discriminate | cbv; discriminate | exact U |].
  split; reflexivity.
Defined.

Lemma donationsOrder_date E f :
  sortsByDate f ->
  donationsOrder E f
  = direction (dateDirection f)
      (onKey (fun r => Donation.date (joinedDonation r)) Z.leb).
Proof.
  unfold sortsByDate, donationsOrder, dateDirection. intros U.
  destruct (truthyString (FilterInput.sortBy f)) as [s|]; [|reflexivity].
  specialize (U s eq_refl). simpl in U.
  repeat match goal with
         | |- context [String.eqb s ?k] =>
             destruct (String.eqb_spec s k); [exfalso; apply U; auto 10|]
         end.
  reflexivity.
Qed.

(** X20.  The fallback order of [getDonations]: when [sortBy] is none of
    [donorName], [campaignName] and [amount], the page is sorted by date,
    in the direction [sortOrder] asks for if [sortBy] is given and not
    empty, and newest first if it is not. *)
Theorem getDonations_sorts_by_date E f faults db :
  faultFree faults ->
  1 <= FilterInput.page f -> 0 <= FilterInput.limit f ->
  sortsByDate f ->
  exists donations total,
    run (getDonations E f) faults db = (inr (donations, total), db)
    /\ StronglySorted
         (fun a b => inDirection (dateDirection f)
                       (Donation.date a) (Donation.date b)) donations.
Proof.
  intros F P L U.
  assert (O : 0 <= (FilterInput.page f - 1) * FilterInput.limit f) by nia.
  eexists. eexists. split.
  - unfold getDonations.
    apply (page_faultFree _ _ (selectDonationsListing E f)
             (countDonations E f)
             (fun results total => (map joinedDonation results, total)));
      auto using selectDonationsListing_readOnly, countDonations_readOnly.
  - apply StronglySorted_map, StronglySorted_page.
    unfold selectDonationsListing. cbn [fst].
    rewrite (donationsOrder_date E f U).
    exact (orderBy_direction_sorted (dateDirection f)
             (fun r => Donation.date (joinedDonation r)) _).
Qed.

Lemma getDonations_sorts_by_date_witness :
  faultFree []
  /\ sortsByDate (testFilterUnknownColumn testTenantId)
  /\ sortsByDate (testFilter testTenantId)
  /\ map Donation.date [testDonation; testPledge] = [14; 20]
  /\ run (getDonations testEngine (testFilterUnknownColumn testTenantId)) []
         testDbTwoDonations
     = (inr ([testDonation; testPledge], 2), testDbTwoDonations)
  /\ StronglySorted (fun a b => Donation.date a <= Donation.date b)
       [testDonation; testPledge]
  /\ run (getDonations testEngine (testFilter testTenantId)) []
         testDbTwoDonations
     = (inr ([testPledge; testDonation], 2), testDbTwoDonations)
  /\ StronglySorted (fun a b => Donation.date b <= Donation.date a)
       [testPledge; testDonation].
Proof.
  assert (U : sortsByDate (testFilterUnknownColumn testTenantId)).
  { intros s [= <-]. simpl. intuition discriminate. }
  assert (V : sortsByDate (testFilter testTenantId)).
  { intros s E. discriminate E. }
  split; [constructor|]. split; [exact U|]. split; [exact V|].
  split; [reflexivity|].
  destruct (getDonations_sorts_by_date testEngine
              (testFilterUnknownColumn testTenantId) [] testDbTwoDonations
              (Forall_nil _))
    as (ds & total & R & S);
    [cbv; discriminate | cbv; discriminate | exact U |].
  destruct (getDonations_sorts_by_date testEngine
              (testFilter testTenantId) [] testDbTwoDonations
              (Forall_nil _))
    as (ds' & total' & R' & S');
    [cbv; discriminate | cbv; discriminate | exact V |].
  assert (C : run (getDonations testEngine
                     (testFilterUnknownColumn testTenantId)) []
                  testDbTwoDonations
              = (inr ([testDonation; testPledge], 2), testDbTwoDonations))
    by reflexivity.
  assert (C' : run (getDonations testEngine (testFilter testTenantId)) []
                   testDbTwoDonations
               = (inr ([testPledge; testDonation], 2), testDbTwoDonations))
    by reflexivity.
  rewrite C in R. injection R as <- _.
  rewrite C' in R'. injection R' as <- _.
  split; [exact C|]. split; [exact S|]. split; [exact C'|]. exact S'.
Defined.
